(** * A shallow embedding of the ECS runtime of [src/ecs.js]

    The JavaScript module keeps one mutable [world] object.  Entities are
    plain objects shared by reference between [world.entities], the memoized
    filter lists and the listener lists.  The embedding therefore carries an
    explicit object store ([heap]) that maps an entity reference to its
    component mapping, and every list of the world holds references.

    Objects used as string-keyed maps ([world.filters], the listener maps,
    the counters and the entities themselves) are plain objects: a finite
    map holds their own properties, and a read of a name they do not own
    falls through to [Object.prototype], whose members are all truthy. *)

From Stdlib Require Import ZArith Lia String Ascii.
From stdpp Require Import base option list gmap strings pretty sorting.

Local Open Scope Z_scope.

(** ** JavaScript values and primitives used by the module *)

Module JS.

(** Component data is opaque to the runtime; only its truthiness is ever
    inspected.  Numbers are restricted to integers and NaN, and an object
    carries integer fields. *)
Inductive Value : Type :=
| VUndefined
| VNull
| VBool (b : bool)
| VNum (z : Z)
| VNaN
| VStr (s : string)
| VObj (fields : list (string * Z))
| VMember (name : string).

(** ToBoolean. *)
Definition truthy (v : Value) : bool :=
  match v with
  | VUndefined | VNull | VNaN => false
  | VBool b => b
  | VNum z => negb (Z.eqb z 0)
  | VStr s => negb (String.eqb s "")
  | VObj _ => true
  | VMember _ => true
  end.

(** The property names of [Object.prototype].  A read [o[name]] of a plain
    object [o] that does not own [name] gives the member of that name: a
    built-in function, or for [__proto__] the prototype object itself;
    [VMember name] stands for it. *)
Definition object_prototype : list string :=
  ["constructor"; "__defineGetter__"; "__defineSetter__"; "hasOwnProperty";
   "__lookupGetter__"; "__lookupSetter__"; "isPrototypeOf";
   "propertyIsEnumerable"; "toString"; "valueOf"; "__proto__";
   "toLocaleString"].

(** Counters are JavaScript numbers: an integer or NaN. *)
Inductive Number : Type :=
| Int (z : Z)
| NaN.

(** [Number.isInteger(m[k])]: [m[k]] is a number only when [m] owns [k]. *)
Definition isInteger (n : option Number) : bool :=
  match n with
  | Some (Int _) => true
  | _ => false
  end.

(** [m[k] + d] on a counter.  [undefined + d] is NaN, and so is [f - 1] for
    a member [f] of [Object.prototype], the one case in which the module
    computes with a key that [m] does not own. *)
Definition num_add (n : option Number) (d : Z) : Number :=
  match n with
  | Some (Int z) => Int (z + d)
  | _ => NaN
  end.

(** [s.startsWith(p)]. *)
Fixpoint startsWith (s p : string) {struct p} : bool :=
  match p, s with
  | EmptyString, _ => true
  | String a p', String b s' => Ascii.eqb a b && startsWith s' p'
  | String _ _, EmptyString => false
  end.

(** [s.endsWith(p)]. *)
Fixpoint endsWith (s p : string) : bool :=
  String.eqb s p ||
  match s with
  | EmptyString => false
  | String _ s' => endsWith s' p
  end.

(** [s.includes(p)]. *)
Fixpoint includes (s p : string) : bool :=
  startsWith s p ||
  match s with
  | EmptyString => false
  | String _ s' => includes s' p
  end.

(** [s.slice(1)]. *)
Definition slice1 (s : string) : string :=
  match s with
  | EmptyString => EmptyString
  | String _ s' => s'
  end.

(** [s.split(',')]: never empty, [""] splits to [[""]]. *)
Fixpoint split_comma (s : string) : list string :=
  match s with
  | EmptyString => [EmptyString]
  | String c s' =>
      if Ascii.eqb c ","%char then EmptyString :: split_comma s'
      else match split_comma s' with
           | t :: ts => String c t :: ts
           | [] => [String c EmptyString]
           end
  end.

(** [s.split(sep)] for a separator of one character or more.  [skip] counts
    the characters of a separator occurrence that are still to be passed. *)
Fixpoint split_go (sep : string) (skip : nat) (s : string) : list string :=
  match s with
  | EmptyString => [EmptyString]
  | String c s' =>
      match skip with
      | S k => split_go sep k s'
      | O =>
          if startsWith s sep
          then match String.length sep with
               | S (S k) => EmptyString :: split_go sep (S k) s'
               | _ => EmptyString :: split_go sep O s'
               end
          else match split_go sep O s' with
               | t :: ts => String c t :: ts
               | [] => [String c EmptyString]
               end
      end
  end.

(** [names.join(',')]. *)
Fixpoint join_comma (names : list string) : string :=
  match names with
  | [] => EmptyString
  | [n] => n
  | n :: rest => String.append n (String ","%char (join_comma rest))
  end.

(** [arr.indexOf(x)] on a list of references: first position, or -1. *)
Fixpoint indexOf (arr : list nat) (x : nat) : Z :=
  match arr with
  | [] => -1
  | y :: rest =>
      if Nat.eqb y x then 0
      else let i := indexOf rest x in
           if Z.ltb i 0 then -1 else i + 1
  end.

(** [arr.includes(x)]. *)
Definition arr_includes (arr : list nat) (x : nat) : bool :=
  existsb (Nat.eqb x) arr.

(** [arr.includes(x)] on a list of numbers. *)
Definition includesZ (arr : list Z) (x : Z) : bool :=
  existsb (Z.eqb x) arr.

(** [arr.includes(s)] on a list of strings. *)
Definition includesStr (arr : list string) (s : string) : bool :=
  existsb (String.eqb s) arr.

(** Is [name] a member of [Object.prototype]. *)
Definition inherited (name : string) : bool :=
  includesStr object_prototype name.

(** [arr[i]] for a number [i]; [None] is [undefined]. *)
Definition at_index {A} (arr : list A) (i : Z) : option A :=
  if Z.ltb i 0 then None else arr !! Z.to_nat i.

(** [arr[key]] for a string [key]: array elements are the properties named
    by the decimal spelling of their index. *)
Fixpoint at_key_from {A} (i : nat) (arr : list A) (key : string) : option A :=
  match arr with
  | [] => None
  | x :: rest =>
      if String.eqb (pretty i) key then Some x
      else at_key_from (S i) rest key
  end.

Definition at_key {A} (arr : list A) (key : string) : option A :=
  at_key_from 0 arr key.

End JS.

Import JS.

(** ** The data model of [createWorld] *)

(** An entity object: its own properties, component name to component data. *)
Abbreviation Entity := (gmap string Value).

(** The value of the own property [name], [undefined] when the entity has
    none. *)
Definition prop (entity : Entity) (name : string) : Value :=
  default VUndefined (entity !! name).

(** [entity[name]]: the own property, else the member of
    [Object.prototype], else [undefined]. *)
Definition read (entity : Entity) (name : string) : Value :=
  match entity !! name with
  | Some v => v
  | None => if inherited name then VMember name else VUndefined
  end.

(** [o[key] = v] on a plain object, for a primitive [v]: [__proto__] is an
    accessor of [Object.prototype] whose setter ignores a primitive; any
    other key becomes, or stays, an own property. *)
Definition assign {A} (key : string) (v : A) (o : gmap string A)
    : gmap string A :=
  if String.eqb key "__proto__" then o else <[key := v]> o.

(** A query counter: a number, or the text that [+=] makes of a member of
    [Object.prototype]. *)
Inductive Count : Type :=
| CInt (z : Z)
| CNaN
| CText.

(** What [m[key]] gives for a counter object [m]. *)
Inductive Held : Type :=
| HCount (c : Count)
| HMember
| HNothing.

Definition held (m : gmap string Count) (key : string) : Held :=
  match m !! key with
  | Some c => HCount c
  | None => if inherited key then HMember else HNothing
  end.

(** ToBoolean of it; a text is never empty. *)
Definition held_truthy (h : Held) : bool :=
  match h with
  | HCount (CInt z) => negb (Z.eqb z 0)
  | HCount CNaN => false
  | HCount CText => true
  | HMember => true
  | HNothing => false
  end.

(** [m[key] + d] for a number [d]: a sum of numbers, or a concatenation. *)
Definition held_add (h : Held) (d : Z) : Count :=
  match h with
  | HCount (CInt z) => CInt (z + d)
  | HCount CNaN => CNaN
  | HCount CText => CText
  | HMember => CText
  | HNothing => CNaN
  end.

(** [if (!m[key]) m[key] = 0; m[key] += d]. *)
Definition bump (key : string) (d : Z) (m : gmap string Count)
    : gmap string Count :=
  let m0 := if negb (held_truthy (held m key)) then assign key (CInt 0) m
            else m in
  assign key (held_add (held m0 key) d) m0.

(** [f.length] for a member [f] of [Object.prototype]: the number of
    parameters of the built-in function.  ([__proto__] is no function; an
    assignment under that key is ignored whatever is added.) *)
Definition member_length (name : string) : Z :=
  if includesStr ["__defineGetter__"; "__defineSetter__"] name then 2
  else if includesStr ["toString"; "valueOf"; "toLocaleString"] name then 0
  else 1.

(** One element of [world.stats.systems]. *)
Record SystemStats : Type := mkSystemStats {
  name : string;
  timeElapsed : Z;
  sys_filters : gmap string Count
}.

(** [world.stats]. *)
Record WorldStats : Type := mkWorldStats {
  entityCount : Z;
  componentCount : gmap string Number;
  filterInvocationCount : gmap string Count;
  stat_systems : list SystemStats;
  currentSystem : nat;
  lastSendTime : Z
}.

(** The world object together with the store of the entity objects it
    refers to.  [next_ref] is the next unused object reference.  The
    callbacks of [world.systems] are kept apart (see [Ecs] below), as they
    are functions over this state. *)
Record World : Type := mkWorld {
  heap : gmap nat Entity;
  next_ref : nat;
  entities : list nat;
  filters : gmap string (list nat);
  listeners_added : gmap string (list nat);
  listeners_removed : gmap string (list nat);
  removals_entities : list Z;
  removals_components : list string;
  stats : WorldStats
}.

(** The object a reference denotes. *)
Definition obj (w : World) (e : nat) : Entity := default ∅ (heap w !! e).

(** Field updates. *)
Definition set_heap (h : gmap nat Entity) (w : World) : World :=
  mkWorld h (next_ref w) (entities w) (filters w) (listeners_added w)
    (listeners_removed w) (removals_entities w) (removals_components w) (stats w).
Definition set_entities (es : list nat) (w : World) : World :=
  mkWorld (heap w) (next_ref w) es (filters w) (listeners_added w)
    (listeners_removed w) (removals_entities w) (removals_components w) (stats w).
Definition set_filters (fs : gmap string (list nat)) (w : World) : World :=
  mkWorld (heap w) (next_ref w) (entities w) fs (listeners_added w)
    (listeners_removed w) (removals_entities w) (removals_components w) (stats w).
Definition set_listeners_added (ls : gmap string (list nat)) (w : World) : World :=
  mkWorld (heap w) (next_ref w) (entities w) (filters w) ls
    (listeners_removed w) (removals_entities w) (removals_components w) (stats w).
Definition set_listeners_removed (ls : gmap string (list nat)) (w : World) : World :=
  mkWorld (heap w) (next_ref w) (entities w) (filters w) (listeners_added w)
    ls (removals_entities w) (removals_components w) (stats w).
Definition set_removals_entities (q : list Z) (w : World) : World :=
  mkWorld (heap w) (next_ref w) (entities w) (filters w) (listeners_added w)
    (listeners_removed w) q (removals_components w) (stats w).
Definition set_removals_components (q : list string) (w : World) : World :=
  mkWorld (heap w) (next_ref w) (entities w) (filters w) (listeners_added w)
    (listeners_removed w) (removals_entities w) q (stats w).
Definition set_stats (s : WorldStats) (w : World) : World :=
  mkWorld (heap w) (next_ref w) (entities w) (filters w) (listeners_added w)
    (listeners_removed w) (removals_entities w) (removals_components w) s.

Definition set_entityCount (n : Z) (s : WorldStats) : WorldStats :=
  mkWorldStats n (componentCount s) (filterInvocationCount s) (stat_systems s)
    (currentSystem s) (lastSendTime s).
Definition set_componentCount (c : gmap string Number) (s : WorldStats) : WorldStats :=
  mkWorldStats (entityCount s) c (filterInvocationCount s) (stat_systems s)
    (currentSystem s) (lastSendTime s).
Definition set_filterInvocationCount (c : gmap string Count) (s : WorldStats) : WorldStats :=
  mkWorldStats (entityCount s) (componentCount s) c (stat_systems s)
    (currentSystem s) (lastSendTime s).
Definition set_stat_systems (l : list SystemStats) (s : WorldStats) : WorldStats :=
  mkWorldStats (entityCount s) (componentCount s) (filterInvocationCount s) l
    (currentSystem s) (lastSendTime s).
Definition set_currentSystem (i : nat) (s : WorldStats) : WorldStats :=
  mkWorldStats (entityCount s) (componentCount s) (filterInvocationCount s)
    (stat_systems s) i (lastSendTime s).

(** [createWorld]: every collection empty, every counter zero. *)
Definition createWorld : World :=
  mkWorld ∅ 0%nat [] ∅ ∅ ∅ [] []
    (mkWorldStats 0 ∅ ∅ [] 0%nat 0).

(** ** Utility collaborators *)

(** Modelled from the spec: [removeItems(arr, index, count)] comes from the
    external package [remove-array-items], which is not among the sources.
    It is taken by its contract: remove [count] elements
    starting at [index], shifting the later elements down.  The contract
    speaks of an index into the sequence, so the index is a natural number
    here; a call site that can pass -1 handles that case itself. *)
Definition removeItems {A} (arr : list A) (startIdx count : nat) : list A :=
  take startIdx arr ++ drop (startIdx + count) arr.

(** Modelled from the spec: [ordered-insert.js] is imported by [ecs.js] but
    is not among the sources.  The spec gives its contract (insert a value
    into a sorted sequence, preserving sort order) and its use (the removal
    queue is kept sorted from highest to lowest). *)
Fixpoint orderedInsert (arr : list Z) (val : Z) : list Z :=
  match arr with
  | [] => [val]
  | x :: rest =>
      if Z.ltb x val then val :: x :: rest
      else x :: orderedInsert rest val
  end.

(** ** The matching predicate *)

(** The loop of [_matchesFilter] over the tokens of the filter key. *)
Fixpoint match_tokens (entity : Entity) (componentIgnoreList : list string)
    (componentIds : list string) : bool :=
  match componentIds with
  | [] => true
  | componentId :: rest =>
      if includesStr componentIgnoreList componentId then false
      else if startsWith componentId "!"
              && truthy (read entity (slice1 componentId)) then false
      else if negb (startsWith componentId "!")
              && negb (truthy (read entity componentId)) then false
      else match_tokens entity componentIgnoreList rest
  end.

Definition _matchesFilter (filterId : string) (entity : Entity)
    (componentIgnoreList : list string) : bool :=
  match_tokens entity componentIgnoreList (split_comma filterId).

(** [_hasComponent]: is [component] mentioned in the filter key. *)
Definition _hasComponent (filterId component : string) : bool :=
  String.eqb filterId component
  || startsWith filterId (component +:+ ",")
  || endsWith filterId ("," +:+ component)
  || includes filterId ("," +:+ component +:+ ",").

(** ** Entities and components *)

(** [createEntity]: a new empty object, appended to [world.entities]. *)
Definition createEntity (w : World) : nat * World :=
  let entity := next_ref w in
  (entity,
   mkWorld (<[entity := ∅]> (heap w)) (S entity) (entities w ++ [entity])
     (filters w) (listeners_added w) (listeners_removed w)
     (removals_entities w) (removals_components w)
     (set_entityCount (entityCount (stats w) + 1) (stats w))).

(** The default value [{}] of the [componentData] parameter applies when the
    argument is missing or [undefined]. *)
Definition default_data (componentData : Value) : Value :=
  match componentData with
  | VUndefined => VObj []
  | d => d
  end.

(** One turn of the first loop of [addComponentToEntity], for the filter
    [filterId] with memoized list [filter]. *)
Definition add_update_filter (entity : Entity) (e : nat)
    (filterId : string) (filter : list nat) : list nat :=
  let matches := _matchesFilter filterId entity [] in
  let idx := indexOf filter e in
  if Z.leb 0 idx then
    if negb matches then removeItems filter (Z.to_nat idx) 1 else filter
  else
    if matches then filter ++ [e] else filter.

(** One turn of its second loop, for the added-listener list [lst]. *)
Definition add_update_listener (entity : Entity) (e : nat)
    (componentName : string) (filterId : string) (lst : list nat) : list nat :=
  let matches := _matchesFilter filterId entity []
                 && negb (_matchesFilter filterId entity [componentName]) in
  if matches && negb (arr_includes lst e) then lst ++ [e] else lst.

Definition addComponentToEntity (w : World) (e : nat) (componentName : string)
    (componentData : Value) : World :=
  let entity := obj w e in
  if truthy (read entity componentName) then w
  else
    let cc := componentCount (stats w) in
    let cc1 := if negb (isInteger (cc !! componentName))
               then <[componentName := Int 0]> cc else cc in
    let cc2 := if negb (truthy (read entity componentName))
               then <[componentName := num_add (cc1 !! componentName) 1]> cc1
               else cc1 in
    let entity' := <[componentName := default_data componentData]> entity in
    mkWorld (<[e := entity']> (heap w)) (next_ref w) (entities w)
      (map_imap (λ filterId filter,
         Some (add_update_filter entity' e filterId filter)) (filters w))
      (map_imap (λ filterId lst,
         Some (add_update_listener entity' e componentName filterId lst))
         (listeners_added w))
      (listeners_removed w) (removals_entities w) (removals_components w)
      (set_componentCount cc2 (stats w)).

(** One turn of the loop of [_removeComponent]. *)
Definition remove_update_filter (entity : Entity) (e : nat)
    (componentName : string) (filterId : string) (filter : list nat) : list nat :=
  if _matchesFilter filterId entity [] && negb (arr_includes filter e)
  then filter ++ [e]
  else if _hasComponent filterId componentName then
    let filterIdx := indexOf filter e in
    if Z.leb 0 filterIdx then removeItems filter (Z.to_nat filterIdx) 1
    else filter
  else filter.

Definition _removeComponent (w : World) (e : nat) (componentName : string)
    : World :=
  let entity := obj w e in
  let cc := componentCount (stats w) in
  let cc' := if truthy (read entity componentName)
             then assign componentName (num_add (cc !! componentName) (-1)) cc
             else cc in
  let entity' := delete componentName entity in
  mkWorld (<[e := entity']> (heap w)) (next_ref w) (entities w)
    (map_imap (λ filterId filter,
       Some (remove_update_filter entity' e componentName filterId filter))
       (filters w))
    (listeners_added w) (listeners_removed w)
    (removals_entities w) (removals_components w)
    (set_componentCount cc' (stats w)).

(** The separator of a queued component removal. *)
Definition removal_sep : string := "__@@ECS@@__".

(** One turn of the removed-listener loop of [removeComponentFromEntity]. *)
Definition remove_update_listener (entity : Entity) (e : nat)
    (componentName : string) (filterId : string) (lst : list nat) : list nat :=
  if _matchesFilter filterId entity []
     && negb (_matchesFilter filterId entity [componentName])
  then if negb (arr_includes lst e) then lst ++ [e] else lst
  else lst.

Definition removeComponentFromEntity (w : World) (e : nat)
    (componentName : string) (deferredRemoval : bool) : World :=
  let entity := obj w e in
  if negb (truthy (read entity componentName)) then w
  else
    let w1 := set_listeners_removed
                (map_imap (λ filterId lst,
                   Some (remove_update_listener entity e componentName
                           filterId lst)) (listeners_removed w)) w in
    if deferredRemoval then
      let idx := indexOf (entities w1) e in
      let removalKey := pretty idx +:+ removal_sep +:+ componentName in
      if negb (includesStr (removals_components w1) removalKey)
      then set_removals_components (removals_components w1 ++ [removalKey]) w1
      else w1
    else _removeComponent w1 e componentName.

(** [_removeEntity].  The counter loop runs over the own properties of the
    entity, which [for-in] enumerates; an assignment never makes
    [__proto__] one of them.  The result is [None] when the entity is not
    in [world.entities]: [removeItems] is then called with index -1, which
    its contract does not cover. *)
Definition _removeEntity (w : World) (e : nat) : option World :=
  let entity := obj w e in
  let cc' := map_fold (λ componentName v (cc : gmap string Number),
                 if truthy v
                 then <[componentName := num_add (cc !! componentName) (-1)]> cc
                 else cc)
               (componentCount (stats w)) entity in
  let entityIdx := indexOf (entities w) e in
  if Z.ltb entityIdx 0 then None
  else
    Some (mkWorld (heap w) (next_ref w)
            (removeItems (entities w) (Z.to_nat entityIdx) 1)
            ((λ filter,
                let idx := indexOf filter e in
                if Z.leb 0 idx then removeItems filter (Z.to_nat idx) 1
                else filter) <$> filters w)
            (listeners_added w) (listeners_removed w)
            (removals_entities w) (removals_components w)
            (set_componentCount cc' (stats w))).

(** One turn of the removed-listener loop of [removeEntity]. *)
Definition remove_entity_listener (entity : Entity) (e : nat)
    (filterId : string) (lst : list nat) : list nat :=
  let matches := _matchesFilter filterId entity [] in
  if matches && negb (arr_includes lst e) then lst ++ [e] else lst.

Definition removeEntity (w : World) (e : nat) (deferredRemoval : bool)
    : option World :=
  let idx := indexOf (entities w) e in
  if Z.ltb idx 0 then Some w
  else
    let w1 := set_listeners_removed
                (map_imap (λ filterId lst,
                   Some (remove_entity_listener (obj w e) e filterId lst))
                   (listeners_removed w)) w in
    if deferredRemoval then
      if negb (includesZ (removals_entities w1) idx)
      then Some (set_stats
                   (set_entityCount (entityCount (stats w1) - 1) (stats w1))
                   (set_removals_entities
                      (orderedInsert (removals_entities w1) idx) w1))
      else Some w1
    else _removeEntity w1 e.

(** ** Queries *)

(** The [listenerType] argument of [getEntities]; [None] stands for a
    missing argument. *)
Inductive ListenerType : Type := added | removed.

(** What [getEntities] returns: a list of entities, or, for a filter key
    that names a member of [Object.prototype] and has no list of its own,
    that member. *)
Inductive QueryResult : Type :=
| Entities (l : list nat)
| Member (name : string).

#[warning="-uniform-inheritance"]
Coercion Entities : list >-> QueryResult.

Global Instance QueryResult_elem_of : ElemOf nat QueryResult := λ e r,
  match r with
  | Entities l => e ∈ l
  | Member _ => False
  end.

(** [m[filterId]] for a map [m] of lists. *)
Definition lists_read (m : gmap string (list nat)) (filterId : string)
    : QueryResult :=
  match m !! filterId with
  | Some l => Entities l
  | None => Member filterId
  end.

(** [if (!m[filterId]) m[filterId] = l]: a list is truthy, and so is a
    member of [Object.prototype]. *)
Definition seed (filterId : string) (l : list nat)
    (m : gmap string (list nat)) : gmap string (list nat) :=
  match m !! filterId with
  | Some _ => m
  | None => if inherited filterId then m else <[filterId := l]> m
  end.

(** The statistics part of [getEntities]: the invocation counter of the
    filter, and the per-filter counter of the system that is running, to
    which [len], the [length] of [world.filters[filterId]], is added. *)
Definition count_invocation (filterId : string) (len : Z) (s : WorldStats)
    : WorldStats :=
  let fic' := bump filterId 1 (filterInvocationCount s) in
  let systemIdx := currentSystem s in
  let systems' :=
    match stat_systems s !! systemIdx with
    | Some sys =>
        <[systemIdx :=
            mkSystemStats (name sys) (timeElapsed sys)
              (bump filterId len (sys_filters sys))]> (stat_systems s)
    | None => stat_systems s
    end in
  set_stat_systems systems' (set_filterInvocationCount fic' s).

(** [getEntities] returns what it hands out together with the world. *)
Definition getEntities (w : World) (componentNames : list string)
    (listenerType : option ListenerType) : QueryResult * World :=
  let filterId := join_comma componentNames in
  let matching w :=
    List.filter (λ e, _matchesFilter filterId (obj w e) []) (entities w) in
  let filters' := seed filterId (matching w) (filters w) in
  let len := match filters' !! filterId with
             | Some l => Z.of_nat (length l)
             | None => member_length filterId
             end in
  let w1 := set_stats (count_invocation filterId len (stats w))
              (set_filters filters' w) in
  match listenerType with
  | Some added =>
      let la := seed filterId (matching w1) (listeners_added w1) in
      (lists_read la filterId, set_listeners_added la w1)
  | Some removed =>
      let lr := seed filterId [] (listeners_removed w1) in
      (lists_read lr filterId, set_listeners_removed lr w1)
  | None => (lists_read filters' filterId, w1)
  end.

(** ** The end of a frame *)

Definition emptyListeners (w : World) : World :=
  set_listeners_removed ((λ _, []) <$> listeners_removed w)
    (set_listeners_added ((λ _, []) <$> listeners_added w) w).

Definition _resetStats (w : World) : World :=
  let s := stats w in
  set_stats
    (set_currentSystem 0%nat
       (set_stat_systems
          ((λ sys, mkSystemStats (name sys) 0
                     ((λ _, CInt 0) <$> sys_filters sys))
             <$> stat_systems s)
          (set_filterInvocationCount
             ((λ _, CInt 0) <$> filterInvocationCount s) s)))
    w.

(** One turn of the first loop of [cleanup].  The queued key is split at the
    separator; a missing second part reads as [undefined], which names the
    property ["undefined"].  No entity at the index makes
    [_removeComponent] fail on [undefined], hence [None]. *)
Definition cleanup_component (w : World) (removalKey : string) : option World :=
  let parts := split_go removal_sep 0 removalKey in
  let entityIdx := default "" (parts !! 0%nat) in
  let componentName := default "undefined" (parts !! 1%nat) in
  match at_key (entities w) entityIdx with
  | Some entity => Some (_removeComponent w entity componentName)
  | None => None
  end.

(** One turn of its second loop.  No entity at the index leads
    [_removeEntity] to call [removeItems] with index -1. *)
Definition cleanup_entity (w : World) (entityIdx : Z) : option World :=
  match at_index (entities w) entityIdx with
  | Some entity => _removeEntity w entity
  | None => None
  end.

(** A loop over a queue that stops at the first failure. *)
Fixpoint run_queue {A} (step : World → A → option World) (queue : list A)
    (w : World) : option World :=
  match queue with
  | [] => Some w
  | x :: rest =>
      match step w x with
      | Some w' => run_queue step rest w'
      | None => None
      end
  end.

(** [cleanup], without the message to the developer tools; the reset of the
    statistics is left to the timer ([_resetStats]). *)
Definition cleanup (w : World) : option World :=
  let w0 := emptyListeners w in
  match run_queue cleanup_component (removals_components w0) w0 with
  | None => None
  | Some w1 =>
      let w2 := set_removals_components [] w1 in
      match run_queue cleanup_entity (removals_entities w2) w2 with
      | None => None
      | Some w3 => Some (set_removals_entities [] w3)
      end
  end.

(** ** Systems and the phases of a frame *)

(** The callbacks a system function returns; they act on the world. *)
Record System : Type := mkSystem {
  onPreFixedUpdate : option (Z → World → World);
  onFixedUpdate : option (Z → World → World);
  onPostFixedUpdate : option (Z → World → World);
  onPreUpdate : option (Z → World → World);
  onUpdate : option (Z → World → World);
  onPostUpdate : option (Z → World → World)
}.

(** The world with [world.systems]. *)
Record Ecs : Type := mkEcs {
  world : World;
  systems : list System
}.

(** A system function: its [name] and what calling it with the world
    yields. *)
Record SystemFunction : Type := mkSystemFunction {
  fn_name : string;
  fn_call : World → System * World
}.

(** [function () { }]. *)
Definition noop : Z → World → World := λ _ w, w.

Definition addSystem (ecs : Ecs) (fn : SystemFunction) : Ecs :=
  let '(system, w) := fn_call fn (world ecs) in
  let entry :=
    mkSystemStats (if String.eqb (fn_name fn) "" then "anonymousSystem"
                   else fn_name fn) 0 ∅ in
  let w' := set_stats (set_stat_systems (stat_systems (stats w) ++ [entry])
                         (stats w)) w in
  let fill cb := Some (default noop cb) in
  mkEcs w'
    (systems ecs ++
       [mkSystem (fill (onPreFixedUpdate system)) (fill (onFixedUpdate system))
          (fill (onPostFixedUpdate system)) (fill (onPreUpdate system))
          (fill (onUpdate system)) (fill (onPostUpdate system))]).

(** The common loop of the six phases, from system [i] on.  [elapsed i] is
    the time measured around the call of system [i].  A system without its
    callback, or without its statistics entry, makes the loop fail. *)
Fixpoint run_phase (callback : System → option (Z → World → World))
    (elapsed : nat → Z) (i : nat) (rest : list System) (dt : Z) (w : World)
    : option World :=
  match rest with
  | [] => Some w
  | system :: rest' =>
      let w1 := set_stats (set_currentSystem i (stats w)) w in
      match callback system with
      | None => None
      | Some cb =>
          let w2 := cb dt w1 in
          match stat_systems (stats w2) !! i with
          | None => None
          | Some sys =>
              let sys' := mkSystemStats (name sys) (timeElapsed sys + elapsed i)
                            (sys_filters sys) in
              run_phase callback elapsed (S i) rest' dt
                (set_stats (set_stat_systems (<[i := sys']> (stat_systems (stats w2)))
                              (stats w2)) w2)
          end
      end
  end.

Definition phase (callback : System → option (Z → World → World))
    (elapsed : nat → Z) (ecs : Ecs) (dt : Z) : option Ecs :=
  match run_phase callback elapsed 0 (systems ecs) dt (world ecs) with
  | Some w => Some (mkEcs w (systems ecs))
  | None => None
  end.

Definition preFixedUpdate := phase onPreFixedUpdate.
Definition fixedUpdate := phase onFixedUpdate.
Definition postFixedUpdate := phase onPostFixedUpdate.
Definition preUpdate := phase onPreUpdate.
Definition update := phase onUpdate.
Definition postUpdate := phase onPostUpdate.

(** * Vocabulary of the properties *)

(** What one token asks of the entity, the ignore list apart. *)
Definition token_holds (entity : Entity) (t : string) : bool :=
  if startsWith t "!" then negb (truthy (read entity (slice1 t)))
  else truthy (read entity t).

(** A component name that can be told apart inside a filter key, and that
    an entity has only when it was added: it does not read as a negation,
    holds no comma and names no member of [Object.prototype]. *)
Definition name_ok (name : string) : bool :=
  negb (startsWith name "!") && negb (includes name ",")
  && negb (inherited name).

(** The component name [cleanup] reads back from a queued removal. *)
Definition queued_component (removalKey : string) : string :=
  default "undefined" (split_go removal_sep 0 removalKey !! 1%nat).

(** The entities of the world are distinct objects, all of them allocated. *)
Definition world_ok (w : World) : Prop :=
  NoDup (entities w) ∧ ∀ e, e ∈ entities w → (e < next_ref w)%nat.

(** The memoized list of [filterId], once it exists, holds exactly the
    entities of the world that match, each once. *)
Definition filter_correct (filterId : string) (w : World) : Prop :=
  ∀ l, filters w !! filterId = Some l →
    NoDup l ∧
    ∀ e, e ∈ l ↔ e ∈ entities w ∧ _matchesFilter filterId (obj w e) [] = true.

(** The memoized list of [filterId], once it exists, holds no duplicate,
    holds only entities of the world that match, and holds every entity of
    the world that matches and has a component. *)
Definition filter_settled (filterId : string) (w : World) : Prop :=
  ∀ l, filters w !! filterId = Some l →
    NoDup l
    ∧ (∀ e, e ∈ l →
         e ∈ entities w ∧ _matchesFilter filterId (obj w e) [] = true)
    ∧ (∀ e, e ∈ entities w → _matchesFilter filterId (obj w e) [] = true →
         obj w e ≠ ∅ → e ∈ l).

(** The public mutations, on entities of the world and under names that
    pass [name_ok]. *)
Inductive mutation : World → World → Prop :=
| mut_createEntity w :
    mutation w (createEntity w).2
| mut_addComponent w e componentName componentData :
    e ∈ entities w →
    mutation w (addComponentToEntity w e componentName componentData)
| mut_removeComponent w e componentName :
    e ∈ entities w → name_ok componentName = true →
    mutation w (removeComponentFromEntity w e componentName false)
| mut_removeEntity w e w' :
    removeEntity w e false = Some w' →
    mutation w w'
| mut_cleanup w w' :
    Forall (λ key, name_ok (queued_component key) = true)
      (removals_components w) →
    cleanup w = Some w' →
    mutation w w'.

(** One step of a run: a mutation, a query, or a removal with deferral,
    which waits for the flush. *)
Definition step (w w' : World) : Prop :=
  mutation w w'
  ∨ (∃ names lt, w' = (getEntities w names lt).2)
  ∨ (∃ e componentName, w' = removeComponentFromEntity w e componentName true)
  ∨ (∃ e, removeEntity w e true = Some w').

(** The integer a component counter stands at; anything else counts from
    zero at the next add. *)
Definition count_base (n : option Number) : Z :=
  match n with
  | Some (Int z) => z
  | _ => 0
  end.

(** The end-to-end scenario of the spec: a system whose [onUpdate] queries
    ["pos"] and moves every entity it gets by [dt] along [x]. *)
Definition move_x (dt : Z) (w : World) (e : nat) : World :=
  match obj w e !! "pos" with
  | Some (VObj [("x", x)]) =>
      set_heap (<[e := <["pos" := VObj [("x", x + dt)]]> (obj w e)]> (heap w)) w
  | _ => w
  end.

Definition mover : SystemFunction :=
  mkSystemFunction "mover"
    (λ w, (mkSystem None None None None
             (Some (λ dt w,
                let r := getEntities w ["pos"] None in
                match r.1 with
                | Entities l => foldl (move_x dt) r.2 l
                | Member _ => r.2
                end))
             None, w)).

Definition scenario : Ecs :=
  let w := (createEntity createWorld).2 in
  addSystem
    (mkEcs (addComponentToEntity w 0 "pos" (VObj [("x", 0)])) []) mover.

(** A world with five entities, the first of them with a component, and the
    filter ["a"] queried. *)
Definition five_entities : World :=
  let w := Nat.iter 5 (λ w, (createEntity w).2) createWorld in
  (getEntities (addComponentToEntity w 0 "a" VUndefined) ["a"] None).2.

(** ** Vocabulary of the further properties *)

(** The memoized list of [filterId] holds no duplicate and nothing but
    entities of the world that match. *)
Definition filter_sound (filterId : string) (w : World) : Prop :=
  ∀ l, filters w !! filterId = Some l →
    NoDup l ∧
    ∀ e, e ∈ l → e ∈ entities w ∧ _matchesFilter filterId (obj w e) [] = true.

(** No entity object owns a property under the name of a member of
    [Object.prototype]. *)
Definition heap_plain (w : World) : Prop :=
  ∀ e name, inherited name = true → obj w e !! name = None.

(** No listener list holds an entity twice. *)
Definition listeners_nodup (w : World) : Prop :=
  (∀ filterId l, listeners_added w !! filterId = Some l → NoDup l)
  ∧ (∀ filterId l, listeners_removed w !! filterId = Some l → NoDup l).

(** One call of the public interface on the world.  Components are added
    to and removed from entities of the world; [removeEntity] and [cleanup]
    are calls that complete.  The reset of the statistics is the call the
    timer of [cleanup] makes. *)
Inductive call : World → World → Prop :=
| call_createEntity w :
    call w (createEntity w).2
| call_addComponent w e componentName componentData :
    e ∈ entities w →
    call w (addComponentToEntity w e componentName componentData)
| call_removeComponent w e componentName deferredRemoval :
    e ∈ entities w →
    call w (removeComponentFromEntity w e componentName deferredRemoval)
| call_removeEntity w e deferredRemoval w' :
    removeEntity w e deferredRemoval = Some w' →
    call w w'
| call_getEntities w componentNames listenerType :
    call w (getEntities w componentNames listenerType).2
| call_cleanup w w' :
    cleanup w = Some w' →
    call w w'
| call_resetStats w :
    call w (_resetStats w).

(** The worlds that calls lead to from a new world. *)
Definition reachable (w : World) : Prop := rtc call createWorld w.

(** [stats.entityCount] is the number of entities that are not queued for
    removal. *)
Definition count_balanced (w : World) : Prop :=
  entityCount (stats w)
  = Z.of_nat (length (entities w)) - Z.of_nat (length (removals_entities w)).

(** The list without the elements at the positions named in [q], where the
    head of the list has position [i]. *)
Fixpoint without_positions (i : Z) (q : list Z) (l : list nat) : list nat :=
  match l with
  | [] => []
  | x :: rest =>
      if includesZ q i then without_positions (i + 1) q rest
      else x :: without_positions (i + 1) q rest
  end.

(** A run of calls: two entities, an "added" query of ["!y"] between their
    creations, a component added and removed with deferral, a deferred
    removal of the first entity, and the flush. *)
Definition run1 : World := (createEntity createWorld).2.
Definition run2 : World := (getEntities run1 ["!y"] (Some added)).2.
Definition run3 : World := (createEntity run2).2.
Definition run4 : World := addComponentToEntity run3 1 "y" VUndefined.
Definition run5 : World := removeComponentFromEntity run4 1 "y" true.
Definition run6 : World := default run5 (removeEntity run5 0 true).
Definition sample_run : World := default run6 (cleanup run6).

(** The statistics that queries and phases write: the invocation counters,
    the per-system entries and the index of the running system. *)
Definition query_stats (w : World)
    : gmap string Count * list SystemStats * nat :=
  (filterInvocationCount (stats w), stat_systems (stats w),
   currentSystem (stats w)).

(** The names and times of [stats.systems]. *)
Definition timing (w : World) : list (string * Z) :=
  (λ sys, (name sys, timeElapsed sys)) <$> stat_systems (stats w).

(** A step on the world that leaves the names and times alone. *)
Definition keeps_timing (f : World → World) : Prop :=
  ∀ w, timing (f w) = timing w.

(** The six callbacks of a system, in the order of a frame. *)
Definition callbacks : list (System → option (Z → World → World)) :=
  [onPreFixedUpdate; onFixedUpdate; onPostFixedUpdate;
   onPreUpdate; onUpdate; onPostUpdate].

(** A system that has its six callbacks, none of which touches the names
    and times. *)
Definition system_ok (system : System) : Prop :=
  ∀ callback, callback ∈ callbacks →
    ∃ f, callback system = Some f ∧ ∀ dt, keeps_timing (f dt).


(** Every system has its statistics entry and its callbacks. *)
Definition ecs_ok (ecs : Ecs) : Prop :=
  length (systems ecs) = length (stat_systems (stats (world ecs)))
  ∧ Forall system_ok (systems ecs).


(** A series of queries, each with its component names and listener type. *)
Definition queries (qs : list (list string * option ListenerType))
    (w : World) : World :=
  foldl (λ w q, (getEntities w q.1 q.2).2) w qs.

(** How many queries of the series are for the filter key [filterId]. *)
Definition queries_of (filterId : string)
    (qs : list (list string * option ListenerType)) : Z :=
  Z.of_nat (length (List.filter (λ q, String.eqb (join_comma q.1) filterId) qs)).

(** * Properties *)

(** ** Lists of references *)

Section Arrays.

Implicit Types (l : list nat) (x y : nat).

Lemma arr_includes_true l x : arr_includes l x = true ↔ x ∈ l.
Proof.
  unfold arr_includes. rewrite existsb_exists. split.
  - intros (y & Hin & Heq). apply Nat.eqb_eq in Heq. subst y.
    by apply list_elem_of_In.
  - intros Hin. exists x. split; [by apply list_elem_of_In|apply Nat.eqb_refl].
Qed.

Lemma arr_includes_false l x : arr_includes l x = false ↔ x ∉ l.
Proof.
  rewrite <- arr_includes_true. destruct (arr_includes l x); split; congruence.
Qed.

(** [indexOf] finds the first occurrence, or answers -1. *)
Lemma indexOf_spec l x :
  (indexOf l x = (-1) ∧ x ∉ l) ∨
  (∃ l1 l2, l = l1 ++ (x :: l2) ∧ (x ∉ l1)
     ∧ indexOf l x = Z.of_nat (length l1)).
Proof.
  induction l as [|y l IH]; simpl.
  - left. split; [done|]. apply not_elem_of_nil.
  - destruct (Nat.eqb_spec y x) as [->|Hne].
    + right. exists [], l. split_and!; [done|apply not_elem_of_nil|done].
    + destruct IH as [[Hi Hnin]|(l1 & l2 & -> & Hnin & Hi)].
      * left. rewrite Hi. simpl. split; [done|].
        rewrite not_elem_of_cons. split; [congruence|done].
      * right. exists (y :: l1), l2. rewrite Hi.
        destruct (Z.ltb_spec (Z.of_nat (length l1)) 0) as [?|_]; [lia|].
        split_and!; [done| |simpl length; lia].
        rewrite not_elem_of_cons. split; [congruence|done].
Qed.

Lemma indexOf_not_elem l x : x ∉ l → indexOf l x = (-1).
Proof.
  intros Hnin. destruct (indexOf_spec l x) as [[? _]|(l1 & l2 & -> & _ & _)];
    [done|].
  exfalso. apply Hnin. apply elem_of_app. right. apply list_elem_of_here.
Qed.

Lemma indexOf_elem l x : x ∈ l → 0 ≤ indexOf l x.
Proof.
  intros Hin. destruct (indexOf_spec l x) as [[_ ?]|(l1 & l2 & _ & _ & ->)];
    [done|lia].
Qed.

Lemma removeItems_middle {A} (l1 l2 : list A) (a : A) :
  removeItems (l1 ++ a :: l2) (length l1) 1 = l1 ++ l2.
Proof.
  unfold removeItems. rewrite take_app_length.
  replace (length l1 + 1)%nat with (length l1 + 1 + 0)%nat by lia.
  rewrite <- Nat.add_assoc. rewrite drop_app_add'; [|done]. done.
Qed.

(** Dropping the first occurrence of [x] from a list without duplicates
    removes [x] and nothing else. *)
Lemma remove_first_spec l x :
  NoDup l → 0 ≤ indexOf l x →
  let l' := removeItems l (Z.to_nat (indexOf l x)) 1 in
  NoDup l' ∧ ∀ y, y ∈ l' ↔ y ∈ l ∧ y ≠ x.
Proof.
  intros Hnd Hidx.
  destruct (indexOf_spec l x) as [[? _]|(l1 & l2 & Hl & Hnin & Hi)]; [lia|].
  rewrite Hi, Nat2Z.id. subst l. simpl. rewrite removeItems_middle.
  apply NoDup_app in Hnd as (Hnd1 & Hdisj & Hnd2).
  apply NoDup_cons in Hnd2 as (Hnin2 & Hnd2).
  split.
  - apply NoDup_app. split_and!; [done| |done].
    intros y Hy Hy2. apply (Hdisj y Hy). by apply list_elem_of_further.
  - intros y. rewrite !elem_of_app, elem_of_cons. split.
    + intros [Hy|Hy]; (split; [tauto|]); intros ->; tauto.
    + intros [[Hy|[->|Hy]] Hne]; tauto.
Qed.

Lemma push_spec l x :
  NoDup l → x ∉ l →
  NoDup (l ++ [x]) ∧ ∀ y, y ∈ l ++ [x] ↔ y ∈ l ∨ y = x.
Proof.
  intros Hnd Hnin. split.
  - apply NoDup_app. split_and!; [done| |apply NoDup_singleton].
    intros y Hy Hy'. apply list_elem_of_singleton in Hy'. by subst.
  - intros y. by rewrite elem_of_app, list_elem_of_singleton.
Qed.

Lemma bfilter_elem (f : nat → bool) l x :
  x ∈ List.filter f l ↔ x ∈ l ∧ f x = true.
Proof. rewrite !list_elem_of_In. apply filter_In. Qed.

Lemma bfilter_NoDup (f : nat → bool) l : NoDup l → NoDup (List.filter f l).
Proof. rewrite !NoDup_ListNoDup. apply List.NoDup_filter. Qed.

End Arrays.

(** ** Strings: prefixes, suffixes and the tokens of a filter key *)

Section Strings.

#[local] Arguments Ascii.eqb : simpl never.
#[local] Arguments String.eqb : simpl never.
#[local] Arguments String.append !_ _ / : simpl nomatch.

Implicit Types (s p a b c t : string).

Lemma startsWith_spec s p : startsWith s p = true ↔ ∃ r, s = p +:+ r.
Proof.
  revert s. induction p as [|x p IH]; intros s; simpl.
  - split; [intros _; by exists s|done].
  - destruct s as [|y s]; simpl.
    + split; [done|intros (r & Hr); discriminate].
    + rewrite andb_true_iff, IH, Ascii.eqb_eq. split.
      * intros (-> & r & ->). by exists r.
      * intros (r & Hr). injection Hr as -> ->. split; [done|by exists r].
Qed.

Lemma endsWith_spec s p : endsWith s p = true ↔ ∃ a, s = a +:+ p.
Proof.
  induction s as [|y s IH]; cbn [endsWith].
  - rewrite orb_false_r, String.eqb_eq. split.
    + intros <-. by exists "".
    + intros (a & Ha). destruct a; [done|discriminate].
  - rewrite orb_true_iff, IH, String.eqb_eq. split.
    + intros [<-|(a & ->)]; [by exists ""|by exists (String y a)].
    + intros (a & Ha). destruct a as [|z a]; simpl in Ha.
      * by left.
      * injection Ha as -> ->. right. by exists a.
Qed.

Lemma includes_spec s p : includes s p = true ↔ ∃ a b, s = a +:+ p +:+ b.
Proof.
  induction s as [|y s IH]; cbn [includes].
  - rewrite orb_false_r, startsWith_spec. split.
    + intros (r & Hr). by exists "", r.
    + intros (a & b & Hab). destruct a; [by exists b|discriminate].
  - rewrite orb_true_iff, IH, startsWith_spec. split.
    + intros [(r & ->)|(a & b & ->)]; [by exists "", r|by exists (String y a), b].
    + intros (a & b & Hab). destruct a as [|z a]; simpl in Hab.
      * left. by exists b.
      * injection Hab as -> ->. right. by exists a, b.
Qed.

Lemma split_comma_not_nil s : ∃ t ts, split_comma s = t :: ts.
Proof.
  induction s as [|x s (t & ts & IH)]; simpl; [by eauto|].
  destruct (Ascii.eqb x ","); [by eauto|]. rewrite IH. by eauto.
Qed.

(** A comma cuts the token list in two. *)
Lemma split_comma_app a b :
  split_comma (a +:+ String "," b) = split_comma a ++ split_comma b.
Proof.
  induction a as [|x a IH]; simpl; [done|].
  destruct (Ascii.eqb x ","); rewrite IH; [done|].
  destruct (split_comma_not_nil a) as (t & ts & ->). done.
Qed.

(** A name without a comma is its own single token. *)
Lemma split_comma_plain c : includes c "," = false → split_comma c = [c].
Proof.
  induction c as [|x c IH]; simpl; [done|].
  rewrite orb_false_iff, andb_true_r. intros [Hx Hc].
  rewrite Ascii.eqb_sym, Hx. by rewrite IH.
Qed.

(** The head token is followed by the end of the key or by a comma. *)
Lemma split_comma_head s t ts :
  split_comma s = t :: ts →
  (ts = [] ∧ s = t) ∨ (∃ r, s = t +:+ String "," r ∧ ts = split_comma r).
Proof.
  revert t ts. induction s as [|x s IH]; simpl; intros t ts Hs.
  - injection Hs as <- <-. by left.
  - destruct (Ascii.eqb_spec x ",") as [->|Hx].
    + injection Hs as <- <-. right. by exists s.
    + destruct (split_comma_not_nil s) as (t' & ts' & Hs').
      rewrite Hs' in Hs. injection Hs as <- <-.
      destruct (IH _ _ Hs') as [[-> ->]|(r & -> & ->)]; [by left|].
      right. by exists r.
Qed.

Lemma string_app_assoc a b c : (a +:+ b) +:+ c = a +:+ (b +:+ c).
Proof. induction a as [|x a IH]; simpl; [done|by rewrite IH]. Qed.

(** Where a token sits in its key. *)
Lemma token_position c ts : ∀ s,
  split_comma s = ts → c ∈ ts →
  s = c ∨ (∃ r, s = c +:+ String "," r) ∨ (∃ a, s = a +:+ String "," c)
  ∨ (∃ a b, s = a +:+ String "," (c +:+ String "," b)).
Proof.
  induction ts as [|t ts IH]; intros s Hs Hin; [by apply elem_of_nil in Hin|].
  apply split_comma_head in Hs as [[-> ->]|(r & -> & Hts)].
  - apply list_elem_of_singleton in Hin as ->. by left.
  - apply elem_of_cons in Hin as [->|Hin].
    + right. left. by exists r.
    + destruct (IH r (eq_sym Hts) Hin) as [->|[(r' & ->)|[(a & ->)|(a & b & ->)]]].
      * right. right. left. by exists t.
      * right. right. right. by exists t, r'.
      * right. right. left. exists (t +:+ String "," a).
        by rewrite string_app_assoc.
      * right. right. right. exists (t +:+ String "," a), b.
        by rewrite string_app_assoc.
Qed.

(** [_hasComponent] holds of every token of the key. *)
Lemma hasComponent_of_token filterId c :
  c ∈ split_comma filterId → _hasComponent filterId c = true.
Proof.
  intros Hin. unfold _hasComponent.
  destruct (token_position c _ filterId eq_refl Hin)
    as [->|[(r & ->)|[(a & ->)|(a & b & ->)]]].
  - by rewrite String.eqb_refl.
  - assert (startsWith (c +:+ String "," r) (c +:+ ",") = true) as ->.
    { apply startsWith_spec. exists r. by rewrite string_app_assoc. }
    by rewrite orb_true_r.
  - assert (endsWith (a +:+ String "," c) ("," +:+ c) = true) as ->.
    { apply endsWith_spec. by exists a. }
    by rewrite orb_true_r.
  - assert (includes (a +:+ String "," (c +:+ String "," b))
              ("," +:+ c +:+ ",") = true) as ->.
    { apply includes_spec. exists a, b. simpl.
      by rewrite string_app_assoc. }
    by rewrite orb_true_r.
Qed.

(** Conversely, for a name without a comma, [_hasComponent] holds only of
    the tokens of the key. *)
Lemma token_of_hasComponent filterId c :
  includes c "," = false →
  _hasComponent filterId c = true → c ∈ split_comma filterId.
Proof.
  intros Hc. unfold _hasComponent. rewrite !orb_true_iff.
  intros [[[Heq|Hpre]|Hsuf]|Hinc].
  - apply String.eqb_eq in Heq as ->. rewrite split_comma_plain by done.
    apply list_elem_of_here.
  - apply startsWith_spec in Hpre as (r & ->).
    rewrite string_app_assoc. simpl. rewrite split_comma_app.
    rewrite split_comma_plain by done. apply list_elem_of_here.
  - apply endsWith_spec in Hsuf as (a & ->). simpl.
    rewrite split_comma_app, (split_comma_plain c) by done.
    apply elem_of_app. right. apply list_elem_of_here.
  - apply includes_spec in Hinc as (a & b & ->). simpl.
    rewrite string_app_assoc. simpl.
    rewrite !split_comma_app, (split_comma_plain c) by done.
    apply elem_of_app. right. apply list_elem_of_here.
Qed.

End Strings.

(** ** The matching predicate *)

Section Matching.

#[local] Arguments Ascii.eqb : simpl never.
#[local] Arguments String.eqb : simpl never.

Implicit Types (entity : Entity) (c t name : string) (ts : list string).

Lemma match_tokens_cons entity ign t ts :
  match_tokens entity ign (t :: ts) =
  negb (includesStr ign t) && token_holds entity t && match_tokens entity ign ts.
Proof.
  cbn [match_tokens]. unfold token_holds.
  destruct (includesStr ign t); [done|].
  destruct (startsWith t "!"); cbn [andb negb].
  - by destruct (truthy (read entity (slice1 t))).
  - by destruct (truthy (read entity t)).
Qed.

(** Without an ignore list, the loop is the conjunction over the tokens. *)
Lemma match_tokens_forallb entity ts :
  match_tokens entity [] ts = forallb (token_holds entity) ts.
Proof.
  induction ts as [|t ts IH]; [done|].
  rewrite match_tokens_cons, IH. done.
Qed.

Lemma match_tokens_true entity ts :
  match_tokens entity [] ts = true ↔ ∀ t, t ∈ ts → token_holds entity t = true.
Proof.
  rewrite match_tokens_forallb, forallb_forall.
  split; intros H t Ht; apply H; by apply list_elem_of_In.
Qed.

(** With the ignore list [[name]], the loop also fails on the token
    [name]. *)
Lemma match_tokens_ignore entity name ts :
  match_tokens entity [name] ts =
  match_tokens entity [] ts && negb (includesStr ts name).
Proof.
  induction ts as [|t ts IH]; [done|].
  rewrite !match_tokens_cons, IH. cbn [includesStr existsb orb negb].
  rewrite orb_false_r. unfold includesStr.
  rewrite (String.eqb_sym name t).
  destruct (String.eqb t name), (token_holds entity t),
    (match_tokens entity [] ts); done.
Qed.

Lemma includesStr_true ts name : includesStr ts name = true ↔ name ∈ ts.
Proof.
  unfold includesStr. rewrite existsb_exists. split.
  - intros (y & Hin & Heq). apply String.eqb_eq in Heq. subst y.
    by apply list_elem_of_In.
  - intros Hin. exists name. split; [by apply list_elem_of_In|].
    apply String.eqb_refl.
Qed.

Lemma prop_delete_eq entity name : prop (delete name entity) name = VUndefined.
Proof. unfold prop. by rewrite lookup_delete_eq. Qed.

Lemma prop_delete_ne entity name t :
  name ≠ t → prop (delete name entity) t = prop entity t.
Proof. intros Hne. unfold prop. by rewrite lookup_delete_ne. Qed.

Lemma prop_insert_eq entity name v : prop (<[name := v]> entity) name = v.
Proof. unfold prop. by rewrite lookup_insert_eq. Qed.

Lemma prop_insert_ne entity name t v :
  name ≠ t → prop (<[name := v]> entity) t = prop entity t.
Proof. intros Hne. unfold prop. by rewrite lookup_insert_ne. Qed.

Lemma read_own entity name v : entity !! name = Some v → read entity name = v.
Proof. intros H. unfold read. by rewrite H. Qed.

Lemma read_prop entity name :
  inherited name = false → read entity name = prop entity name.
Proof. intros H. unfold read, prop. rewrite H. by destruct (entity !! name). Qed.

Lemma read_truthy_prop entity name :
  truthy (prop entity name) = true → read entity name = prop entity name.
Proof. unfold read, prop. by destruct (entity !! name). Qed.

Lemma read_falsy entity name :
  truthy (read entity name) = false →
  inherited name = false ∨ is_Some (entity !! name).
Proof.
  unfold read. destruct (entity !! name); [by right; eexists|].
  destruct (inherited name); [done|by left].
Qed.

Lemma read_falsy_prop entity name :
  truthy (read entity name) = false → truthy (prop entity name) = false.
Proof.
  unfold read, prop. destruct (entity !! name); [done|]. by intros _.
Qed.

Lemma read_delete_eq entity name :
  read (delete name entity) name
  = if inherited name then VMember name else VUndefined.
Proof. unfold read. by rewrite lookup_delete_eq. Qed.

Lemma read_delete_ne entity name t :
  name ≠ t → read (delete name entity) t = read entity t.
Proof. intros Hne. unfold read. by rewrite lookup_delete_ne. Qed.

Lemma read_insert_eq entity name v : read (<[name := v]> entity) name = v.
Proof. unfold read. by rewrite lookup_insert_eq. Qed.

Lemma read_insert_ne entity name t v :
  name ≠ t → read (<[name := v]> entity) t = read entity t.
Proof. intros Hne. unfold read. by rewrite lookup_insert_ne. Qed.

(** Once [name] is deleted, a filter naming it as a token matches no
    longer, as long as the name does not read as a negation and is no
    member of [Object.prototype]. *)
Lemma match_tokens_delete_token entity name ts :
  name ∈ ts → startsWith name "!" = false → inherited name = false →
  match_tokens (delete name entity) [] ts = false.
Proof.
  intros Hin Hbang Hinh. rewrite match_tokens_forallb.
  apply not_true_is_false. rewrite forallb_forall. intros Hall.
  specialize (Hall name (proj1 (list_elem_of_In _ _) Hin)).
  unfold token_holds in Hall. rewrite Hbang, read_delete_eq, Hinh in Hall.
  discriminate.
Qed.

(** Deleting a component that is no token of the filter keeps a match. *)
Lemma match_tokens_delete_other entity name ts :
  name ∉ ts → (inherited name = true → entity !! name = None) →
  match_tokens entity [] ts = true →
  match_tokens (delete name entity) [] ts = true.
Proof.
  intros Hnin Hplain. destruct (inherited name) eqn:Hinh.
  { by rewrite delete_id by by apply Hplain. }
  rewrite !match_tokens_true. intros Hall t Ht.
  specialize (Hall t Ht). unfold token_holds in *.
  destruct (startsWith t "!").
  - destruct (decide (name = slice1 t)) as [->|Hne].
    + by rewrite read_delete_eq, Hinh.
    + by rewrite read_delete_ne.
  - rewrite read_delete_ne; [done|]. intros ->. by apply Hnin.
Qed.

(** A plain token of a matching filter names a component with truthy
    data. *)
Lemma matchesFilter_token_truthy filterId entity t :
  t ∈ split_comma filterId → startsWith t "!" = false →
  _matchesFilter filterId entity [] = true → truthy (read entity t) = true.
Proof.
  intros Hin Hbang Hm. unfold _matchesFilter in Hm.
  rewrite match_tokens_true in Hm. specialize (Hm t Hin).
  unfold token_holds in Hm. by rewrite Hbang in Hm.
Qed.

End Matching.

(** ** Memoized filter lists *)

Section Filters.

Implicit Types (w : World) (e y : nat) (K name : string) (l : list nat).

(** The first loop of [addComponentToEntity] settles the membership of the
    entity and of no other. *)
Lemma add_update_filter_spec (entity : Entity) e K l :
  NoDup l →
  let l' := add_update_filter entity e K l in
  NoDup l' ∧
  ∀ y, y ∈ l' ↔ (y = e ∧ _matchesFilter K entity [] = true) ∨ (y ≠ e ∧ y ∈ l).
Proof.
  intros Hnd. unfold add_update_filter.
  destruct (indexOf_spec l e) as [[Hi Hnin]|(l1 & l2 & Hl & Hnin & Hi)].
  - rewrite Hi. cbn [Z.leb Z.compare].
    destruct (_matchesFilter K entity []) eqn:Hm; cbn.
    + destruct (push_spec l e Hnd Hnin) as [Hnd' Hmem]. split; [done|].
      intros y. rewrite Hmem.
      destruct (decide (y = e)) as [->|]; intuition congruence.
    + split; [done|]. intros y.
      destruct (decide (y = e)) as [->|]; intuition congruence.
  - assert (0 ≤ indexOf l e) as Hge by lia.
    assert (e ∈ l) as Hin.
    { rewrite Hl. apply elem_of_app. right. apply list_elem_of_here. }
    destruct (Z.leb_spec 0 (indexOf l e)) as [_|?]; [|lia].
    destruct (_matchesFilter K entity []) eqn:Hm; cbn.
    + split; [done|]. intros y.
      destruct (decide (y = e)) as [->|]; intuition congruence.
    + destruct (remove_first_spec l e Hnd Hge) as [Hnd' Hmem]. split; [done|].
      intros y. rewrite Hmem. intuition congruence.
Qed.

(** The loop of [_removeComponent]: other entities keep their membership;
    the entity enters when it matches and is missing, and stays only where
    the filter does not mention the removed component. *)
Lemma remove_update_filter_spec (entity : Entity) e name K l :
  NoDup l →
  let l' := remove_update_filter entity e name K l in
  NoDup l' ∧
  ∀ y, y ∈ l' ↔
    (y ≠ e ∧ y ∈ l) ∨
    (y = e ∧ ((_matchesFilter K entity [] = true ∧ e ∉ l)
              ∨ (e ∈ l ∧ _hasComponent K name = false))).
Proof.
  intros Hnd. unfold remove_update_filter.
  destruct (arr_includes l e) eqn:Hinc.
  - apply arr_includes_true in Hinc. rewrite andb_false_r.
    destruct (_hasComponent K name) eqn:Hh.
    + pose proof (indexOf_elem l e Hinc) as Hge.
      destruct (Z.leb_spec 0 (indexOf l e)) as [_|?]; [|lia].
      destruct (remove_first_spec l e Hnd Hge) as [Hnd' Hmem]. split; [done|].
      intros y. rewrite Hmem. intuition congruence.
    + split; [done|]. intros y.
      destruct (decide (y = e)) as [->|]; intuition congruence.
  - apply arr_includes_false in Hinc. rewrite andb_true_r.
    destruct (_matchesFilter K entity []) eqn:Hm.
    + destruct (push_spec l e Hnd Hinc) as [Hnd' Hmem]. split; [done|].
      intros y. rewrite Hmem.
      destruct (decide (y = e)) as [->|]; intuition congruence.
    + rewrite (indexOf_not_elem l e Hinc). cbn [Z.leb Z.compare].
      assert (NoDup l ∧ ∀ y, y ∈ l ↔ y ≠ e ∧ y ∈ l
                ∨ y = e ∧ (false = true ∧ e ∉ l
                           ∨ e ∈ l ∧ _hasComponent K name = false)) as Hgoal.
      { split; [done|]. intros y.
        destruct (decide (y = e)) as [->|]; intuition congruence. }
      by destruct (_hasComponent K name).
Qed.

Lemma filter_correct_ext K w w' :
  filters w' = filters w → entities w' = entities w → heap w' = heap w →
  filter_correct K w → filter_correct K w'.
Proof.
  intros Hf He Hh Hc l Hl. unfold obj. rewrite Hf in Hl. rewrite He, Hh.
  by apply Hc.
Qed.

Lemma addComponent_filter_correct K w e name data :
  e ∈ entities w → filter_correct K w →
  filter_correct K (addComponentToEntity w e name data).
Proof.
  intros Hin Hc. unfold addComponentToEntity.
  destruct (truthy (read (obj w e) name)) eqn:Ht; [done|].
  cbn [negb]. set (entity' := <[name := default_data data]> (obj w e)).
  intros l'. cbn [filters entities]. rewrite map_lookup_imap.
  destruct (filters w !! K) as [l|] eqn:Hl; [|done]. cbn.
  intros [= <-]. destruct (Hc l Hl) as [Hnd Hmem].
  destruct (add_update_filter_spec entity' e K l Hnd) as [Hnd' Hmem'].
  split; [done|]. intros y. rewrite Hmem'. unfold obj at 1. cbn [heap].
  destruct (decide (y = e)) as [->|Hne].
  - rewrite lookup_insert_eq. cbn. intuition congruence.
  - rewrite lookup_insert_ne by done. rewrite Hmem. unfold obj. intuition congruence.
Qed.

Lemma removeComponent_filter_correct K w e name :
  e ∈ entities w → name_ok name = true → filter_correct K w →
  filter_correct K (_removeComponent w e name).
Proof.
  intros Hin Hok Hc. unfold _removeComponent.
  apply andb_true_iff in Hok as [Hok Hinh].
  apply andb_true_iff in Hok as [Hbang Hcomma].
  apply negb_true_iff in Hbang. apply negb_true_iff in Hcomma.
  apply negb_true_iff in Hinh.
  set (entity' := delete name (obj w e)).
  intros l'. cbn [filters entities]. rewrite map_lookup_imap.
  destruct (filters w !! K) as [l|] eqn:Hl; [|done]. cbn.
  intros [= <-]. destruct (Hc l Hl) as [Hnd Hmem].
  destruct (remove_update_filter_spec entity' e name K l Hnd) as [Hnd' Hmem'].
  split; [done|]. intros y. rewrite Hmem'. unfold obj at 1. cbn [heap].
  destruct (decide (y = e)) as [->|Hne].
  - rewrite lookup_insert_eq. cbn. split.
    + intros [[? _]|[_ [[Hm _]|[Hel Hh]]]]; [done|done|].
      split; [done|]. apply Hmem in Hel as [_ Hold].
      apply match_tokens_delete_other; [|congruence|done].
      intros Htok. apply hasComponent_of_token in Htok. congruence.
    + intros [_ Hm]. right. split; [done|].
      destruct (decide (e ∈ l)) as [Hel|Hnel]; [right|by left].
      split; [done|]. apply not_true_is_false. intros Hh.
      apply token_of_hasComponent in Hh; [|done].
      unfold _matchesFilter, entity' in Hm.
      by rewrite (match_tokens_delete_token _ _ _ Hh Hbang Hinh) in Hm.
  - rewrite lookup_insert_ne by done. rewrite Hmem. unfold obj. intuition congruence.
Qed.


Lemma removeEntity_inner_spec w e w' :
  _removeEntity w e = Some w' →
  0 ≤ indexOf (entities w) e
  ∧ entities w' = removeItems (entities w) (Z.to_nat (indexOf (entities w) e)) 1
  ∧ filters w' =
      ((λ filter,
          let idx := indexOf filter e in
          if Z.leb 0 idx then removeItems filter (Z.to_nat idx) 1 else filter)
         <$> filters w)
  ∧ heap w' = heap w ∧ next_ref w' = next_ref w
  ∧ removals_entities w' = removals_entities w
  ∧ removals_components w' = removals_components w.
Proof.
  unfold _removeEntity.
  destruct (Z.ltb_spec (indexOf (entities w) e) 0) as [|Hge]; [done|].
  intros [= <-]. by cbn.
Qed.

Lemma removeEntity_inner_total w e :
  e ∈ entities w → is_Some (_removeEntity w e).
Proof.
  intros Hin. apply indexOf_elem in Hin. unfold _removeEntity.
  destruct (Z.ltb_spec (indexOf (entities w) e) 0) as [|_]; [lia|]. by eexists.
Qed.

Lemma removeEntity_inner_correct K w e w' :
  NoDup (entities w) → _removeEntity w e = Some w' →
  filter_correct K w → filter_correct K w'.
Proof.
  intros Hnd Hrm Hc.
  destruct (removeEntity_inner_spec _ _ _ Hrm)
    as (Hge & Hents & Hfs & Hheap & _).
  destruct (remove_first_spec _ e Hnd Hge) as [_ Hmem_ents].
  intros l'. rewrite Hfs, lookup_fmap.
  destruct (filters w !! K) as [l|] eqn:Hl; [|done]. cbn.
  intros [= <-]. destruct (Hc l Hl) as [Hndl Hmem].
  unfold obj. rewrite Hents, Hheap.
  destruct (indexOf_spec l e) as [[Hi Hnin]|(l1 & l2 & Hl12 & Hnin & Hi)].
  - rewrite Hi. cbn [Z.leb Z.compare]. split; [done|].
    intros y. rewrite Hmem_ents, Hmem. unfold obj.
    split; [|tauto]. intros [Hy Hm]. split_and!; [done| |done].
    intros ->. apply Hnin. apply Hmem. done.
  - assert (0 ≤ indexOf l e) as Hgel by lia.
    destruct (Z.leb_spec 0 (indexOf l e)) as [_|?]; [|lia].
    destruct (remove_first_spec l e Hndl Hgel) as [Hnd' Hmem'].
    split; [done|]. intros y. rewrite Hmem', Hmem_ents, Hmem. unfold obj.
    tauto.
Qed.

Lemma removeEntity_inner_ok w e w' :
  world_ok w → _removeEntity w e = Some w' → world_ok w'.
Proof.
  intros [Hnd Hlt] Hrm.
  destruct (removeEntity_inner_spec _ _ _ Hrm)
    as (Hge & Hents & _ & _ & Hnext & _).
  destruct (remove_first_spec _ e Hnd Hge) as [Hnd' Hmem].
  unfold world_ok. rewrite Hents, Hnext. split; [done|].
  intros y Hy. apply Hlt. by apply Hmem in Hy as [? _].
Qed.

(** The public removals, with the listener bookkeeping in front. *)
Lemma removeComponentFromEntity_now K w e name :
  e ∈ entities w → name_ok name = true → filter_correct K w →
  filter_correct K (removeComponentFromEntity w e name false).
Proof.
  intros Hin Hok Hc. unfold removeComponentFromEntity.
  destruct (truthy (read (obj w e) name)); [|done]. cbn [negb].
  apply removeComponent_filter_correct; [done|done|].
  by apply (filter_correct_ext K w).
Qed.

Lemma removeEntity_now_spec w e w' :
  removeEntity w e false = Some w' →
  w' = w ∨
  _removeEntity
    (set_listeners_removed
       (map_imap (λ filterId lst,
          Some (remove_entity_listener (obj w e) e filterId lst))
          (listeners_removed w)) w) e = Some w'.
Proof.
  unfold removeEntity.
  destruct (Z.ltb (indexOf (entities w) e) 0); [intros [= <-]; by left|].
  intros H. by right.
Qed.

Lemma removeEntity_now K w e w' :
  world_ok w → removeEntity w e false = Some w' → filter_correct K w →
  world_ok w' ∧ filter_correct K w'.
Proof.
  intros Hok Hrm Hc. apply removeEntity_now_spec in Hrm as [->|Hrm]; [done|].
  split.
  - eapply removeEntity_inner_ok; [|exact Hrm]. exact Hok.
  - eapply removeEntity_inner_correct; [|exact Hrm|]; [exact (proj1 Hok)|].
    by apply (filter_correct_ext K w).
Qed.

Lemma removeEntity_total w e deferred :
  is_Some (removeEntity w e deferred).
Proof.
  unfold removeEntity.
  destruct (Z.ltb_spec (indexOf (entities w) e) 0) as [|Hge]; [by eexists|].
  destruct deferred.
  - destruct (negb _); by eexists.
  - apply removeEntity_inner_total. cbn [entities set_listeners_removed].
    destruct (indexOf_spec (entities w) e) as [[? _]|(l1 & l2 & -> & _)]; [lia|].
    apply elem_of_app. right. apply list_elem_of_here.
Qed.

(** A new entity: it is empty, so a filter it does not match stays exact. *)
Lemma createEntity_ok w : world_ok w → world_ok (createEntity w).2.
Proof.
  intros [Hnd Hlt]. unfold world_ok. cbn. split.
  - apply NoDup_app. split_and!; [done| |apply NoDup_singleton].
    intros y Hy Hy'. apply list_elem_of_singleton in Hy' as ->.
    apply Hlt in Hy. lia.
  - intros y Hy. apply elem_of_app in Hy as [Hy|Hy].
    + apply Hlt in Hy. lia.
    + apply list_elem_of_singleton in Hy as ->. lia.
Qed.

Lemma createEntity_filter_correct K w :
  world_ok w →
  filters w !! K = None ∨ _matchesFilter K ∅ [] = false →
  filter_correct K w → filter_correct K (createEntity w).2.
Proof.
  intros [Hnd Hlt] Hside Hc l. cbn [createEntity snd filters]. intros Hl.
  destruct Hside as [Hnone|Hempty]; [congruence|].
  destruct (Hc l Hl) as [Hndl Hmem]. split; [done|].
  intros y. rewrite Hmem. cbn [entities]. rewrite elem_of_app.
  rewrite list_elem_of_singleton. unfold obj. cbn [heap].
  destruct (decide (y = next_ref w)) as [->|Hne].
  - rewrite lookup_insert_eq. cbn. split.
    + intros [Hy _]. apply Hlt in Hy. lia.
    + intros [_ Hm]. congruence.
  - rewrite lookup_insert_ne by done. tauto.
Qed.

(** The flush at the end of a frame. *)
Lemma at_key_from_elem {A} (arr : list A) i key x :
  at_key_from i arr key = Some x → x ∈ arr.
Proof.
  revert i. induction arr as [|a arr IH]; intros i; cbn [at_key_from]; [done|].
  destruct (String.eqb (pretty i) key).
  - intros [= ->]. apply list_elem_of_here.
  - intros H. apply list_elem_of_further. by apply (IH (S i)).
Qed.

Lemma run_queue_invariant {A} (P : World → Prop) (Q : A → Prop)
    (step : World → A → option World) queue :
  (∀ w x w', P w → Q x → step w x = Some w' → P w') →
  Forall Q queue → ∀ w w', P w → run_queue step queue w = Some w' → P w'.
Proof.
  intros Hstep Hall. induction Hall as [|x queue Hx _ IH]; intros w w' HP.
  - cbn. by intros [= <-].
  - cbn. destruct (step w x) as [w1|] eqn:Hs; [|done].
    apply IH. by apply (Hstep w x).
Qed.

(** The same steps for [filter_settled], which asks nothing about entities
    without components. *)
Lemma filter_settled_ext K w w' :
  filters w' = filters w → entities w' = entities w → heap w' = heap w →
  filter_settled K w → filter_settled K w'.
Proof.
  intros Hf He Hh Hc l Hl. unfold obj. rewrite Hf in Hl. rewrite He, Hh.
  by apply Hc.
Qed.

Lemma filter_correct_settled K w : filter_correct K w → filter_settled K w.
Proof.
  intros Hc l Hl. destruct (Hc l Hl) as [Hnd Hmem]. split; [done|].
  split; intros e; [by rewrite Hmem|]. intros Hin Hm _. by apply Hmem.
Qed.

Lemma addComponent_settled K w e name data :
  e ∈ entities w → filter_settled K w →
  filter_settled K (addComponentToEntity w e name data).
Proof.
  intros Hin Hc. unfold addComponentToEntity.
  destruct (truthy (read (obj w e) name)) eqn:Ht; [done|].
  cbn [negb]. set (entity' := <[name := default_data data]> (obj w e)).
  intros l'. cbn [filters entities]. rewrite map_lookup_imap.
  destruct (filters w !! K) as [l|] eqn:Hl; [|done]. cbn.
  intros [= <-]. destruct (Hc l Hl) as (Hnd & Hsound & Hfull).
  destruct (add_update_filter_spec entity' e K l Hnd) as [Hnd' Hmem'].
  split; [done|]. split; intros y; rewrite Hmem'; unfold obj; cbn [heap].
  - intros [[-> Hm]|[Hne Hy]].
    + by rewrite lookup_insert_eq.
    + rewrite lookup_insert_ne by done. by apply Hsound.
  - destruct (decide (y = e)) as [->|Hne].
    + rewrite lookup_insert_eq. cbn. intros _ Hm _. by left.
    + rewrite lookup_insert_ne by done. intros Hy Hm Hne0. right.
      split; [done|]. by apply Hfull.
Qed.

Lemma removeComponent_settled K w e name :
  e ∈ entities w → name_ok name = true → filter_settled K w →
  filter_settled K (_removeComponent w e name).
Proof.
  intros Hin Hok Hc. unfold _removeComponent.
  apply andb_true_iff in Hok as [Hok Hinh].
  apply andb_true_iff in Hok as [Hbang Hcomma].
  apply negb_true_iff in Hbang. apply negb_true_iff in Hcomma.
  apply negb_true_iff in Hinh.
  set (entity' := delete name (obj w e)).
  intros l'. cbn [filters entities]. rewrite map_lookup_imap.
  destruct (filters w !! K) as [l|] eqn:Hl; [|done]. cbn.
  intros [= <-]. destruct (Hc l Hl) as (Hnd & Hsound & Hfull).
  destruct (remove_update_filter_spec entity' e name K l Hnd) as [Hnd' Hmem'].
  split; [done|]. split; intros y; rewrite Hmem'; unfold obj; cbn [heap].
  - intros [[Hne Hy]|[-> [[Hm _]|[Hel Hh]]]].
    + rewrite lookup_insert_ne by done. by apply Hsound.
    + by rewrite lookup_insert_eq.
    + rewrite lookup_insert_eq. cbn. split; [done|].
      apply Hsound in Hel as [_ Hold].
      apply match_tokens_delete_other; [|congruence|done].
      intros Htok. apply hasComponent_of_token in Htok. congruence.
  - destruct (decide (y = e)) as [->|Hne].
    + rewrite lookup_insert_eq. cbn. intros _ Hm _. right. split; [done|].
      destruct (decide (e ∈ l)) as [Hel|Hnel]; [right|by left].
      split; [done|]. apply not_true_is_false. intros Hh.
      apply token_of_hasComponent in Hh; [|done].
      unfold _matchesFilter, entity' in Hm.
      by rewrite (match_tokens_delete_token _ _ _ Hh Hbang Hinh) in Hm.
    + rewrite lookup_insert_ne by done. intros Hy Hm Hne0. left.
      split; [done|]. by apply Hfull.
Qed.

Lemma removeEntity_inner_settled K w e w' :
  NoDup (entities w) → _removeEntity w e = Some w' →
  filter_settled K w → filter_settled K w'.
Proof.
  intros Hnd Hrm Hc.
  destruct (removeEntity_inner_spec _ _ _ Hrm)
    as (Hge & Hents & Hfs & Hheap & _).
  destruct (remove_first_spec _ e Hnd Hge) as [_ Hmem_ents].
  intros l'. rewrite Hfs, lookup_fmap.
  destruct (filters w !! K) as [l|] eqn:Hl; [|done]. cbn.
  intros [= <-]. destruct (Hc l Hl) as (Hndl & Hsound & Hfull).
  unfold obj. rewrite Hents, Hheap.
  destruct (indexOf_spec l e) as [[Hi Hnin]|(l1 & l2 & Hl12 & Hnin & Hi)].
  - rewrite Hi. cbn [Z.leb Z.compare]. split; [done|].
    split; intros y; rewrite Hmem_ents.
    + intros Hy. destruct (Hsound y Hy) as [Hyin Hm].
      split_and!; [done| |done]. intros ->. by apply Hnin.
    + intros [Hy _] Hm Hne0. by apply Hfull.
  - assert (0 ≤ indexOf l e) as Hgel by lia.
    destruct (Z.leb_spec 0 (indexOf l e)) as [_|?]; [|lia].
    destruct (remove_first_spec l e Hndl Hgel) as [Hnd' Hmem'].
    split; [done|]. split; intros y; rewrite Hmem', Hmem_ents.
    + intros [Hy Hne]. by destruct (Hsound y Hy).
    + intros [Hy Hne] Hm Hne0. split; [|done]. by apply Hfull.
Qed.

(** A new entity has no component, so nothing is asked about it. *)
Lemma createEntity_settled K w :
  world_ok w → filter_settled K w → filter_settled K (createEntity w).2.
Proof.
  intros [Hnd Hlt] Hc l. cbn [createEntity snd filters]. intros Hl.
  destruct (Hc l Hl) as (Hndl & Hsound & Hfull). split; [done|].
  split; intros y; unfold obj; cbn [entities heap].
  - intros Hy. destruct (Hsound y Hy) as [Hyin Hm].
    split; [apply elem_of_app; by left|].
    rewrite lookup_insert_ne; [done|]. apply Hlt in Hyin. lia.
  - intros Hy. apply elem_of_app in Hy as [Hy|Hy].
    + rewrite lookup_insert_ne; [by apply Hfull|]. apply Hlt in Hy. lia.
    + apply list_elem_of_singleton in Hy as ->.
      rewrite lookup_insert_eq. by intros _ Hne.
Qed.

Lemma removeComponent_ok w e name : world_ok w → world_ok (_removeComponent w e name).
Proof. done. Qed.

Lemma cleanup_correct K w w' :
  Forall (λ key, name_ok (queued_component key) = true) (removals_components w) →
  cleanup w = Some w' →
  world_ok w → filter_correct K w → world_ok w' ∧ filter_correct K w'.
Proof.
  intros Hnames Hclean Hok Hc. unfold cleanup in Hclean.
  set (P := λ w, world_ok w ∧ filter_correct K w).
  assert (∀ w key w', P w → name_ok (queued_component key) = true →
            cleanup_component w key = Some w' → P w') as Hstep1.
  { clear. intros w key w' [Hok Hc] Hname. unfold cleanup_component.
    destruct (at_key _ _) as [entity|] eqn:Hat; [|done]. intros [= <-].
    split; [done|]. apply removeComponent_filter_correct; [|done|done].
    by apply at_key_from_elem in Hat. }
  assert (∀ w (idx : Z) w', P w → True → cleanup_entity w idx = Some w' → P w')
    as Hstep2.
  { clear. intros w idx w' [Hok Hc] _. unfold cleanup_entity.
    destruct (at_index _ _) as [entity|]; [|done]. intros Hrm. split.
    - by apply (removeEntity_inner_ok _ _ _ Hok Hrm).
    - by apply (removeEntity_inner_correct K _ _ _ (proj1 Hok) Hrm). }
  assert (P (emptyListeners w)) as H0.
  { split; [done|]. by apply (filter_correct_ext K w). }
  destruct (run_queue cleanup_component _ _) as [w1|] eqn:Hq1; [|done].
  pose proof (run_queue_invariant P _ _ _ Hstep1 Hnames _ _ H0 Hq1) as [Hok1 Hc1].
  destruct (run_queue cleanup_entity _ _) as [w3|] eqn:Hq2; [|done].
  injection Hclean as <-.
  assert (P (set_removals_components [] w1)) as H2.
  { split; [done|]. by apply (filter_correct_ext K w1). }
  pose proof (run_queue_invariant P _ _ _ Hstep2 (Forall_true _ _ (λ _, I))
                _ _ H2 Hq2) as [Hok3 Hc3].
  split; [done|]. by apply (filter_correct_ext K w3).
Qed.

(** Queries: the first one scans the entities, later ones reuse the list;
    a key that names a member of [Object.prototype] gets no list. *)
Lemma getEntities_filters w names lt :
  filters (getEntities w names lt).2 =
  match filters w !! join_comma names with
  | Some _ => filters w
  | None =>
      if inherited (join_comma names) then filters w
      else
        <[join_comma names :=
            List.filter (λ e, _matchesFilter (join_comma names) (obj w e) [])
              (entities w)]> (filters w)
  end.
Proof. by destruct lt as [[]|]. Qed.

Lemma getEntities_entities w names lt :
  entities (getEntities w names lt).2 = entities w.
Proof. by destruct lt as [[]|]. Qed.

Lemma getEntities_heap w names lt : heap (getEntities w names lt).2 = heap w.
Proof. by destruct lt as [[]|]. Qed.

Lemma getEntities_next_ref w names lt :
  next_ref (getEntities w names lt).2 = next_ref w.
Proof. by destruct lt as [[]|]. Qed.

Lemma getEntities_memo w names :
  (getEntities w names None).1
  = lists_read (filters (getEntities w names None).2) (join_comma names).
Proof. done. Qed.

(** A query without listener type of a key that is no member of
    [Object.prototype] returns the memoized list. *)
Lemma getEntities_memo_list w names :
  inherited (join_comma names) = false →
  ∃ l, (getEntities w names None).1 = Entities l
       ∧ filters (getEntities w names None).2 !! join_comma names = Some l.
Proof.
  intros Hinh. rewrite getEntities_memo. unfold lists_read.
  rewrite getEntities_filters, Hinh.
  destruct (filters w !! join_comma names) as [l|] eqn:Hl.
  - rewrite Hl. by exists l.
  - rewrite lookup_insert_eq. by eexists.
Qed.

(** The first "added" query of a filter seeds its listener list with the
    entities that match. *)
Lemma getEntities_added w names :
  listeners_added w !! join_comma names = None →
  inherited (join_comma names) = false →
  (getEntities w names (Some added)).1
  = List.filter (λ e, _matchesFilter (join_comma names) (obj w e) [])
      (entities w)
  ∧ listeners_added (getEntities w names (Some added)).2 !! join_comma names
    = Some (List.filter (λ e, _matchesFilter (join_comma names) (obj w e) [])
              (entities w)).
Proof.
  intros Hnone Hinh. unfold getEntities, seed, lists_read.
  generalize (join_comma names) Hnone Hinh.
  clear Hnone Hinh. intros K Hnone Hinh.
  cbn [listeners_added set_stats set_filters entities fst snd
       set_listeners_added].
  rewrite Hnone, Hinh. by rewrite !lookup_insert_eq.
Qed.

Lemma getEntities_ok w names lt : world_ok w → world_ok (getEntities w names lt).2.
Proof.
  unfold world_ok. by rewrite getEntities_entities, getEntities_next_ref.
Qed.

Lemma getEntities_filter_correct K w names lt :
  world_ok w → filter_correct K w →
  filter_correct K (getEntities w names lt).2.
Proof.
  intros [Hnd _] Hc l. unfold obj.
  rewrite getEntities_filters, getEntities_entities, getEntities_heap.
  destruct (filters w !! join_comma names) as [l0|] eqn:Hl0; [by apply Hc|].
  destruct (inherited (join_comma names)); [by apply Hc|].
  destruct (decide (join_comma names = K)) as [<-|Hne].
  - rewrite lookup_insert_eq. intros [= <-]. split.
    + by apply bfilter_NoDup.
    + intros y. by rewrite bfilter_elem.
  - rewrite lookup_insert_ne by done. by apply Hc.
Qed.

Lemma getEntities_settled K w names lt :
  world_ok w → filter_settled K w →
  filter_settled K (getEntities w names lt).2.
Proof.
  intros [Hnd _] Hc l. unfold obj.
  rewrite getEntities_filters, getEntities_entities, getEntities_heap.
  destruct (filters w !! join_comma names) as [l0|] eqn:Hl0; [by apply Hc|].
  destruct (inherited (join_comma names)); [by apply Hc|].
  destruct (decide (join_comma names = K)) as [<-|Hne].
  - rewrite lookup_insert_eq. intros [= <-]. split; [by apply bfilter_NoDup|].
    split; intros y; rewrite bfilter_elem; [done|]. by intros.
  - rewrite lookup_insert_ne by done. by apply Hc.
Qed.

Lemma cleanup_settled K w w' :
  Forall (λ key, name_ok (queued_component key) = true) (removals_components w) →
  cleanup w = Some w' →
  world_ok w → filter_settled K w → world_ok w' ∧ filter_settled K w'.
Proof.
  intros Hnames Hclean Hok Hc. unfold cleanup in Hclean.
  set (P := λ w, world_ok w ∧ filter_settled K w).
  assert (∀ w key w', P w → name_ok (queued_component key) = true →
            cleanup_component w key = Some w' → P w') as Hstep1.
  { clear. intros w key w' [Hok Hc] Hname. unfold cleanup_component.
    destruct (at_key _ _) as [entity|] eqn:Hat; [|done]. intros [= <-].
    split; [done|]. apply removeComponent_settled; [|done|done].
    by apply at_key_from_elem in Hat. }
  assert (∀ w (idx : Z) w', P w → True → cleanup_entity w idx = Some w' → P w')
    as Hstep2.
  { clear. intros w idx w' [Hok Hc] _. unfold cleanup_entity.
    destruct (at_index _ _) as [entity|]; [|done]. intros Hrm. split.
    - by apply (removeEntity_inner_ok _ _ _ Hok Hrm).
    - by apply (removeEntity_inner_settled K _ _ _ (proj1 Hok) Hrm). }
  assert (P (emptyListeners w)) as H0.
  { split; [done|]. by apply (filter_settled_ext K w). }
  destruct (run_queue cleanup_component _ _) as [w1|] eqn:Hq1; [|done].
  pose proof (run_queue_invariant P _ _ _ Hstep1 Hnames _ _ H0 Hq1) as [Hok1 Hc1].
  destruct (run_queue cleanup_entity _ _) as [w3|] eqn:Hq2; [|done].
  injection Hclean as <-.
  assert (P (set_removals_components [] w1)) as H2.
  { split; [done|]. by apply (filter_settled_ext K w1). }
  pose proof (run_queue_invariant P _ _ _ Hstep2 (Forall_true _ _ (λ _, I))
                _ _ H2 Hq2) as [Hok3 Hc3].
  split; [done|]. by apply (filter_settled_ext K w3).
Qed.

Lemma mutation_settled K w w' :
  mutation w w' → world_ok w → filter_settled K w →
  world_ok w' ∧ filter_settled K w'.
Proof.
  intros Hmut Hok Hc.
  destruct Hmut as [w|w e name data Hin|w e name Hin Hname|w e w' Hrm
                   |w w' Hnames Hclean].
  - split; [by apply createEntity_ok|by apply createEntity_settled].
  - split; [|by apply addComponent_settled].
    unfold addComponentToEntity. by destruct (truthy _).
  - unfold removeComponentFromEntity.
    destruct (truthy (read (obj w e) name)); [|done]. cbn [negb].
    split; [done|]. apply removeComponent_settled; [done|done|].
    by apply (filter_settled_ext K w).
  - destruct (removeEntity_now_spec _ _ _ Hrm) as [->|Hin]; [done|]. split.
    + eapply removeEntity_inner_ok; [|exact Hin]. exact Hok.
    + eapply removeEntity_inner_settled; [|exact Hin|]; [exact (proj1 Hok)|].
      by apply (filter_settled_ext K w).
  - by apply (cleanup_settled K w).
Qed.

(** Every world of a run. *)
Lemma run_settled K w :
  rtc step createWorld w → world_ok w ∧ filter_settled K w.
Proof.
  intros Hrun.
  apply (rtc_ind_r (R := step) (λ v, world_ok v ∧ filter_settled K v)
           createWorld); [| |exact Hrun].
  - split; [|intros l Hl; discriminate Hl].
    split; [apply NoDup_nil_2|]. intros e He. by apply elem_of_nil in He.
  - intros v v' _ [Hmut|[(names & lt & ->)|[(e & name & ->)|[e Hrm]]]]
      [Hok Hc].
    + by apply (mutation_settled K v).
    + split; [by apply getEntities_ok|by apply getEntities_settled].
    + unfold removeComponentFromEntity.
      destruct (negb (truthy _)); [done|]. cbn [removals_components].
      by destruct (negb (includesStr _ _)).
    + unfold removeEntity in Hrm.
      destruct (Z.ltb _ 0); [by injection Hrm as <-|].
      destruct (negb _); by injection Hrm as <-.
Qed.

End Filters.
(** ** The filter correctness invariant *)

(** C1 (as amended): in every world that a run of queries, removals with
    deferral and public mutations builds from a new world (components
    added to entities of the world, components with a well-formed name
    removed at once from entities of the world, entities created or
    removed at once, flushes by [cleanup] that complete with well-formed
    queued names), the memoized list of a
    filter key holds no duplicate, holds only entities of the world that
    match, and holds every matching entity that has a component.  For a
    key that the empty entity does not match, the list is therefore
    exact. *)
Theorem filter_invariant_preserved filterId w :
  rtc step createWorld w →
  world_ok w ∧ filter_settled filterId w
  ∧ (_matchesFilter filterId ∅ [] = false → filter_correct filterId w).
Proof.
  intros Hrun. destruct (run_settled filterId w Hrun) as [Hok Hc].
  split; [done|]. split; [done|].
  intros Hempty l Hl. destruct (Hc l Hl) as (Hnd & Hsound & Hfull).
  split; [done|]. intros e. split; [by apply Hsound|].
  intros [Hin Hm]. apply Hfull; [done|done|].
  intros Hobj. rewrite Hobj in Hm. congruence.
Qed.

(** A run for the invariant: the filter ["x"] is queried, two entities are
    created, the second receives the component, which is then removed with
    deferral and flushed by [cleanup]. *)
Lemma filter_invariant_preserved_witness :
  let w1 := (getEntities createWorld ["x"] None).2 in
  let w2 := (createEntity (createEntity w1).2).2 in
  let w3 := addComponentToEntity w2 1 "x" VUndefined in
  let w4 := removeComponentFromEntity w3 1 "x" true in
  let w5 := default w4 (cleanup w4) in
  rtc step createWorld w3 ∧ rtc step createWorld w5
  ∧ (world_ok w3 ∧ filter_settled "x" w3 ∧ filter_correct "x" w3)
  ∧ (world_ok w5 ∧ filter_settled "x" w5 ∧ filter_correct "x" w5)
  ∧ filters w2 !! "x" = Some [] ∧ filters w3 !! "x" = Some [1%nat]
  ∧ filters w4 !! "x" = Some [1%nat] ∧ filters w5 !! "x" = Some [].
Proof.
  intros w1 w2 w3 w4 w5.
  assert (rtc step createWorld w3) as Hrun3.
  { apply rtc_r with w2.
    - apply rtc_r with (createEntity w1).2.
      + apply rtc_r with w1; [|left; apply mut_createEntity].
        apply rtc_once. right. left. by exists ["x"], None.
      + left. apply mut_createEntity.
    - left. apply mut_addComponent.
      apply list_elem_of_further, list_elem_of_here. }
  assert (rtc step createWorld w5) as Hrun5.
  { apply rtc_r with w4.
    - apply rtc_r with w3; [exact Hrun3|]. right. right. left.
      by exists 1%nat, "x".
    - left. apply mut_cleanup; [|reflexivity].
      apply Forall_cons. split; [reflexivity|apply Forall_nil_2]. }
  destruct (filter_invariant_preserved "x" w3 Hrun3) as (H3a & H3b & H3c).
  destruct (filter_invariant_preserved "x" w5 Hrun5) as (H5a & H5b & H5c).
  split; [exact Hrun3|]. split; [exact Hrun5|].
  split; [split_and!; [exact H3a|exact H3b|exact (H3c eq_refl)]|].
  split; [split_and!; [exact H5a|exact H5b|exact (H5c eq_refl)]|].
  split_and!; reflexivity.
Defined.

(** The part of C1 that is left open: [createEntity] does not look at
    [world.filters], so a new entity is missing from the list of a filter
    made of negations only, which it matches. *)
Lemma createEntity_skips_filters :
  let w := (getEntities createWorld ["!y"] None).2 in
  let w' := (createEntity w).2 in
  entities w' = [0%nat]
  ∧ _matchesFilter "!y" (obj w' 0) [] = true
  ∧ filters w' !! "!y" = Some []
  ∧ (getEntities (createEntity createWorld).2 ["!y"] None).1 = [0%nat].
Proof. repeat split; reflexivity. Qed.

(** C1 fails as stated.  The mutators never check that their entity
    belongs to the world: a component added to an entity that was removed
    puts it back into the filter lists.  Nor are component names checked:
    removing the component named ["!c"] drops the entity from the filter
    ["!c"], which it still matches, and so does removing the component
    named ["a,b"] for the filter ["a,b"].  And a removal under the name of
    a member of [Object.prototype] passes the guard on any entity: for
    ["constructor"] it drops the entity from the filter ["a,constructor"],
    which it still matches. *)
Lemma filter_invariant_counterexample :
  (let w0 := (getEntities (createEntity createWorld).2 ["x"] None).2 in
   let w1 := default w0 (removeEntity w0 0 false) in
   let w2 := addComponentToEntity w1 0 "x" VUndefined in
   removeEntity w0 0 false = Some w1
   ∧ world_ok w1 ∧ filter_correct "x" w1
   ∧ entities w2 = []
   ∧ filters w2 !! "x" = Some [0%nat]
   ∧ ¬ filter_correct "x" w2)
  ∧
  (let w0 := addComponentToEntity (createEntity createWorld).2 0 "!c" VUndefined in
   let w1 := (getEntities w0 ["!c"] None).2 in
   let w2 := removeComponentFromEntity w1 0 "!c" false in
   world_ok w1 ∧ filter_correct "!c" w1
   ∧ entities w2 = [0%nat]
   ∧ _matchesFilter "!c" (obj w2 0) [] = true
   ∧ filters w2 !! "!c" = Some []
   ∧ ¬ filter_correct "!c" w2)
  ∧
  (let w0 := (createEntity createWorld).2 in
   let w1 := addComponentToEntity
               (addComponentToEntity
                  (addComponentToEntity w0 0 "a" VUndefined) 0 "b" VUndefined)
               0 "a,b" VUndefined in
   let w2 := (getEntities w1 ["a"; "b"] None).2 in
   let w3 := removeComponentFromEntity w2 0 "a,b" false in
   filters w2 !! "a,b" = Some [0%nat]
   ∧ entities w3 = [0%nat]
   ∧ _matchesFilter "a,b" (obj w3 0) [] = true
   ∧ filters w3 !! "a,b" = Some [])
  ∧
  (let w0 := addComponentToEntity (createEntity createWorld).2 0 "a" VUndefined in
   let w1 := (getEntities w0 ["a"; "constructor"] None).2 in
   let w2 := removeComponentFromEntity w1 0 "constructor" false in
   filters w1 !! "a,constructor" = Some [0%nat]
   ∧ entities w2 = [0%nat]
   ∧ _matchesFilter "a,constructor" (obj w2 0) [] = true
   ∧ filters w2 !! "a,constructor" = Some []).
Proof.
  assert (world_ok createWorld) as Hok0.
  { split; [apply NoDup_nil_2|]. intros e He. by apply elem_of_nil in He. }
  assert (∀ K, filter_correct K createWorld) as Hc0.
  { intros K l Hl. discriminate Hl. }
  split_and!; [| |repeat split; reflexivity|repeat split; reflexivity].
  - intros w0 w1 w2.
    assert (world_ok w0) as Hok by apply getEntities_ok, createEntity_ok, Hok0.
    assert (filter_correct "x" w0) as Hc.
    { apply getEntities_filter_correct; [by apply createEntity_ok|].
      apply createEntity_filter_correct; [done|by left|done]. }
    assert (removeEntity w0 0 false = Some w1) as Hrm by reflexivity.
    destruct (removeEntity_now "x" w0 0%nat w1 Hok Hrm Hc) as [Hok1 Hc1].
    assert (filters w2 !! "x" = Some [0%nat]) as Hl by reflexivity.
    split_and!; [done|done|done|reflexivity|done|].
    intros Hbad. destruct (Hbad [0%nat] Hl) as [_ Hmem].
    destruct (proj1 (Hmem 0%nat) (list_elem_of_here _ _)) as [Hin _].
    by apply elem_of_nil in Hin.
  - intros w0 w1 w2.
    assert (world_ok w1) as Hok.
    { apply getEntities_ok. unfold w0, addComponentToEntity.
      destruct (truthy _) eqn:?; by apply createEntity_ok. }
    assert (filter_correct "!c" w1) as Hc.
    { apply getEntities_filter_correct.
      - unfold w0, addComponentToEntity.
        destruct (truthy _) eqn:?; by apply createEntity_ok.
      - intros l Hl. discriminate Hl. }
    assert (filters w2 !! "!c" = Some []) as Hl by reflexivity.
    assert (_matchesFilter "!c" (obj w2 0) [] = true) as Hm by reflexivity.
    split_and!; [done|done|reflexivity|done|done|].
    intros Hbad. destruct (Hbad [] Hl) as [_ Hmem].
    assert (0%nat ∈ @nil nat) as Hin.
    { apply Hmem. split; [apply list_elem_of_here|exact Hm]. }
    by apply elem_of_nil in Hin.
Qed.

(** ** Deferred removal of entities *)

Section DeferredRemoval.

Implicit Types (w : World) (e : nat) (l : list nat) (q : list Z).

Lemma indexOf_middle l1 l2 e :
  e ∉ l1 → indexOf (l1 ++ e :: l2) e = Z.of_nat (length l1).
Proof.
  induction l1 as [|y l1 IH]; intros Hnin; cbn [app indexOf length].
  - by rewrite Nat.eqb_refl.
  - apply not_elem_of_cons in Hnin as [Hne Hnin].
    destruct (Nat.eqb_spec y e) as [->|_]; [done|]. rewrite (IH Hnin).
    destruct (Z.ltb_spec (Z.of_nat (length l1)) 0); lia.
Qed.

(** What a deferred [removeEntity] does to an entity of the world. *)
Lemma removeEntity_deferred w e :
  0 ≤ indexOf (entities w) e →
  ∃ w', removeEntity w e true = Some w'
    ∧ heap w' = heap w ∧ next_ref w' = next_ref w
    ∧ entities w' = entities w ∧ filters w' = filters w
    ∧ listeners_added w' = listeners_added w
    ∧ listeners_removed w' =
        map_imap (λ filterId lst,
          Some (remove_entity_listener (obj w e) e filterId lst))
          (listeners_removed w)
    ∧ removals_components w' = removals_components w
    ∧ removals_entities w' =
        (if includesZ (removals_entities w) (indexOf (entities w) e)
         then removals_entities w
         else orderedInsert (removals_entities w) (indexOf (entities w) e))
    ∧ stats w' =
        (if includesZ (removals_entities w) (indexOf (entities w) e)
         then stats w
         else set_entityCount (entityCount (stats w) - 1) (stats w)).
Proof.
  intros Hge. unfold removeEntity.
  destruct (Z.ltb_spec (indexOf (entities w) e) 0) as [|_]; [lia|].
  cbn [removals_entities set_listeners_removed stats].
  destruct (includesZ (removals_entities w) (indexOf (entities w) e));
    cbn [negb]; eexists; (split; [reflexivity|]); by cbn.
Qed.

(** One turn of the flush: the entity at a position where it occurs first
    is cut out of [world.entities]. *)
Lemma cleanup_entity_at w l1 e l2 :
  entities w = l1 ++ e :: l2 → e ∉ l1 →
  ∃ w', cleanup_entity w (Z.of_nat (length l1)) = Some w'
    ∧ entities w' = l1 ++ l2
    ∧ removals_components w' = removals_components w.
Proof.
  intros Hents Hnin. unfold cleanup_entity, at_index.
  destruct (Z.ltb_spec (Z.of_nat (length l1)) 0) as [|_]; [lia|].
  rewrite Nat2Z.id, Hents, list_lookup_middle by done.
  unfold _removeEntity. rewrite Hents, (indexOf_middle _ _ _ Hnin).
  destruct (Z.ltb_spec (Z.of_nat (length l1)) 0) as [|_]; [lia|].
  eexists. split; [reflexivity|]. cbn [entities removals_components].
  by rewrite Nat2Z.id, removeItems_middle.
Qed.

(** The flush of the queue [[3; 1]] with no component removal pending. *)
Lemma cleanup_three_one w e0 e1 e2 e3 rest :
  entities w = e0 :: e1 :: e2 :: e3 :: rest → NoDup (entities w) →
  removals_components w = [] → removals_entities w = [3; 1] →
  ∃ w', cleanup w = Some w' ∧ entities w' = e0 :: e2 :: rest
    ∧ removals_entities w' = [] ∧ removals_components w' = [].
Proof.
  intros Hents Hnd Hc Hq. rewrite Hents in Hnd.
  apply NoDup_cons in Hnd as [Hn0 Hnd]. apply NoDup_cons in Hnd as [Hn1 Hnd].
  apply NoDup_cons in Hnd as [Hn2 _].
  unfold cleanup, emptyListeners.
  cbn [removals_components set_listeners_removed set_listeners_added].
  rewrite Hc.
  cbn [run_queue removals_entities set_removals_components
       set_listeners_removed set_listeners_added].
  rewrite Hq. cbn [run_queue].
  destruct (cleanup_entity_at
              (set_removals_components []
                 (set_listeners_removed ((λ _, []) <$> listeners_removed w)
                    (set_listeners_added ((λ _, []) <$> listeners_added w) w)))
              [e0; e1; e2] e3 rest) as (w1 & Hw1 & Hents1 & Hc1).
  { exact Hents. }
  { rewrite !not_elem_of_cons. split_and!;
      [intros ->|intros ->|intros ->|apply not_elem_of_nil].
    - apply Hn0. do 2 apply list_elem_of_further. apply list_elem_of_here.
    - apply Hn1. apply list_elem_of_further, list_elem_of_here.
    - apply Hn2. apply list_elem_of_here. }
  change (Z.of_nat (length [e0; e1; e2])) with 3 in Hw1. rewrite Hw1.
  destruct (cleanup_entity_at w1 [e0] e1 (e2 :: rest))
    as (w2 & Hw2 & Hents2 & Hc2).
  { exact Hents1. }
  { rewrite not_elem_of_cons. split; [intros ->|apply not_elem_of_nil].
    apply Hn0. apply list_elem_of_here. }
  change (Z.of_nat (length [e0])) with 1 in Hw2. rewrite Hw2.
  eexists. split; [reflexivity|].
  cbn [entities removals_entities removals_components set_removals_entities].
  split_and!; [done|done|]. by rewrite Hc2, Hc1.
Qed.

(** The flush completes when nothing but entity removals is queued and
    the queue runs strictly downwards through positions of the list. *)
Lemma cleanup_entities_total q : ∀ w,
  StronglySorted Z.gt q →
  Forall (λ i, 0 ≤ i < Z.of_nat (length (entities w))) q →
  is_Some (run_queue cleanup_entity q w).
Proof.
  induction q as [|i q IH]; intros w Hsorted Hrange; [by eexists|].
  apply StronglySorted_inv in Hsorted as [Hsorted Hbelow].
  apply Forall_cons in Hrange as [Hi Hrange]. cbn [run_queue].
  unfold cleanup_entity at 1. unfold at_index.
  destruct (Z.ltb_spec i 0) as [|_]; [lia|].
  destruct (lookup_lt_is_Some_2 (entities w) (Z.to_nat i)) as [e He]; [lia|].
  rewrite He.
  destruct (removeEntity_inner_total w e) as [w' Hw'].
  { apply list_elem_of_lookup. by eexists. }
  rewrite Hw'. apply IH; [done|].
  destruct (removeEntity_inner_spec _ _ _ Hw') as (Hge & Hents & _).
  assert (indexOf (entities w) e < Z.of_nat (length (entities w))) as Hlt.
  { destruct (indexOf_spec (entities w) e) as [[? _]|(l1 & l2 & -> & _ & ->)];
      [lia|]. rewrite length_app. cbn [length]. lia. }
  assert (length (entities w') = (length (entities w) - 1)%nat) as Hlen.
  { rewrite Hents. unfold removeItems.
    rewrite length_app, length_take, length_drop. lia. }
  rewrite Forall_forall in Hbelow, Hrange. apply Forall_forall.
  intros j Hj. specialize (Hbelow j Hj). specialize (Hrange j Hj).
  rewrite Hlen. lia.
Qed.

Lemma cleanup_total w :
  removals_components w = [] →
  StronglySorted Z.gt (removals_entities w) →
  Forall (λ i, 0 ≤ i < Z.of_nat (length (entities w))) (removals_entities w) →
  is_Some (cleanup w).
Proof.
  intros Hc Hsorted Hrange. unfold cleanup, emptyListeners.
  cbn [removals_components set_listeners_removed set_listeners_added].
  rewrite Hc.
  cbn [run_queue removals_entities set_removals_components
       set_listeners_removed set_listeners_added].
  destruct (cleanup_entities_total (removals_entities w)
              (set_removals_components []
                 (set_listeners_removed ((λ _, []) <$> listeners_removed w)
                    (set_listeners_added ((λ _, []) <$> listeners_added w) w)))
              Hsorted Hrange) as [w' ->].
  by eexists.
Qed.

End DeferredRemoval.

(** C2: with at least four entities and nothing queued, the deferred
    removal of the entities at indices 3 and 1, in either call order,
    followed by one [cleanup], leaves exactly the other entities, in their
    order; both call orders queue [[3; 1]]. *)
Theorem deferred_removal_order w e0 e1 e2 e3 rest (three_first : bool) :
  entities w = e0 :: e1 :: e2 :: e3 :: rest →
  NoDup (entities w) →
  removals_entities w = [] → removals_components w = [] →
  ∃ w1 w2 w3,
    removeEntity w (if three_first then e3 else e1) true = Some w1
    ∧ removeEntity w1 (if three_first then e1 else e3) true = Some w2
    ∧ removals_entities w2 = [3; 1]
    ∧ cleanup w2 = Some w3
    ∧ entities w3 = e0 :: e2 :: rest.
Proof.
  intros Hents Hnd Hq Hc.
  assert (indexOf (entities w) e3 = 3 ∧ indexOf (entities w) e1 = 1) as [Hi3 Hi1].
  { pose proof Hnd as Hnd'. rewrite Hents in Hnd'.
    apply NoDup_cons in Hnd' as [Hn0 Hnd']. apply NoDup_cons in Hnd' as [Hn1 Hnd'].
    apply NoDup_cons in Hnd' as [Hn2 _]. rewrite Hents. split.
    - apply (indexOf_middle [e0; e1; e2] rest e3).
      rewrite !not_elem_of_cons. split_and!;
        [intros ->|intros ->|intros ->|apply not_elem_of_nil].
      + apply Hn0. do 2 apply list_elem_of_further. apply list_elem_of_here.
      + apply Hn1. apply list_elem_of_further, list_elem_of_here.
      + apply Hn2. apply list_elem_of_here.
    - apply (indexOf_middle [e0] (e2 :: e3 :: rest) e1).
      rewrite not_elem_of_cons. split; [intros ->|apply not_elem_of_nil].
      apply Hn0. apply list_elem_of_here. }
  destruct three_first.
  - destruct (removeEntity_deferred w e3) as
      (w1 & Hw1 & _ & _ & Hents1 & _ & _ & _ & Hc1 & Hq1 & _); [lia|].
    rewrite Hi3, Hq in Hq1. cbn in Hq1.
    destruct (removeEntity_deferred w1 e1) as
      (w2 & Hw2 & _ & _ & Hents2 & _ & _ & _ & Hc2 & Hq2 & _).
    { rewrite Hents1. lia. }
    rewrite Hents1, Hi1, Hq1 in Hq2. cbn in Hq2.
    destruct (cleanup_three_one w2 e0 e1 e2 e3 rest) as (w3 & Hw3 & Hents3 & _);
      [congruence|congruence|congruence|done|].
    by exists w1, w2, w3.
  - destruct (removeEntity_deferred w e1) as
      (w1 & Hw1 & _ & _ & Hents1 & _ & _ & _ & Hc1 & Hq1 & _); [lia|].
    rewrite Hi1, Hq in Hq1. cbn in Hq1.
    destruct (removeEntity_deferred w1 e3) as
      (w2 & Hw2 & _ & _ & Hents2 & _ & _ & _ & Hc2 & Hq2 & _).
    { rewrite Hents1. lia. }
    rewrite Hents1, Hi3, Hq1 in Hq2. cbn in Hq2.
    destruct (cleanup_three_one w2 e0 e1 e2 e3 rest) as (w3 & Hw3 & Hents3 & _);
      [congruence|congruence|congruence|done|].
    by exists w1, w2, w3.
Qed.

Lemma deferred_removal_order_witness :
  (entities five_entities = [0; 1; 2; 3; 4]%nat
   ∧ NoDup (entities five_entities)
   ∧ removals_entities five_entities = []
   ∧ removals_components five_entities = [])
  ∧ (∃ w1 w2 w3,
       removeEntity five_entities 3 true = Some w1
       ∧ removeEntity w1 1 true = Some w2
       ∧ removals_entities w2 = [3; 1]
       ∧ cleanup w2 = Some w3
       ∧ entities w3 = [0; 2; 4]%nat)
  ∧ (∃ w1 w2 w3,
       removeEntity five_entities 1 true = Some w1
       ∧ removeEntity w1 3 true = Some w2
       ∧ removals_entities w2 = [3; 1]
       ∧ cleanup w2 = Some w3
       ∧ entities w3 = [0; 2; 4]%nat).
Proof.
  assert (entities five_entities = [0; 1; 2; 3; 4]%nat) as He by reflexivity.
  assert (NoDup (entities five_entities)) as Hnd.
  { rewrite He. apply (bool_decide_unpack _). reflexivity. }
  split; [by repeat split|]. split.
  - exact (deferred_removal_order five_entities 0 1 2 3 [4] true
             He Hnd eq_refl eq_refl)%nat.
  - exact (deferred_removal_order five_entities 0 1 2 3 [4] false
             He Hnd eq_refl eq_refl)%nat.
Defined.

(** ** The removal queue *)

Section Queue.

Implicit Types (w : World) (e : nat) (q : list Z) (v : Z).

Lemma includesZ_true q v : includesZ q v = true ↔ v ∈ q.
Proof.
  unfold includesZ. rewrite existsb_exists. split.
  - intros (y & Hin & Heq). apply Z.eqb_eq in Heq. subst y.
    by apply list_elem_of_In.
  - intros Hin. exists v. split; [by apply list_elem_of_In|apply Z.eqb_refl].
Qed.

(** [orderedInsert] puts the value in front of the first smaller one. *)
Lemma orderedInsert_spec q v :
  ∃ q1 q2, q = q1 ++ q2 ∧ orderedInsert q v = q1 ++ v :: q2
    ∧ Forall (λ x, v ≤ x) q1
    ∧ match q2 with [] => True | x :: _ => x < v end.
Proof.
  induction q as [|x q (q1 & q2 & Hq & Hins & Hge & Hlt)]; cbn [orderedInsert].
  - by exists [], [].
  - destruct (Z.ltb_spec x v) as [Hxv|Hxv].
    + by exists [], (x :: q).
    + exists (x :: q1), q2. rewrite Hins, Hq. split_and!; try done.
      by apply Forall_cons.
Qed.

Lemma orderedInsert_elem q v x : x ∈ orderedInsert q v ↔ x = v ∨ x ∈ q.
Proof.
  destruct (orderedInsert_spec q v) as (q1 & q2 & -> & -> & _).
  rewrite !elem_of_app, elem_of_cons. tauto.
Qed.

(** A queue that is sorted from highest to lowest, without repetition, stays
    so when a value it does not hold is inserted. *)
Lemma orderedInsert_sorted q v :
  StronglySorted Z.gt q → v ∉ q → StronglySorted Z.gt (orderedInsert q v).
Proof.
  induction q as [|x q IH]; intros Hs Hnin; cbn [orderedInsert].
  - repeat constructor.
  - apply not_elem_of_cons in Hnin as [Hne Hnin].
    apply StronglySorted_inv in Hs as [Hs Hall].
    destruct (Z.ltb_spec x v) as [Hxv|Hxv].
    + constructor; [by constructor|]. constructor; [lia|].
      eapply Forall_impl; [exact Hall|]. intros y Hy. cbn in *. lia.
    + constructor; [by apply IH|]. apply Forall_forall. intros y Hy.
      apply orderedInsert_elem in Hy as [->|Hy]; [lia|].
      rewrite Forall_forall in Hall. by apply Hall.
Qed.

(** The removed-listener loop of [removeEntity] changes nothing when it is
    run a second time. *)
Lemma remove_entity_listener_twice (entity : Entity) e
    (m : gmap string (list nat)) :
  map_imap (λ filterId lst,
    Some (remove_entity_listener entity e filterId lst))
    (map_imap (λ filterId lst,
       Some (remove_entity_listener entity e filterId lst)) m)
  = map_imap (λ filterId lst,
      Some (remove_entity_listener entity e filterId lst)) m.
Proof.
  apply map_eq. intros K. rewrite !map_lookup_imap.
  destruct (m !! K) as [l|]; [|done]. cbn. f_equal.
  unfold remove_entity_listener.
  destruct (_matchesFilter K entity []); [|done]. cbn [andb].
  destruct (arr_includes l e) eqn:Hinc; cbn [negb].
  - by rewrite Hinc.
  - assert (arr_includes (l ++ [e]) e = true) as ->; [|done].
    apply arr_includes_true, elem_of_app. right. apply list_elem_of_here.
Qed.

End Queue.

(** C8: a deferred [removeEntity] of an entity of the world queues its index
    unless it is queued already, in front of the first smaller index, and
    lowers [entityCount] exactly when it queues; the entity, the filter
    lists and the entity objects are left as they are, and a second
    deferred removal of the same entity changes nothing. *)
Theorem removeEntity_deferred_queue w e :
  e ∈ entities w →
  ∃ w', removeEntity w e true = Some w'
    ∧ (entities w' = entities w ∧ filters w' = filters w ∧ heap w' = heap w)
    ∧ (if includesZ (removals_entities w) (indexOf (entities w) e)
       then removals_entities w' = removals_entities w
            ∧ entityCount (stats w') = entityCount (stats w)
       else removals_entities w'
              = orderedInsert (removals_entities w) (indexOf (entities w) e)
            ∧ (∃ q1 q2, removals_entities w = q1 ++ q2
                 ∧ removals_entities w' = q1 ++ indexOf (entities w) e :: q2
                 ∧ Forall (λ x, indexOf (entities w) e < x) q1
                 ∧ match q2 with
                   | [] => True
                   | x :: _ => x < indexOf (entities w) e
                   end)
            ∧ entityCount (stats w') = entityCount (stats w) - 1)
    ∧ (StronglySorted Z.gt (removals_entities w) →
       StronglySorted Z.gt (removals_entities w'))
    ∧ removeEntity w' e true = Some w'.
Proof.
  intros Hin. pose proof (indexOf_elem _ _ Hin) as Hge.
  destruct (removeEntity_deferred w e Hge) as
    (w' & Hw' & Hheap & Hnext & Hents & Hfs & Hla & Hlr & Hrc & Hq & Hst).
  exists w'. split; [done|]. split; [done|].
  set (idx := indexOf (entities w) e) in *.
  assert (includesZ (removals_entities w') idx = true) as Hqueued.
  { rewrite Hq. destruct (includesZ (removals_entities w) idx) eqn:Hinc; [done|].
    apply includesZ_true, orderedInsert_elem. by left. }
  split; [|split].
  - destruct (includesZ (removals_entities w) idx) eqn:Hinc.
    + by rewrite Hq, Hst.
    + rewrite Hq, Hst. split_and!; [done| |done].
      destruct (orderedInsert_spec (removals_entities w) idx)
        as (q1 & q2 & Hq12 & Hins & Hall & Hlt).
      exists q1, q2. split_and!; [done|done| |done].
      apply Forall_forall. intros x Hx.
      rewrite Forall_forall in Hall. specialize (Hall x Hx).
      destruct (decide (x = idx)) as [->|]; [|lia].
      exfalso. apply not_true_iff_false in Hinc. apply Hinc.
      apply includesZ_true. rewrite Hq12. apply elem_of_app. by left.
  - intros Hsorted. rewrite Hq.
    destruct (includesZ (removals_entities w) idx) eqn:Hinc; [done|].
    apply orderedInsert_sorted; [done|].
    intros Hx. apply includesZ_true in Hx. congruence.
  - unfold removeEntity. rewrite Hents. fold idx.
    destruct (Z.ltb_spec idx 0) as [|_]; [lia|].
    cbn [removals_entities set_listeners_removed]. rewrite Hqueued. cbn [negb].
    f_equal. unfold obj. rewrite Hheap, Hlr. fold (obj w e).
    rewrite remove_entity_listener_twice, <- Hlr. by destruct w'.
Qed.

Lemma removeEntity_deferred_queue_witness :
  2%nat ∈ entities five_entities
  ∧ ∃ w', removeEntity five_entities 2 true = Some w'
      ∧ removals_entities w' = [2]
      ∧ entityCount (stats five_entities) = 5
      ∧ entityCount (stats w') = 4
      ∧ entities w' = entities five_entities
      ∧ filters w' = filters five_entities
      ∧ removeEntity w' 2 true = Some w'.
Proof.
  assert (2%nat ∈ entities five_entities) as Hin.
  { do 2 apply list_elem_of_further. apply list_elem_of_here. }
  split; [exact Hin|].
  destruct (removeEntity_deferred_queue five_entities 2%nat Hin)
    as (w' & Hw' & (Hents & Hfs & _) & Hq & _ & Hagain).
  exists w'.
  change (includesZ (removals_entities five_entities)
            (indexOf (entities five_entities) 2)) with false in Hq.
  destruct Hq as (Hq & _ & Hcount).
  split; [exact Hw'|]. split; [exact Hq|]. split; [reflexivity|].
  split; [exact Hcount|]. by repeat split.
Defined.

(** ** Adding and removing components *)

Section Components.

Implicit Types (w : World) (e : nat) (name K : string) (d : Value).

Lemma addComponent_noop w e name d :
  truthy (read (obj w e) name) = true → addComponentToEntity w e name d = w.
Proof. intros Ht. unfold addComponentToEntity. by rewrite Ht. Qed.

Lemma addComponent_obj w e name d :
  truthy (read (obj w e) name) = false →
  obj (addComponentToEntity w e name d) e
  = <[name := default_data d]> (obj w e).
Proof.
  intros Ht. unfold addComponentToEntity. rewrite Ht. unfold obj at 1.
  cbn [heap negb]. by rewrite lookup_insert_eq.
Qed.

Lemma addComponent_count w e name d :
  truthy (read (obj w e) name) = false →
  componentCount (stats (addComponentToEntity w e name d)) !! name
  = Some (Int (count_base (componentCount (stats w) !! name) + 1)).
Proof.
  intros Ht. unfold addComponentToEntity. rewrite Ht.
  cbn [negb stats componentCount set_componentCount].
  rewrite lookup_insert_eq. f_equal.
  destruct (componentCount (stats w) !! name) as [[z|]|] eqn:Hc; cbn.
  - by rewrite Hc.
  - by rewrite lookup_insert_eq.
  - by rewrite lookup_insert_eq.
Qed.

Lemma addComponent_filters w e name d K :
  truthy (read (obj w e) name) = false →
  filters (addComponentToEntity w e name d) !! K
  = add_update_filter (<[name := default_data d]> (obj w e)) e K
      <$> filters w !! K.
Proof.
  intros Ht. unfold addComponentToEntity. rewrite Ht. cbn [filters negb].
  rewrite map_lookup_imap. by destruct (filters w !! K).
Qed.

Lemma addComponent_listeners w e name d K :
  truthy (read (obj w e) name) = false →
  listeners_added (addComponentToEntity w e name d) !! K
  = add_update_listener (<[name := default_data d]> (obj w e)) e name K
      <$> listeners_added w !! K.
Proof.
  intros Ht. unfold addComponentToEntity. rewrite Ht.
  cbn [listeners_added negb].
  rewrite map_lookup_imap. by destruct (listeners_added w !! K).
Qed.

Lemma removeComponent_noop w e name (deferred : bool) :
  truthy (read (obj w e) name) = false →
  removeComponentFromEntity w e name deferred = w.
Proof. intros Ht. unfold removeComponentFromEntity. by rewrite Ht. Qed.

(** Treating the added component as absent: the ignore list of
    [_matchesFilter] answers as the entity without the component does. *)
Lemma matchesFilter_ignore_delete K (entity : Entity) name :
  startsWith name "!" = false → inherited name = false →
  _matchesFilter K entity [] = true →
  _matchesFilter K entity [name] = _matchesFilter K (delete name entity) [].
Proof.
  intros Hbang Hinh Hm. unfold _matchesFilter in *.
  rewrite match_tokens_ignore, Hm. cbn [andb].
  destruct (includesStr (split_comma K) name) eqn:Hinc; cbn [negb].
  - apply includesStr_true in Hinc.
    by rewrite match_tokens_delete_token.
  - symmetry. apply match_tokens_delete_other; [|congruence|done].
    intros Hin. apply includesStr_true in Hin. congruence.
Qed.

End Components.

(** C4 (as amended): when the first of two calls of [addComponentToEntity]
    with one name stores truthy data (the data is left out, or is truthy),
    the second call changes nothing in the world, whatever data it brings. *)
Theorem addComponent_twice w e componentName d1 d2 :
  truthy (default_data d1) = true →
  addComponentToEntity (addComponentToEntity w e componentName d1)
    e componentName d2
  = addComponentToEntity w e componentName d1.
Proof.
  intros Hd. destruct (truthy (read (obj w e) componentName)) eqn:Ht.
  - rewrite (addComponent_noop w e componentName d1 Ht).
    by apply addComponent_noop.
  - apply addComponent_noop. rewrite addComponent_obj by done.
    by rewrite read_insert_eq.
Qed.

Lemma addComponent_twice_witness :
  let w := (createEntity createWorld).2 in
  truthy (default_data VUndefined) = true
  ∧ addComponentToEntity (addComponentToEntity w 0 "x" VUndefined) 0 "x" (VNum 7)
    = addComponentToEntity w 0 "x" VUndefined.
Proof.
  intros w. split; [reflexivity|].
  apply (addComponent_twice w 0%nat "x" VUndefined (VNum 7)). reflexivity.
Defined.

(** C4 fails as stated: after a first add with the falsy data [0], a second
    add with the same name overwrites the data and counts once more. *)
Lemma addComponent_twice_counterexample :
  let w1 := (createEntity createWorld).2 in
  let w2 := addComponentToEntity w1 0 "x" (VNum 0) in
  let w3 := addComponentToEntity w2 0 "x" (VNum 5) in
  obj w2 0 !! "x" = Some (VNum 0)
  ∧ obj w3 0 !! "x" = Some (VNum 5)
  ∧ componentCount (stats w2) !! "x" = Some (Int 1)
  ∧ componentCount (stats w3) !! "x" = Some (Int 2)
  ∧ obj w3 0 ≠ obj w2 0.
Proof.
  intros w1 w2 w3. split_and!; try reflexivity.
  intros Heq. assert (obj w3 0 !! "x" = obj w2 0 !! "x") as H by by rewrite Heq.
  discriminate H.
Qed.

(** C7 (as amended): removing a component that the entity does not have
    and whose name is no member of [Object.prototype], or an entity the
    world does not hold, returns normally and leaves the world as it is,
    deferred or not. *)
Theorem removal_noop w e e' componentName (deferredRemoval : bool) :
  obj w e !! componentName = None →
  inherited componentName = false →
  e' ∉ entities w →
  removeComponentFromEntity w e componentName deferredRemoval = w
  ∧ removeEntity w e' deferredRemoval = Some w.
Proof.
  intros Habsent Hinh Hnin. split.
  - apply removeComponent_noop. unfold read. by rewrite Habsent, Hinh.
  - unfold removeEntity. by rewrite (indexOf_not_elem _ _ Hnin).
Qed.

Lemma removal_noop_witness :
  let w := (getEntities
              (addComponentToEntity (createEntity createWorld).2 0 "a" VUndefined)
              ["a"] (Some removed)).2 in
  (obj w 0 !! "b" = None ∧ inherited "b" = false ∧ 5%nat ∉ entities w)
  ∧ removeComponentFromEntity w 0 "b" true = w
  ∧ removeEntity w 5 false = Some w.
Proof.
  intros w.
  assert (obj w 0 !! "b" = None) as Ha by reflexivity.
  assert (5%nat ∉ entities w) as Hn.
  { intros Hin. apply list_elem_of_singleton in Hin. discriminate Hin. }
  split; [done|]. split.
  - exact (proj1 (removal_noop w 0%nat 5%nat "b" true Ha eq_refl Hn)).
  - exact (proj2 (removal_noop w 0%nat 5%nat "b" false Ha eq_refl Hn)).
Defined.

(** C7 fails as stated: a new entity has no component, yet the guard of
    [removeComponentFromEntity] reads the inherited [constructor] as
    present.  A deferred removal of that name is queued, and a non-deferred
    one turns its counter into NaN. *)
Lemma removal_noop_counterexample :
  let w := (createEntity createWorld).2 in
  obj w 0 !! "constructor" = None
  ∧ removals_components w = []
  ∧ removals_components (removeComponentFromEntity w 0 "constructor" true)
    = ["0__@@ECS@@__constructor"]
  ∧ componentCount (stats w) !! "constructor" = None
  ∧ componentCount (stats (removeComponentFromEntity w 0 "constructor" false))
      !! "constructor" = Some NaN
  ∧ removeComponentFromEntity w 0 "constructor" true ≠ w
  ∧ removeComponentFromEntity w 0 "constructor" false ≠ w.
Proof.
  intros w. split_and!; try reflexivity.
  - intros Heq. apply (f_equal removals_components) in Heq. discriminate Heq.
  - intros Heq.
    apply (f_equal (λ v, componentCount (stats v) !! "constructor")) in Heq.
    discriminate Heq.
Qed.

(** ** Added listeners and negated filters *)

(** C3 (as amended): with one entity that has only the component ["a"],
    the first "added" query for ["a"; "b"] creates the listener list and
    returns it empty; adding ["b"] then leaves exactly that entity in the
    list, once.  In general, for a component name that does not start with
    ["!"] and is no member of [Object.prototype], the added-listener loop
    appends the entity exactly when it now matches the filter, would not
    match with the new component absent, and is not in the list yet. *)
Theorem added_listener_transition :
  (∀ w e v d,
     entities w = [e] → heap w !! e = Some {["a" := v]} →
     truthy v = true → truthy (default_data d) = true →
     listeners_added w !! "a,b" = None →
     (getEntities w ["a"; "b"] (Some added)).1 = []
     ∧ listeners_added
         (addComponentToEntity (getEntities w ["a"; "b"] (Some added)).2 e "b" d)
         !! "a,b" = Some [e])
  ∧ (∀ w e componentName d filterId lst,
       truthy (read (obj w e) componentName) = false →
       startsWith componentName "!" = false →
       inherited componentName = false →
       listeners_added w !! filterId = Some lst →
       let entity' := <[componentName := default_data d]> (obj w e) in
       listeners_added (addComponentToEntity w e componentName d) !! filterId
       = Some (if _matchesFilter filterId entity' []
                  && negb (_matchesFilter filterId
                             (delete componentName entity') [])
                  && negb (arr_includes lst e)
               then lst ++ [e] else lst)).
Proof.
  split.
  - intros w e v d Hents Hheap Hv Hd Hnone.
    assert (obj w e = {["a" := v]}) as Hobj by (unfold obj; by rewrite Hheap).
    assert (_matchesFilter "a,b" (obj w e) [] = false) as Hm0.
    { rewrite Hobj. unfold _matchesFilter.
      change (split_comma "a,b") with ["a"; "b"].
      rewrite match_tokens_forallb. unfold token_holds. cbn. unfold read.
      rewrite lookup_singleton_eq, lookup_singleton_ne by done.
      by rewrite Hv. }
    set (r := getEntities w ["a"; "b"] (Some added)).
    assert (r.1 = [] ∧ listeners_added r.2 !! "a,b" = Some []
            ∧ obj r.2 e = obj w e) as (Hr1 & Hla & Hobj').
    { destruct (getEntities_added w ["a"; "b"] Hnone eq_refl)
        as [Hseed Hlist].
      change (join_comma ["a"; "b"]) with "a,b" in Hseed, Hlist.
      fold r in Hseed, Hlist.
      rewrite Hents in Hseed, Hlist. cbn [List.filter] in Hseed, Hlist.
      rewrite Hm0 in Hseed, Hlist.
      split_and!; [done|done|].
      unfold obj, r. by rewrite getEntities_heap. }
    split; [done|].
    assert (truthy (read (obj r.2 e) "b") = false) as Hb.
    { rewrite Hobj', Hobj. unfold read. by rewrite lookup_singleton_ne. }
    rewrite addComponent_listeners, Hla by done. cbn [fmap option_fmap option_map].
    f_equal. unfold add_update_listener. rewrite Hobj', Hobj.
    assert (_matchesFilter "a,b" (<["b" := default_data d]> {["a" := v]}) []
            = true) as ->.
    { unfold _matchesFilter. change (split_comma "a,b") with ["a"; "b"].
      rewrite match_tokens_forallb. unfold token_holds. cbn. unfold read.
      rewrite lookup_insert_eq, lookup_insert_ne, lookup_singleton_eq by done.
      cbn. by rewrite Hv, Hd. }
    assert (_matchesFilter "a,b" (<["b" := default_data d]> {["a" := v]}) ["b"]
            = false) as ->.
    { unfold _matchesFilter. change (split_comma "a,b") with ["a"; "b"].
      rewrite match_tokens_ignore.
      change (includesStr ["a"; "b"] "b") with true. by rewrite andb_false_r. }
    done.
  - intros w e name d K lst Ht Hbang Hinh Hl entity'.
    rewrite addComponent_listeners, Hl by done. cbn. f_equal.
    unfold add_update_listener. fold entity'.
    destruct (_matchesFilter K entity' []) eqn:Hm; [|done].
    by rewrite (matchesFilter_ignore_delete K entity' name Hbang Hinh Hm).
Qed.

Lemma added_listener_transition_witness :
  let w := addComponentToEntity (createEntity createWorld).2 0 "a" VUndefined in
  let w' := (getEntities w ["a"; "b"] (Some added)).2 in
  (entities w = [0%nat] ∧ heap w !! 0%nat = Some {["a" := VObj []]}
   ∧ truthy (VObj []) = true ∧ truthy (default_data VUndefined) = true
   ∧ listeners_added w !! "a,b" = None)
  ∧ ((getEntities w ["a"; "b"] (Some added)).1 = []
     ∧ listeners_added (addComponentToEntity w' 0 "b" VUndefined) !! "a,b"
       = Some [0%nat])
  ∧ (truthy (read (obj w' 0) "b") = false ∧ startsWith "b" "!" = false
     ∧ inherited "b" = false ∧ listeners_added w' !! "a,b" = Some [])
  ∧ listeners_added (addComponentToEntity w' 0 "b" (VNum 3)) !! "a,b"
    = Some [0%nat].
Proof.
  intros w w'.
  assert (entities w = [0%nat]) as H1 by reflexivity.
  assert (heap w !! 0%nat = Some {["a" := VObj []]}) as H2 by reflexivity.
  assert (listeners_added w !! "a,b" = None) as H3 by reflexivity.
  assert (truthy (read (obj w' 0) "b") = false) as H4 by reflexivity.
  assert (listeners_added w' !! "a,b" = Some []) as H5 by reflexivity.
  split; [by repeat split|]. split.
  - exact (proj1 added_listener_transition w 0%nat (VObj []) VUndefined
             H1 H2 eq_refl eq_refl H3).
  - split; [by repeat split|].
    exact (proj2 added_listener_transition w' 0%nat "b" (VNum 3) "a,b" []
             H4 eq_refl eq_refl H5).
Defined.

(** C3 fails as stated in its general rule: the component ["!b"], added to
    an entity that matches the filter ["!b"] with or without it, is on the
    ignore list as the token ["!b"] itself, so the entity is appended
    although it would match with the new component absent. *)
Lemma added_listener_counterexample :
  let w := (createEntity (getEntities createWorld ["!b"] (Some added)).2).2 in
  let entity' := <["!b" := default_data VUndefined]> (obj w 0) in
  listeners_added w !! "!b" = Some []
  ∧ _matchesFilter "!b" entity' [] = true
  ∧ _matchesFilter "!b" (delete "!b" entity') [] = true
  ∧ listeners_added (addComponentToEntity w 0 "!b" VUndefined) !! "!b"
    = Some [0%nat].
Proof. intros w entity'. split_and!; reflexivity. Qed.

(** ** Tokens that name no component *)

Section Tokens.

#[local] Arguments String.eqb : simpl never.

Implicit Types (entity : Entity) (ts : list string).

(** A bare ["!"] asks for the absence of the component named [""]. *)
Lemma match_tokens_skip_bang entity ts :
  truthy (prop entity "") = false →
  match_tokens entity [] ts
  = match_tokens entity [] (List.filter (λ t, negb (String.eqb t "!")) ts).
Proof.
  intros Hempty. rewrite <- (read_prop entity "" eq_refl) in Hempty.
  induction ts as [|t ts IH]; [done|].
  cbn [List.filter]. destruct (String.eqb_spec t "!") as [->|Hne]; cbn [negb].
  - rewrite match_tokens_cons, <- IH. unfold token_holds. cbn.
    by rewrite Hempty.
  - by rewrite !match_tokens_cons, IH.
Qed.

(** An empty token asks for the component named [""]. *)
Lemma match_tokens_empty_token entity ts :
  truthy (prop entity "") = false → "" ∈ ts →
  match_tokens entity [] ts = false.
Proof.
  intros Hempty Hin. rewrite <- (read_prop entity "" eq_refl) in Hempty.
  apply not_true_is_false. rewrite match_tokens_true.
  intros Hall. specialize (Hall "" Hin). unfold token_holds in Hall.
  cbn in Hall. congruence.
Qed.

(** A key with an empty token names no member of [Object.prototype]. *)
Lemma empty_token_not_inherited filterId :
  "" ∈ split_comma filterId → inherited filterId = false.
Proof.
  intros Htok. apply not_true_is_false. intros Hinh.
  apply includesStr_true in Hinh. unfold object_prototype in Hinh.
  repeat (apply elem_of_cons in Hinh as [->|Hinh];
          [apply list_elem_of_singleton in Htok; discriminate Htok|]).
  by apply elem_of_nil in Hinh.
Qed.

End Tokens.

(** C6 (as amended): filter keys are not validated and the predicate never
    raises.  An empty token reads as the component name [""], a bare ["!"]
    as its negation.  So for an entity without truthy data under the name
    [""], a bare ["!"] asks nothing, while a key with an empty token does
    not match: the seeding scan of [getEntities] leaves the entity out, and
    neither maintenance loop puts it into the list. *)
Theorem malformed_filter_tokens filterId (entity : Entity) :
  truthy (prop entity "") = false →
  _matchesFilter filterId entity []
  = match_tokens entity []
      (List.filter (λ t, negb (String.eqb t "!")) (split_comma filterId))
  ∧ ("" ∈ split_comma filterId →
     _matchesFilter filterId entity [] = false
     ∧ (∀ e l componentName,
          e ∉ l →
          (e ∉ add_update_filter entity e filterId l)
          ∧ (e ∉ remove_update_filter entity e componentName filterId l))
     ∧ (∀ w e names,
          join_comma names = filterId → filters w !! filterId = None →
          obj w e = entity →
          e ∉ (getEntities w names None).1)).
Proof.
  intros Hempty. split.
  - by apply match_tokens_skip_bang.
  - intros Htok.
    assert (_matchesFilter filterId entity [] = false) as Hm
      by by apply match_tokens_empty_token.
    split_and!; [done| |].
    + intros e l name Hnin. unfold add_update_filter, remove_update_filter.
      rewrite Hm, (indexOf_not_elem _ _ Hnin). cbn.
      by destruct (_hasComponent filterId name).
    + intros w e names <- Hnone <-.
      pose proof (empty_token_not_inherited _ Htok) as Hinh.
      destruct (getEntities_memo_list w names Hinh) as (l & -> & Hl).
      rewrite getEntities_filters, Hnone, Hinh, lookup_insert_eq in Hl.
      injection Hl as <-. change (e ∉ ?x) with (¬ e ∈ x).
      intros Hel. apply bfilter_elem in Hel as [_ Hm']. congruence.
Qed.

Lemma malformed_filter_tokens_witness :
  let w := addComponentToEntity (createEntity createWorld).2 0 "a" VUndefined in
  truthy (prop (obj w 0) "") = false
  ∧ "" ∈ split_comma "a,"
  ∧ _matchesFilter "a,!" (obj w 0) [] = match_tokens (obj w 0) [] ["a"]
  ∧ _matchesFilter "a," (obj w 0) [] = false
  ∧ 0%nat ∉ (getEntities w ["a"; ""] None).1.
Proof.
  intros w.
  assert (truthy (prop (obj w 0) "") = false) as He by reflexivity.
  assert ("" ∈ split_comma "a,") as Htok.
  { apply list_elem_of_further, list_elem_of_here. }
  split; [done|]. split; [done|]. split.
  - exact (proj1 (malformed_filter_tokens "a,!" (obj w 0) He)).
  - destruct (proj2 (malformed_filter_tokens "a," (obj w 0) He) Htok)
      as (Hm & _ & Hseed).
    split; [exact Hm|].
    exact (Hseed w 0%nat ["a"; ""] eq_refl eq_refl eq_refl).
Defined.

(** C6 fails as stated: the key ["!"] matches the empty entity, which the
    seeding scan then puts into its list; and the key [""] matches an
    entity that has a component named [""]. *)
Lemma malformed_filter_counterexample :
  _matchesFilter "!" ∅ [] = true
  ∧ (getEntities (createEntity createWorld).2 ["!"] None).1 = [0%nat]
  ∧ (let w := addComponentToEntity (createEntity createWorld).2 0 "" VUndefined in
     _matchesFilter "" (obj w 0) [] = true
     ∧ (getEntities w [""] None).1 = [0%nat]).
Proof. repeat split; reflexivity. Qed.

(** ** Statistics of queries *)

Section Counters.

Lemma assign_ordinary {A} key (v : A) (m : gmap string A) :
  inherited key = false → assign key v m = <[key := v]> m.
Proof.
  intros Hinh. unfold assign.
  destruct (String.eqb_spec key "__proto__") as [->|]; [discriminate Hinh|done].
Qed.

(** On a key that names no member of [Object.prototype], a counter that is
    missing or holds a number is raised by [d]. *)
Lemma bump_ordinary key d z (m : gmap string Count) :
  inherited key = false → default (CInt 0) (m !! key) = CInt z →
  bump key d m = <[key := CInt (z + d)]> m.
Proof.
  intros Hinh Hz. unfold bump, held. rewrite Hinh.
  destruct (m !! key) as [c|] eqn:Hc; cbn in Hz; subst.
  - cbn [held_truthy]. destruct (Z.eqb_spec z 0) as [->|Hne]; cbn [negb].
    + rewrite !assign_ordinary by done. rewrite lookup_insert_eq.
      cbn [held_add]. by rewrite insert_insert_eq.
    + rewrite assign_ordinary by done. by rewrite Hc.
  - injection Hz as <-. cbn [held_truthy negb].
    rewrite !assign_ordinary by done. rewrite lookup_insert_eq.
    cbn [held_add]. by rewrite insert_insert_eq.
Qed.

Lemma getEntities_stats w names lt :
  stats (getEntities w names lt).2
  = count_invocation (join_comma names)
      (match filters (getEntities w names lt).2 !! join_comma names with
       | Some l => Z.of_nat (length l)
       | None => member_length (join_comma names)
       end)
      (stats w).
Proof. by destruct lt as [[]|]. Qed.

End Counters.

(** C9 (as amended): for a filter key that names no member of
    [Object.prototype], every call of [getEntities], whatever its listener
    type, raises the invocation counter of the key by one (a missing
    counter counting as zero) and, where the statistics entry of the
    current system exists, adds the length of the memoized list to that
    system's counter for the key; in the end-to-end scenario the counter of
    the first system for ["pos"] stands at 1 after one [update]. *)
Theorem getEntities_counts :
  (∀ w names lt,
     let filterId := join_comma names in
     let w' := (getEntities w names lt).2 in
     inherited filterId = false →
     (∀ z, default (CInt 0) (filterInvocationCount (stats w) !! filterId)
           = CInt z →
           filterInvocationCount (stats w') !! filterId = Some (CInt (z + 1)))
     ∧ currentSystem (stats w') = currentSystem (stats w)
     ∧ ∃ l, filters w' !! filterId = Some l
         ∧ match stat_systems (stats w) !! currentSystem (stats w) with
           | Some sys =>
               ∀ z, default (CInt 0) (sys_filters sys !! filterId) = CInt z →
                 stat_systems (stats w') !! currentSystem (stats w)
                 = Some (mkSystemStats (name sys) (timeElapsed sys)
                           (<[filterId := CInt (z + Z.of_nat (length l))]>
                              (sys_filters sys)))
           | None => stat_systems (stats w') = stat_systems (stats w)
           end)
  ∧ (∀ elapsed,
       (update elapsed scenario 16 ≫= λ ecs',
          stat_systems (stats (world ecs')) !! 0%nat
            ≫= λ sys, sys_filters sys !! "pos") = Some (CInt 1)
       ∧ (update elapsed scenario 16 ≫= λ ecs',
            obj (world ecs') 0 !! "pos") = Some (VObj [("x", 16)])).
Proof.
  split.
  - intros w names lt filterId w' Hinh.
    assert (∃ l, filters w' !! filterId = Some l) as [l Hl].
    { unfold w'. rewrite getEntities_filters. fold filterId. rewrite Hinh.
      destruct (filters w !! filterId) as [l|] eqn:Hl.
      - exists l. by rewrite Hl.
      - eexists. by rewrite lookup_insert_eq. }
    assert (stats w' = count_invocation filterId (Z.of_nat (length l))
                         (stats w)) as Hst.
    { unfold w'. rewrite getEntities_stats. fold filterId. fold w'.
      by rewrite Hl. }
    rewrite Hst. unfold count_invocation.
    cbn [filterInvocationCount set_stat_systems set_filterInvocationCount
         currentSystem stat_systems].
    split.
    { intros z Hz. rewrite (bump_ordinary _ _ z) by done.
      by rewrite lookup_insert_eq. }
    split; [done|]. exists l. split; [done|].
    destruct (stat_systems (stats w) !! currentSystem (stats w)) as [sys|] eqn:Hs;
      [|done].
    intros z Hz. rewrite (bump_ordinary _ _ z) by done.
    apply list_lookup_insert_eq. by apply lookup_lt_Some in Hs.
  - intros elapsed. split; vm_compute; reflexivity.
Qed.

Lemma getEntities_counts_witness :
  let w := (createEntity createWorld).2 in
  inherited (join_comma ["pos"]) = false
  ∧ filterInvocationCount (stats (getEntities w ["pos"] (Some added)).2) !! "pos"
    = Some (CInt 1)
  ∧ filterInvocationCount
      (stats (getEntities (getEntities w ["pos"] (Some added)).2 ["pos"] None).2)
      !! "pos" = Some (CInt 2).
Proof.
  intros w. split; [reflexivity|].
  pose proof (proj1 getEntities_counts) as H. split.
  - exact (proj1 (H w ["pos"] (Some added) eq_refl) 0 eq_refl).
  - exact (proj1 (H (getEntities w ["pos"] (Some added)).2 ["pos"] None eq_refl)
             1 eq_refl).
Defined.

(** C9 fails as stated: the counters are plain objects, so for the filter
    key ["constructor"] the read of the counter gives the inherited
    function; the initialisation is skipped and [+= 1] leaves a text, not a
    count.  No list is memoized either, and the call returns the member. *)
Lemma getEntities_counts_counterexample :
  let w := (createEntity createWorld).2 in
  let r := getEntities w ["constructor"] None in
  filterInvocationCount (stats w) !! "constructor" = None
  ∧ filterInvocationCount (stats r.2) !! "constructor" = Some CText
  ∧ filterInvocationCount (stats r.2) !! "constructor" ≠ Some (CInt 1)
  ∧ filters r.2 !! "constructor" = None
  ∧ r.1 = Member "constructor".
Proof. intros w r. split_and!; try reflexivity. discriminate. Qed.

(** ** Falsy component data *)

Lemma default_data_falsy d : truthy (default_data d) = false → default_data d = d.
Proof. by destruct d. Qed.

(** A member of [Object.prototype] is a filter key of one token. *)
Lemma inherited_split filterId :
  inherited filterId = true → split_comma filterId = [filterId].
Proof.
  intros Hinh. apply includesStr_true in Hinh. unfold object_prototype in Hinh.
  repeat (apply elem_of_cons in Hinh as [->|Hinh]; [reflexivity|]).
  by apply elem_of_nil in Hinh.
Qed.

Lemma token_key_not_inherited filterId name :
  name ∈ split_comma filterId → inherited name = false →
  inherited filterId = false.
Proof.
  intros Htok Hinh. destruct (inherited filterId) eqn:HK; [|done].
  rewrite (inherited_split _ HK) in Htok.
  apply list_elem_of_singleton in Htok. congruence.
Qed.

(** C10 (as amended): for a component name that is no member of
    [Object.prototype], the matching predicate, the duplicate guard of
    [addComponentToEntity] and the absence guard of
    [removeComponentFromEntity] all test the truthiness of the stored data.
    A component added under such a name with falsy data is therefore
    stored, yet its entity matches no filter naming it and is in no query
    for it; a second add under the name goes through and counts again; a
    removal is a no-op. *)
Theorem falsy_data_is_absence :
  (∀ filterId (entity : Entity) t,
     t ∈ split_comma filterId → startsWith t "!" = false →
     inherited t = false →
     _matchesFilter filterId entity [] = true → truthy (prop entity t) = true)
  ∧ (∀ w e componentName d,
       truthy (prop (obj w e) componentName) = true →
       addComponentToEntity w e componentName d = w)
  ∧ (∀ w e componentName (deferredRemoval : bool),
       truthy (prop (obj w e) componentName) = false →
       inherited componentName = false →
       removeComponentFromEntity w e componentName deferredRemoval = w)
  ∧ (∀ w e componentName d,
       truthy (prop (obj w e) componentName) = false →
       inherited componentName = false →
       truthy (default_data d) = false →
       let w1 := addComponentToEntity w e componentName d in
       obj w1 e !! componentName = Some d
       ∧ (∀ filterId,
            componentName ∈ split_comma filterId →
            startsWith componentName "!" = false →
            _matchesFilter filterId (obj w1 e) [] = false)
       ∧ (∀ names,
            (∀ l, filters w !! join_comma names = Some l → NoDup l) →
            componentName ∈ split_comma (join_comma names) →
            startsWith componentName "!" = false →
            e ∉ (getEntities w1 names None).1)
       ∧ (∀ d2,
            let w2 := addComponentToEntity w1 e componentName d2 in
            obj w2 e !! componentName = Some (default_data d2)
            ∧ ∃ c, componentCount (stats w1) !! componentName = Some (Int c)
                ∧ componentCount (stats w2) !! componentName
                  = Some (Int (c + 1)))
       ∧ (∀ deferredRemoval : bool,
            removeComponentFromEntity w1 e componentName deferredRemoval = w1)).
Proof.
  split_and!.
  - intros K entity t Htok Hbang Hinh Hm. rewrite <- read_prop by done.
    by apply (matchesFilter_token_truthy K).
  - intros w e name d Ht. apply addComponent_noop.
    by rewrite read_truthy_prop.
  - intros w e name deferred Ht Hinh. apply removeComponent_noop.
    by rewrite read_prop.
  - intros w e name d Ht Hinh Hd w1. rewrite <- read_prop in Ht by done.
    pose proof (default_data_falsy d Hd) as Hdd.
    assert (obj w1 e = <[name := d]> (obj w e)) as Hobj.
    { unfold w1. by rewrite addComponent_obj, Hdd. }
    assert (truthy (read (obj w1 e) name) = false) as Ht1.
    { by rewrite Hobj, read_insert_eq, <- Hdd. }
    assert (∀ filterId, name ∈ split_comma filterId →
              startsWith name "!" = false →
              _matchesFilter filterId (obj w1 e) [] = false) as Hnomatch.
    { intros K Htok Hbang. apply not_true_is_false. intros Hm.
      pose proof (matchesFilter_token_truthy K _ name Htok Hbang Hm).
      congruence. }
    split_and!.
    + by rewrite Hobj, lookup_insert_eq.
    + exact Hnomatch.
    + intros names Hnd Htok Hbang Hel.
      pose proof (token_key_not_inherited _ _ Htok Hinh) as HK.
      destruct (getEntities_memo_list w1 names HK) as (l & Hr & Hmemo).
      rewrite Hr in Hel. change (e ∈ l) in Hel.
      rewrite getEntities_filters, HK in Hmemo.
      pose proof (addComponent_filters w e name d (join_comma names) Ht) as Hf1.
      fold w1 in Hf1.
      destruct (filters w !! join_comma names) as [l0|] eqn:Hl0;
        cbn [fmap option_fmap option_map] in Hf1.
      * rewrite Hf1 in Hmemo. rewrite Hf1 in Hmemo. injection Hmemo as <-.
        destruct (add_update_filter_spec
                    (<[name := default_data d]> (obj w e)) e
                    (join_comma names) l0 (Hnd l0 eq_refl)) as [_ Hmem].
        apply Hmem in Hel as [[_ Hm]|[Hne _]]; [|done].
        rewrite Hdd, <- Hobj in Hm.
        by rewrite Hnomatch in Hm.
      * rewrite Hf1, lookup_insert_eq in Hmemo. injection Hmemo as <-.
        apply bfilter_elem in Hel as [_ Hm].
        by rewrite Hnomatch in Hm.
    + intros d2 w2. split.
      * unfold w2. rewrite addComponent_obj by done.
        by rewrite lookup_insert_eq.
      * eexists. split.
        -- unfold w1. by apply addComponent_count.
        -- unfold w2. rewrite addComponent_count by done.
           unfold w1. by rewrite addComponent_count.
    + intros deferred. by apply removeComponent_noop.
Qed.

Lemma falsy_data_is_absence_witness :
  let w := (getEntities (createEntity createWorld).2 ["hp"] None).2 in
  let w1 := addComponentToEntity w 0 "hp" (VNum 0) in
  let w2 := addComponentToEntity w1 0 "hp" (VNum 9) in
  (truthy (prop (obj w 0) "hp") = false
   ∧ inherited "hp" = false
   ∧ truthy (default_data (VNum 0)) = false
   ∧ "hp" ∈ split_comma "hp" ∧ startsWith "hp" "!" = false
   ∧ (∀ l, filters w !! join_comma ["hp"] = Some l → NoDup l))
  ∧ obj w1 0 !! "hp" = Some (VNum 0)
  ∧ _matchesFilter "hp" (obj w1 0) [] = false
  ∧ (0%nat ∉ (getEntities w1 ["hp"] None).1)
  ∧ obj w2 0 !! "hp" = Some (VNum 9)
  ∧ (∃ c, componentCount (stats w1) !! "hp" = Some (Int c)
       ∧ componentCount (stats w2) !! "hp" = Some (Int (c + 1)))
  ∧ removeComponentFromEntity w1 0 "hp" false = w1
  ∧ truthy (prop (obj w2 0) "hp") = true
  ∧ addComponentToEntity w2 0 "hp" (VNum 4) = w2.
Proof.
  intros w w1 w2.
  assert (truthy (prop (obj w 0) "hp") = false) as Ht by reflexivity.
  assert (truthy (default_data (VNum 0)) = false) as Hd by reflexivity.
  assert ("hp" ∈ split_comma "hp") as Htok by apply list_elem_of_here.
  assert (∀ l, filters w !! join_comma ["hp"] = Some l → NoDup l) as Hnd.
  { intros l [= <-]. apply NoDup_nil_2. }
  assert (truthy (prop (obj w2 0) "hp") = true) as Ht2 by reflexivity.
  destruct falsy_data_is_absence as (_ & Hdup & _ & Hfalsy).
  destruct (Hfalsy w 0%nat "hp" (VNum 0) Ht eq_refl Hd)
    as (Hstored & Hnomatch & Hquery & Hagain & Hremove).
  split; [split_and!;
            [exact Ht|reflexivity|exact Hd|exact Htok|reflexivity|exact Hnd]|].
  split; [exact Hstored|].
  split; [exact (Hnomatch "hp" Htok eq_refl)|].
  split; [exact (Hquery ["hp"] Hnd Htok eq_refl)|].
  split; [exact (proj1 (Hagain (VNum 9)))|].
  split; [exact (proj2 (Hagain (VNum 9)))|].
  split; [exact (Hremove false)|].
  split; [exact Ht2|].
  exact (Hdup w2 0%nat "hp" (VNum 4) Ht2).
Defined.

(** C10 fails as stated: a new entity stores nothing under ["constructor"],
    yet it matches the filter of that name; an add of that name with the
    falsy data [0] is taken for a duplicate and stores nothing, and a
    removal of it is not a no-op. *)
Lemma falsy_data_counterexample :
  let w := (createEntity createWorld).2 in
  obj w 0 = ∅
  ∧ _matchesFilter "constructor" (obj w 0) [] = true
  ∧ addComponentToEntity w 0 "constructor" (VNum 0) = w
  ∧ obj (addComponentToEntity w 0 "constructor" (VNum 0)) 0 !! "constructor"
    = None
  ∧ removeComponentFromEntity w 0 "constructor" true ≠ w.
Proof.
  intros w. split_and!; try reflexivity.
  intros Heq. apply (f_equal removals_components) in Heq. discriminate Heq.
Qed.

(** * Further properties of the code *)

(** ** Filter keys and tokens *)

Section KeyTokens.

#[local] Arguments Ascii.eqb : simpl never.
#[local] Arguments String.eqb : simpl never.
#[local] Arguments String.append !_ _ / : simpl nomatch.

Implicit Types (names ts : list string) (entity : Entity).

Lemma split_join_comma names :
  names ≠ [] → Forall (λ n, includes n "," = false) names →
  split_comma (join_comma names) = names.
Proof.
  induction names as [|n [|n' rest] IH]; intros Hne Hall; [done| |].
  - apply Forall_cons in Hall as [Hn _]. by apply split_comma_plain.
  - apply Forall_cons in Hall as [Hn Hall].
    change (join_comma (n :: n' :: rest))
      with (n +:+ String "," (join_comma (n' :: rest))).
    rewrite split_comma_app, (split_comma_plain n Hn), IH; done.
Qed.

Lemma includesStr_false ts t : includesStr ts t = false ↔ t ∉ ts.
Proof.
  rewrite <- includesStr_true. destruct (includesStr ts t); split; congruence.
Qed.

(** The loop of [_matchesFilter] answers [true] exactly when no token is on
    the ignore list and every token holds. *)
Lemma match_tokens_spec entity ign ts :
  match_tokens entity ign ts = true ↔
  ∀ t, t ∈ ts → (t ∉ ign) ∧ token_holds entity t = true.
Proof.
  induction ts as [|t ts IH].
  - split; [|done]. intros _ t Ht. by apply elem_of_nil in Ht.
  - rewrite match_tokens_cons, !andb_true_iff, negb_true_iff, IH,
      includesStr_false. split.
    + intros [[Hi Ht] Hall] t' Ht'. apply elem_of_cons in Ht' as [->|Ht'];
        [done|by apply Hall].
    + intros Hall. split; [apply Hall, list_elem_of_here|].
      intros t' Ht'. by apply Hall, list_elem_of_further.
Qed.

End KeyTokens.

(** X1: a filter key built by [getEntities] from a non-empty list of names
    without commas splits back, in [_matchesFilter], into the same names in
    the same order; so two such lists share a key only when they are equal.
    The empty list gives the key [""], which splits into one empty token. *)
Theorem filter_key_roundtrip names :
  names ≠ [] → Forall (λ n, includes n "," = false) names →
  split_comma (join_comma names) = names
  ∧ (∀ names',
       names' ≠ [] → Forall (λ n, includes n "," = false) names' →
       join_comma names' = join_comma names → names' = names)
  ∧ split_comma (join_comma []) = [""].
Proof.
  intros Hne Hall. split_and!; [by apply split_join_comma| |done].
  intros names' Hne' Hall' Heq.
  rewrite <- (split_join_comma names' Hne' Hall'), Heq.
  by apply split_join_comma.
Qed.

Lemma filter_key_roundtrip_witness :
  (["transform"; "!hero"] ≠ []
   ∧ Forall (λ n, includes n "," = false) ["transform"; "!hero"])
  ∧ split_comma (join_comma ["transform"; "!hero"]) = ["transform"; "!hero"].
Proof.
  assert (["transform"; "!hero"] ≠ []) as Hne by discriminate.
  assert (Forall (λ n, includes n "," = false) ["transform"; "!hero"]) as Hall.
  { repeat (apply Forall_cons; split; [reflexivity|]). apply Forall_nil_2. }
  split; [done|].
  exact (proj1 (filter_key_roundtrip ["transform"; "!hero"] Hne Hall)).
Defined.

(** X2: for a component name without a comma, the string test
    [_hasComponent] holds exactly when the name is one of the tokens of the
    filter key; a negated token ["!name"] does not count as a mention. *)
Theorem hasComponent_iff_token filterId component :
  includes component "," = false →
  (_hasComponent filterId component = true
   ↔ component ∈ split_comma filterId)
  ∧ (startsWith component "!" = false →
     _hasComponent ("!" +:+ component) component = false).
Proof.
  intros Hc. split.
  - split; [by apply token_of_hasComponent|apply hasComponent_of_token].
  - intros Hbang. apply not_true_is_false. intros Hh.
    apply token_of_hasComponent in Hh; [|done].
    assert (includes ("!" +:+ component) "," = false) as Hplain.
    { change ("!" +:+ component) with (String "!" component).
      cbn [includes startsWith]. by rewrite Hc. }
    rewrite (split_comma_plain _ Hplain) in Hh.
    apply list_elem_of_singleton in Hh.
    rewrite Hh in Hbang. discriminate Hbang.
Qed.

Lemma hasComponent_iff_token_witness :
  includes "pos" "," = false
  ∧ _hasComponent "vel,pos,!hero" "pos" = true
  ∧ "pos" ∈ split_comma "vel,pos,!hero"
  ∧ _hasComponent "!pos" "pos" = false.
Proof.
  assert (includes "pos" "," = false) as Hc by reflexivity.
  assert ("pos" ∈ split_comma "vel,pos,!hero") as Hin.
  { apply list_elem_of_further, list_elem_of_here. }
  split; [done|]. split.
  - exact (proj2 (proj1 (hasComponent_iff_token "vel,pos,!hero" "pos" Hc)) Hin).
  - split; [done|].
    exact (proj2 (hasComponent_iff_token "vel,pos,!hero" "pos" Hc) eq_refl).
Defined.

(** X3: whether an entity matches depends only on the set of tokens of the
    key: their order and repetitions do not matter (though each spelling
    is a memoization key of its own). *)
Theorem matchesFilter_token_set filterId1 filterId2 (entity : Entity) ignore :
  (∀ t, t ∈ split_comma filterId1 ↔ t ∈ split_comma filterId2) →
  _matchesFilter filterId1 entity ignore = _matchesFilter filterId2 entity ignore.
Proof.
  intros Hset. unfold _matchesFilter.
  destruct (match_tokens entity ignore (split_comma filterId1)) eqn:H1;
    destruct (match_tokens entity ignore (split_comma filterId2)) eqn:H2;
    try done.
  - apply not_true_iff_false in H2. exfalso. apply H2.
    apply match_tokens_spec. intros t Ht.
    apply (proj1 (match_tokens_spec _ _ _) H1). by apply Hset.
  - apply not_true_iff_false in H1. exfalso. apply H1.
    apply match_tokens_spec. intros t Ht.
    apply (proj1 (match_tokens_spec _ _ _) H2). by apply Hset.
Qed.

Lemma matchesFilter_token_set_witness :
  (∀ t, t ∈ split_comma "a,!b" ↔ t ∈ split_comma "!b,a,a")
  ∧ ∀ entity : Entity,
      _matchesFilter "a,!b" entity [] = _matchesFilter "!b,a,a" entity [].
Proof.
  assert (∀ t, t ∈ split_comma "a,!b" ↔ t ∈ split_comma "!b,a,a") as Hset.
  { intros t. change (split_comma "a,!b") with ["a"; "!b"].
    change (split_comma "!b,a,a") with ["!b"; "a"; "a"].
    rewrite !elem_of_cons, elem_of_nil. tauto. }
  split; [done|]. intros entity.
  exact (matchesFilter_token_set "a,!b" "!b,a,a" entity [] Hset).
Defined.

(** X4: with an ignore list, [_matchesFilter] holds exactly when it holds
    without the list and no token of the key is, as written, on the list;
    with its negation mark a token is another string, so ignoring [name]
    does not touch a token ["!name"]. *)
Theorem matchesFilter_ignore_list filterId (entity : Entity) ignore :
  _matchesFilter filterId entity ignore = true
  ↔ _matchesFilter filterId entity [] = true
    ∧ ∀ t, t ∈ split_comma filterId → t ∉ ignore.
Proof.
  unfold _matchesFilter. rewrite !match_tokens_spec. split.
  - intros Hall. split.
    + intros t Ht. split; [apply not_elem_of_nil|by apply Hall].
    + intros t Ht. by apply Hall.
  - intros [Hall Hign] t Ht. split; [by apply Hign|by apply Hall].
Qed.

(** ** What every run of calls keeps *)

Section Runs.

Implicit Types (w : World) (e y : nat) (K name : string) (l : list nat).

Lemma filter_sound_ext K w w' :
  filters w' = filters w → entities w' = entities w → heap w' = heap w →
  filter_sound K w → filter_sound K w'.
Proof.
  intros Hf He Hh Hs l Hl. unfold obj. rewrite Hf in Hl. rewrite He, Hh.
  by apply Hs.
Qed.

Lemma addComponent_sound K w e name d :
  e ∈ entities w → filter_sound K w →
  filter_sound K (addComponentToEntity w e name d).
Proof.
  intros Hin Hs. unfold addComponentToEntity.
  destruct (truthy (read (obj w e) name)) eqn:Ht; [done|].
  cbn [negb]. set (entity' := <[name := default_data d]> (obj w e)).
  intros l'. cbn [filters entities]. rewrite map_lookup_imap.
  destruct (filters w !! K) as [l|] eqn:Hl; [|done]. cbn.
  intros [= <-]. destruct (Hs l Hl) as [Hnd Hmem].
  destruct (add_update_filter_spec entity' e K l Hnd) as [Hnd' Hmem'].
  split; [done|]. intros y Hy. apply Hmem' in Hy. unfold obj at 1. cbn [heap].
  destruct Hy as [[-> Hm]|[Hne Hy]].
  - by rewrite lookup_insert_eq.
  - rewrite lookup_insert_ne by done. by apply Hmem.
Qed.

Lemma removeComponent_sound K w e name :
  e ∈ entities w → heap_plain w → filter_sound K w →
  filter_sound K (_removeComponent w e name).
Proof.
  intros Hin Hplain Hs. unfold _removeComponent.
  set (entity' := delete name (obj w e)).
  intros l'. cbn [filters entities]. rewrite map_lookup_imap.
  destruct (filters w !! K) as [l|] eqn:Hl; [|done]. cbn.
  intros [= <-]. destruct (Hs l Hl) as [Hnd Hmem].
  destruct (remove_update_filter_spec entity' e name K l Hnd) as [Hnd' Hmem'].
  split; [done|]. intros y Hy. apply Hmem' in Hy. unfold obj at 1. cbn [heap].
  destruct Hy as [[Hne Hy]|[-> [[Hm _]|[Hel Hh]]]].
  - rewrite lookup_insert_ne by done. by apply Hmem.
  - by rewrite lookup_insert_eq.
  - rewrite lookup_insert_eq. cbn. split; [done|].
    apply Hmem in Hel as [_ Hold].
    apply match_tokens_delete_other; [|by apply Hplain|done].
    intros Htok. apply hasComponent_of_token in Htok. congruence.
Qed.

(** The calls keep the entity objects free of inherited names: an add under
    such a name is taken for a duplicate. *)
Lemma addComponent_plain w e name d :
  heap_plain w → heap_plain (addComponentToEntity w e name d).
Proof.
  intros Hplain. unfold addComponentToEntity.
  destruct (truthy (read (obj w e) name)) eqn:Ht; [done|].
  intros y n Hn. unfold obj. cbn [heap].
  destruct (decide (e = y)) as [<-|Hne].
  - rewrite lookup_insert_eq. cbn [default]. unfold id.
    destruct (decide (name = n)) as [->|Hnn].
    + exfalso. unfold read in Ht. rewrite (Hplain e n Hn), Hn in Ht.
      discriminate Ht.
    + rewrite lookup_insert_ne by done. by apply Hplain.
  - rewrite lookup_insert_ne by done. by apply Hplain.
Qed.

Lemma removeComponent_plain w e name :
  heap_plain w → heap_plain (_removeComponent w e name).
Proof.
  intros Hplain y n Hn. unfold _removeComponent, obj. cbn [heap].
  destruct (decide (e = y)) as [<-|Hne].
  - rewrite lookup_insert_eq. cbn [default]. unfold id.
    apply lookup_delete_None.
    right. by apply Hplain.
  - rewrite lookup_insert_ne by done. by apply Hplain.
Qed.

Lemma heap_plain_ext w w' : heap w' = heap w → heap_plain w → heap_plain w'.
Proof. intros Hh Hplain e n Hn. unfold obj. rewrite Hh. by apply Hplain. Qed.

Lemma removeEntity_inner_sound K w e w' :
  NoDup (entities w) → _removeEntity w e = Some w' →
  filter_sound K w → filter_sound K w'.
Proof.
  intros Hnd Hrm Hs.
  destruct (removeEntity_inner_spec _ _ _ Hrm)
    as (Hge & Hents & Hfs & Hheap & _).
  destruct (remove_first_spec _ e Hnd Hge) as [_ Hmem_ents].
  intros l'. rewrite Hfs, lookup_fmap.
  destruct (filters w !! K) as [l|] eqn:Hl; [|done]. cbn.
  intros [= <-]. destruct (Hs l Hl) as [Hndl Hmem].
  unfold obj. rewrite Hents, Hheap.
  destruct (indexOf_spec l e) as [[Hi Hnin]|(l1 & l2 & Hl12 & Hnin & Hi)].
  - rewrite Hi. cbn [Z.leb Z.compare]. split; [done|].
    intros y Hy. rewrite Hmem_ents. destruct (Hmem y Hy) as [Hyin Hm].
    split_and!; [done| |done]. intros ->. by apply Hnin.
  - assert (0 ≤ indexOf l e) as Hgel by lia.
    destruct (Z.leb_spec 0 (indexOf l e)) as [_|?]; [|lia].
    destruct (remove_first_spec l e Hndl Hgel) as [Hnd' Hmem'].
    split; [done|]. intros y Hy. apply Hmem' in Hy as [Hy Hne].
    rewrite Hmem_ents. destruct (Hmem y Hy) as [Hyin Hm]. done.
Qed.

Lemma createEntity_sound K w :
  world_ok w → filter_sound K w → filter_sound K (createEntity w).2.
Proof.
  intros [Hnd Hlt] Hs l. cbn [createEntity snd filters]. intros Hl.
  destruct (Hs l Hl) as [Hndl Hmem]. split; [done|].
  intros y Hy. destruct (Hmem y Hy) as [Hyin Hm]. cbn [entities].
  split; [apply elem_of_app; by left|].
  unfold obj. cbn [heap]. rewrite lookup_insert_ne; [done|].
  apply Hlt in Hyin. lia.
Qed.

Lemma getEntities_sound K w names lt :
  world_ok w → filter_sound K w → filter_sound K (getEntities w names lt).2.
Proof.
  intros [Hnd _] Hs l. unfold obj.
  rewrite getEntities_filters, getEntities_entities, getEntities_heap.
  destruct (filters w !! join_comma names) as [l0|] eqn:Hl0; [by apply Hs|].
  destruct (inherited (join_comma names)); [by apply Hs|].
  destruct (decide (join_comma names = K)) as [<-|Hne].
  - rewrite lookup_insert_eq. intros [= <-]. split.
    + by apply bfilter_NoDup.
    + intros y. by rewrite bfilter_elem.
  - rewrite lookup_insert_ne by done. by apply Hs.
Qed.

Lemma cleanup_sound w w' :
  cleanup w = Some w' →
  world_ok w → heap_plain w → (∀ K, filter_sound K w) →
  world_ok w' ∧ heap_plain w' ∧ ∀ K, filter_sound K w'.
Proof.
  intros Hclean Hok Hplain Hs. unfold cleanup in Hclean.
  set (P := λ w, world_ok w ∧ heap_plain w ∧ ∀ K, filter_sound K w).
  assert (∀ w (key : string) w', P w → True →
            cleanup_component w key = Some w' → P w') as Hstep1.
  { clear. intros w key w' (Hok & Hplain & Hs) _. unfold cleanup_component.
    destruct (at_key _ _) as [entity|] eqn:Hat; [|done]. intros [= <-].
    split; [done|]. split; [by apply removeComponent_plain|].
    intros K. apply removeComponent_sound; [|done|done].
    by apply at_key_from_elem in Hat. }
  assert (∀ w (idx : Z) w', P w → True → cleanup_entity w idx = Some w' → P w')
    as Hstep2.
  { clear. intros w idx w' (Hok & Hplain & Hs) _. unfold cleanup_entity.
    destruct (at_index _ _) as [entity|]; [|done]. intros Hrm. split_and!.
    - by apply (removeEntity_inner_ok _ _ _ Hok Hrm).
    - apply (heap_plain_ext w); [|done].
      by destruct (removeEntity_inner_spec _ _ _ Hrm) as (_ & _ & _ & ? & _).
    - intros K. by apply (removeEntity_inner_sound K _ _ _ (proj1 Hok) Hrm). }
  assert (P (emptyListeners w)) as H0.
  { split; [done|]. split; [done|]. intros K. by apply (filter_sound_ext K w). }
  destruct (run_queue cleanup_component _ _) as [w1|] eqn:Hq1; [|done].
  pose proof (run_queue_invariant P _ _ _ Hstep1 (Forall_true _ _ (λ _, I))
                _ _ H0 Hq1) as (Hok1 & Hplain1 & Hs1).
  destruct (run_queue cleanup_entity _ _) as [w3|] eqn:Hq2; [|done].
  injection Hclean as <-.
  assert (P (set_removals_components [] w1)) as H2.
  { split; [done|]. split; [done|]. intros K.
    by apply (filter_sound_ext K w1). }
  pose proof (run_queue_invariant P _ _ _ Hstep2 (Forall_true _ _ (λ _, I))
                _ _ H2 Hq2) as (Hok3 & Hplain3 & Hs3).
  split; [done|]. split; [done|]. intros K. by apply (filter_sound_ext K w3).
Qed.

Lemma call_sound w w' :
  call w w' → world_ok w → heap_plain w → (∀ K, filter_sound K w) →
  world_ok w' ∧ heap_plain w' ∧ ∀ K, filter_sound K w'.
Proof.
  intros Hcall Hok Hplain Hs.
  destruct Hcall as [w|w e name d Hin|w e name deferred Hin|w e deferred w' Hrm
                    |w names lt|w w' Hclean|w].
  - split; [by apply createEntity_ok|]. split.
    + intros y n Hn. unfold obj. cbn [createEntity snd heap].
      destruct (decide (next_ref w = y)) as [<-|Hne].
      * by rewrite lookup_insert_eq.
      * rewrite lookup_insert_ne by done. by apply Hplain.
    + intros K. by apply createEntity_sound.
  - split; [|split; [by apply addComponent_plain
                    |intros K; by apply addComponent_sound]].
    unfold addComponentToEntity. by destruct (truthy _).
  - unfold removeComponentFromEntity.
    destruct (truthy (read (obj w e) name)); [|done]. cbn [negb].
    destruct deferred.
    + destruct (negb _); (split; [done|]); (split; [done|]); intros K;
        by apply (filter_sound_ext K w).
    + split; [done|]. split; [by apply removeComponent_plain|].
      intros K. apply removeComponent_sound; [done|done|].
      by apply (filter_sound_ext K w).
  - unfold removeEntity in Hrm.
    destruct (Z.ltb (indexOf (entities w) e) 0); [by injection Hrm as <-|].
    destruct deferred.
    + destruct (negb _); injection Hrm as <-; (split; [done|]);
        (split; [done|]); intros K; by apply (filter_sound_ext K w).
    + split_and!.
      * eapply removeEntity_inner_ok; [|exact Hrm]. exact Hok.
      * apply (heap_plain_ext w); [|done].
        by destruct (removeEntity_inner_spec _ _ _ Hrm) as (_ & _ & _ & ? & _).
      * intros K.
        eapply removeEntity_inner_sound; [|exact Hrm|]; [exact (proj1 Hok)|].
        by apply (filter_sound_ext K w).
  - split; [by apply getEntities_ok|]. split.
    + apply (heap_plain_ext w); [|done]. apply getEntities_heap.
    + intros K. by apply getEntities_sound.
  - by apply (cleanup_sound w).
  - split; [done|]. split; [done|]. intros K. by apply (filter_sound_ext K w).
Qed.


(** The fields a flush leaves behind. *)
Lemma cleanup_fields w w' :
  cleanup w = Some w' →
  listeners_added w' = ((λ _, []) <$> listeners_added w)
  ∧ listeners_removed w' = ((λ _, []) <$> listeners_removed w)
  ∧ removals_entities w' = [] ∧ removals_components w' = []
  ∧ next_ref w' = next_ref w
  ∧ entityCount (stats w') = entityCount (stats w).
Proof.
  intros Hclean. unfold cleanup in Hclean.
  set (P := λ v, listeners_added v = ((λ _, []) <$> listeners_added w)
                 ∧ listeners_removed v = ((λ _, []) <$> listeners_removed w)
                 ∧ removals_components v = removals_components w
                 ∧ next_ref v = next_ref w
                 ∧ entityCount (stats v) = entityCount (stats w)).
  assert (∀ v (key : string) v', P v → True →
            cleanup_component v key = Some v' → P v') as Hstep1.
  { clear. intros v key v' HP _. unfold cleanup_component.
    destruct (at_key _ _) as [entity|]; [|done]. by intros [= <-]. }
  assert (∀ v (idx : Z) v', P v → True → cleanup_entity v idx = Some v' → P v')
    as Hstep2.
  { clear. intros v idx v' (Ha & Hr & Hc & Hn & He) _. unfold cleanup_entity.
    destruct (at_index _ _) as [entity|]; [|done]. unfold _removeEntity.
    destruct (Z.ltb _ 0); [done|]. by intros [= <-]. }
  assert (P (emptyListeners w)) as H0 by done.
  destruct (run_queue cleanup_component _ _) as [w1|] eqn:Hq1; [|done].
  pose proof (run_queue_invariant P _ _ _ Hstep1 (Forall_true _ _ (λ _, I))
                _ _ H0 Hq1) as H1.
  destruct (run_queue cleanup_entity _ _) as [w3|] eqn:Hq2; [|done].
  injection Hclean as <-.
  set (Q := λ v, listeners_added v = ((λ _, []) <$> listeners_added w)
                 ∧ listeners_removed v = ((λ _, []) <$> listeners_removed w)
                 ∧ removals_components v = []
                 ∧ next_ref v = next_ref w
                 ∧ entityCount (stats v) = entityCount (stats w)).
  assert (∀ v (idx : Z) v', Q v → True → cleanup_entity v idx = Some v' → Q v')
    as Hstep3.
  { clear. intros v idx v' (Ha & Hr & Hc & Hn & He) _. unfold cleanup_entity.
    destruct (at_index _ _) as [entity|]; [|done]. unfold _removeEntity.
    destruct (Z.ltb _ 0); [done|]. by intros [= <-]. }
  assert (Q (set_removals_components [] w1)) as H2.
  { destruct H1 as (Ha & Hr & _ & Hn & He). by split_and!. }
  pose proof (run_queue_invariant Q _ _ _ Hstep3 (Forall_true _ _ (λ _, I))
                _ _ H2 Hq2) as (Ha & Hr & Hc & Hn & He).
  by split_and!.
Qed.

Lemma getEntities_listeners_added w names lt :
  listeners_added (getEntities w names lt).2 =
  match lt with
  | Some added =>
      match listeners_added w !! join_comma names with
      | Some _ => listeners_added w
      | None =>
          if inherited (join_comma names) then listeners_added w
          else
            <[join_comma names :=
                List.filter
                  (λ e, _matchesFilter (join_comma names) (obj w e) [])
                  (entities w)]> (listeners_added w)
      end
  | _ => listeners_added w
  end.
Proof. by destruct lt as [[]|]. Qed.

Lemma getEntities_listeners_removed w names lt :
  listeners_removed (getEntities w names lt).2 =
  match lt with
  | Some removed =>
      match listeners_removed w !! join_comma names with
      | Some _ => listeners_removed w
      | None =>
          if inherited (join_comma names) then listeners_removed w
          else <[join_comma names := []]> (listeners_removed w)
      end
  | _ => listeners_removed w
  end.
Proof. by destruct lt as [[]|]. Qed.

Lemma getEntities_removals w names lt :
  removals_components (getEntities w names lt).2 = removals_components w
  ∧ removals_entities (getEntities w names lt).2 = removals_entities w.
Proof. by destruct lt as [[]|]. Qed.

Lemma call_lists w w' :
  call w w' →
  world_ok w ∧ listeners_nodup w ∧ NoDup (removals_components w) →
  world_ok w' ∧ listeners_nodup w' ∧ NoDup (removals_components w').
Proof.
  intros Hcall (Hok & [Hadd Hrem] & Hq).
  destruct Hcall as [w|w e name d Hin|w e name deferred Hin|w e deferred w' Hrm
                    |w names lt|w w' Hclean|w].
  - split; [by apply createEntity_ok|done].
  - unfold addComponentToEntity.
    destruct (truthy (read (obj w e) name)); [done|]. cbn [negb].
    split; [done|]. split; [|done]. split; [|done].
    intros K l'. cbn [listeners_added]. rewrite map_lookup_imap.
    destruct (listeners_added w !! K) as [l|] eqn:Hl; [|done]. cbn.
    intros [= <-]. unfold add_update_listener.
    destruct (_ && negb (arr_includes l e)) eqn:Hc; [|by eapply Hadd].
    apply andb_true_iff in Hc as [_ Hc]. apply negb_true_iff in Hc.
    apply arr_includes_false in Hc.
    by apply (push_spec l e (Hadd K l Hl) Hc).
  - unfold removeComponentFromEntity.
    destruct (truthy (read (obj w e) name)); [|done]. cbn [negb].
    assert (∀ K l',
              map_imap (λ filterId lst,
                Some (remove_update_listener (obj w e) e name filterId lst))
                (listeners_removed w) !! K = Some l' → NoDup l') as Hrem'.
    { intros K l'. rewrite map_lookup_imap.
      destruct (listeners_removed w !! K) as [l|] eqn:Hl; [|done]. cbn.
      intros [= <-]. unfold remove_update_listener.
      destruct (_ && _); [|by eapply Hrem].
      destruct (arr_includes l e) eqn:Hc; cbn [negb]; [by eapply Hrem|].
      apply arr_includes_false in Hc.
      by apply (push_spec l e (Hrem K l Hl) Hc). }
    destruct deferred.
    + cbn [removals_components set_listeners_removed entities].
      destruct (includesStr (removals_components w) _) eqn:Hinc; cbn [negb].
      * done.
      * split; [done|]. split; [done|].
        cbn [removals_components set_removals_components].
        apply includesStr_false in Hinc.
        apply NoDup_app. split_and!; [done| |apply NoDup_singleton].
        intros key Hkey Hkey'. apply list_elem_of_singleton in Hkey'.
        by subst.
    + done.
  - unfold removeEntity in Hrm.
    destruct (Z.ltb (indexOf (entities w) e) 0); [by injection Hrm as <-|].
    assert (∀ K l',
              map_imap (λ filterId lst,
                Some (remove_entity_listener (obj w e) e filterId lst))
                (listeners_removed w) !! K = Some l' → NoDup l') as Hrem'.
    { intros K l'. rewrite map_lookup_imap.
      destruct (listeners_removed w !! K) as [l|] eqn:Hl; [|done]. cbn.
      intros [= <-]. unfold remove_entity_listener.
      destruct (_ && negb (arr_includes l e)) eqn:Hc; [|by eapply Hrem].
      apply andb_true_iff in Hc as [_ Hc]. apply negb_true_iff in Hc.
      apply arr_includes_false in Hc.
      by apply (push_spec l e (Hrem K l Hl) Hc). }
    destruct deferred.
    + destruct (negb _); by injection Hrm as <-.
    + split; [eapply removeEntity_inner_ok; [|exact Hrm]; exact Hok|].
      destruct (removeEntity_inner_spec _ _ _ Hrm) as (_ & _ & _ & _ & _ & _ & Hc).
      rewrite Hc. unfold _removeEntity in Hrm.
      destruct (Z.ltb _ 0); [done|]. injection Hrm as <-. done.
  - split; [by apply getEntities_ok|].
    destruct Hok as [Hnd _].
    rewrite (proj1 (getEntities_removals w names lt)).
    split; [|done]. split; intros K l.
    + rewrite getEntities_listeners_added.
      destruct lt as [[]|]; [|by apply Hadd..].
      destruct (listeners_added w !! join_comma names) eqn:Hl0; [by apply Hadd|].
      destruct (inherited (join_comma names)); [by apply Hadd|].
      destruct (decide (join_comma names = K)) as [<-|Hne].
      * rewrite lookup_insert_eq. intros [= <-]. by apply bfilter_NoDup.
      * rewrite lookup_insert_ne by done. by apply Hadd.
    + rewrite getEntities_listeners_removed.
      destruct lt as [[]|]; [by apply Hrem| |by apply Hrem].
      destruct (listeners_removed w !! join_comma names) eqn:Hl0;
        [by apply Hrem|].
      destruct (inherited (join_comma names)); [by apply Hrem|].
      destruct (decide (join_comma names = K)) as [<-|Hne].
      * rewrite lookup_insert_eq. intros [= <-]. apply NoDup_nil_2.
      * rewrite lookup_insert_ne by done. by apply Hrem.
  - destruct (cleanup_fields _ _ Hclean) as (Ha & Hr & _ & Hc & _).
    split.
    + unfold cleanup in Hclean.
      destruct (run_queue cleanup_component _ _) as [w1|] eqn:Hq1; [|done].
      destruct (run_queue cleanup_entity _ _) as [w3|] eqn:Hq2; [|done].
      injection Hclean as <-.
      assert (world_ok w1) as Hok1.
      { revert Hq1. apply (run_queue_invariant world_ok (λ _, True)).
        - clear. intros v key v' Hv _. unfold cleanup_component.
          destruct (at_key _ _); [|done]. by intros [= <-].
        - by apply Forall_true.
        - exact Hok. }
      revert Hq2.
      apply (run_queue_invariant world_ok (λ _, True)); [| |exact Hok1].
      * clear. intros v idx v' Hv _. unfold cleanup_entity.
        destruct (at_index _ _); [|done]. intros Hrm.
        by apply (removeEntity_inner_ok _ _ _ Hv Hrm).
      * by apply Forall_true.
    + rewrite Hc. split; [|apply NoDup_nil_2]. split; intros K l.
      * rewrite Ha, lookup_fmap. destruct (_ !! K); [|done].
        intros [= <-]. apply NoDup_nil_2.
      * rewrite Hr, lookup_fmap. destruct (_ !! K); [|done].
        intros [= <-]. apply NoDup_nil_2.
  - done.
Qed.

Lemma sample_run_reachable : reachable sample_run.
Proof.
  unfold reachable.
  apply rtc_r with run6; [apply rtc_r with run5; [apply rtc_r with run4;
    [apply rtc_r with run3; [apply rtc_r with run2; [apply rtc_r with run1;
      [apply rtc_once|] |] |] |] |] |].
  - apply call_createEntity.
  - apply (call_getEntities run1 ["!y"] (Some added)).
  - apply call_createEntity.
  - apply (call_addComponent run3 1%nat "y" VUndefined).
    apply (bool_decide_unpack _). vm_compute. exact I.
  - apply (call_removeComponent run4 1%nat "y" true).
    apply (bool_decide_unpack _). vm_compute. exact I.
  - apply (call_removeEntity run5 0%nat true). vm_compute. reflexivity.
  - apply call_cleanup. vm_compute. reflexivity.
Qed.

End Runs.

(** X5: in every world reached from [createWorld] by calls of the public
    interface (components being added to and removed from entities of the
    world), the entities are distinct objects, and no memoized filter list
    ever holds a duplicate, an entity that has left the world, or an entity
    that does not match its filter. *)
Theorem reachable_filters_sound w :
  reachable w → world_ok w ∧ ∀ filterId, filter_sound filterId w.
Proof.
  intros Hreach.
  cut (world_ok w ∧ heap_plain w ∧ ∀ K, filter_sound K w); [tauto|].
  apply (rtc_ind_r (R := call)
           (λ w, world_ok w ∧ heap_plain w ∧ ∀ K, filter_sound K w)
           createWorld); [| |exact Hreach].
  - split_and!.
    + split; [apply NoDup_nil_2|]. intros e He. by apply elem_of_nil in He.
    + done.
    + intros K l Hl. discriminate Hl.
  - intros w1 w2 _ Hcall (Hok & Hplain & Hs). by apply (call_sound w1 w2).
Qed.

Lemma reachable_filters_sound_witness :
  reachable sample_run
  ∧ (world_ok sample_run ∧ ∀ filterId, filter_sound filterId sample_run)
  ∧ entities sample_run = [1%nat]
  ∧ filters sample_run !! "!y" = Some [1%nat].
Proof.
  split; [exact sample_run_reachable|]. split.
  - exact (reachable_filters_sound sample_run sample_run_reachable).
  - split; vm_compute; reflexivity.
Defined.

(** X6: in every such world no listener list, added or removed, holds an
    entity twice, and no component removal is queued twice. *)
Theorem reachable_lists_nodup w :
  reachable w → listeners_nodup w ∧ NoDup (removals_components w).
Proof.
  intros Hreach.
  cut (world_ok w ∧ listeners_nodup w ∧ NoDup (removals_components w));
    [tauto|].
  apply (rtc_ind_r (R := call)
           (λ w, world_ok w ∧ listeners_nodup w
                 ∧ NoDup (removals_components w)) createWorld);
    [| |exact Hreach].
  - split_and!.
    + split; [apply NoDup_nil_2|]. intros e He. by apply elem_of_nil in He.
    + split; intros K l Hl; discriminate Hl.
    + apply NoDup_nil_2.
  - intros w1 w2 _ Hcall Hinv. by apply (call_lists w1 w2).
Qed.

Lemma reachable_lists_nodup_witness :
  reachable sample_run
  ∧ (listeners_nodup sample_run ∧ NoDup (removals_components sample_run)).
Proof.
  split; [exact sample_run_reachable|].
  exact (reachable_lists_nodup sample_run sample_run_reachable).
Defined.

(** ** A negated filter *)

Section Negated.


End Negated.



(** ** The flush at the end of a frame *)

Section Flush.

Implicit Types (w : World) (e : nat) (l : list nat) (q : list Z).

Lemma getEntities_result w names lt :
  (getEntities w names lt).1 =
  lists_read
    match lt with
    | Some added => listeners_added (getEntities w names lt).2
    | Some removed => listeners_removed (getEntities w names lt).2
    | None => filters (getEntities w names lt).2
    end (join_comma names).
Proof. by destruct lt as [[]|]. Qed.

Lemma indexOf_lt_length l e : indexOf l e < Z.of_nat (length l).
Proof.
  destruct (indexOf_spec l e) as [[-> _]|(l1 & l2 & -> & _ & ->)]; [lia|].
  rewrite length_app. cbn [length]. lia.
Qed.

Lemma indexOf_lookup l (n : nat) e :
  NoDup l → l !! n = Some e → indexOf l e = Z.of_nat n.
Proof.
  intros Hnd Hn.
  destruct (indexOf_spec l e) as [[_ Hnin]|(l1 & l2 & Hl & _ & ->)].
  - exfalso. apply Hnin. apply list_elem_of_lookup. by eexists.
  - f_equal. apply (NoDup_lookup l _ _ e Hnd); [|done].
    rewrite Hl. by apply list_lookup_middle.
Qed.

(** Each turn of the entity loop shortens [world.entities] by one. *)
Lemma cleanup_entity_length w idx w' :
  cleanup_entity w idx = Some w' →
  (length (entities w') + 1 = length (entities w))%nat.
Proof.
  unfold cleanup_entity. destruct (at_index _ _) as [e|]; [|done].
  intros Hrm. destruct (removeEntity_inner_spec _ _ _ Hrm) as (Hge & -> & _).
  pose proof (indexOf_lt_length (entities w) e).
  unfold removeItems. rewrite length_app, length_take, length_drop. lia.
Qed.

Lemma run_entities_length q : ∀ w w',
  run_queue cleanup_entity q w = Some w' →
  (length (entities w') + length q = length (entities w))%nat.
Proof.
  induction q as [|i q IH]; intros w w'; cbn [run_queue length].
  - intros [= <-]. lia.
  - destruct (cleanup_entity w i) as [w1|] eqn:Hs; [|done]. intros Hrun.
    apply IH in Hrun. apply cleanup_entity_length in Hs. lia.
Qed.

Lemma cleanup_length w w' :
  cleanup w = Some w' →
  (length (entities w') + length (removals_entities w)
   = length (entities w))%nat.
Proof.
  intros Hclean. unfold cleanup in Hclean.
  set (P := λ v, entities v = entities w
                 ∧ removals_entities v = removals_entities w).
  assert (∀ v (key : string) v', P v → True →
            cleanup_component v key = Some v' → P v') as Hstep.
  { clear. intros v key v' HP _. unfold cleanup_component.
    destruct (at_key _ _) as [entity|]; [|done]. by intros [= <-]. }
  assert (P (emptyListeners w)) as H0 by done.
  destruct (run_queue cleanup_component _ _) as [w1|] eqn:Hq1; [|done].
  pose proof (run_queue_invariant P _ _ _ Hstep (Forall_true _ _ (λ _, I))
                _ _ H0 Hq1) as [He Hq].
  destruct (run_queue cleanup_entity _ _) as [w3|] eqn:Hq2; [|done].
  injection Hclean as <-. apply run_entities_length in Hq2.
  cbn [entities removals_entities set_removals_components
       set_removals_entities] in *.
  rewrite <- He, <- Hq. exact Hq2.
Qed.

Lemma orderedInsert_length q v :
  length (orderedInsert q v) = S (length q).
Proof.
  destruct (orderedInsert_spec q v) as (q1 & q2 & -> & -> & _).
  rewrite !length_app. cbn [length]. lia.
Qed.

(** Positions below the one removed keep their elements. *)
Lemma without_positions_below i q l :
  Forall (λ j, j < i) q → without_positions i q l = l.
Proof.
  revert i. induction l as [|x l IH]; intros i Hq; [done|].
  cbn [without_positions].
  assert (includesZ q i = false) as ->.
  { apply not_true_is_false. intros Hin. apply includesZ_true in Hin.
    rewrite Forall_forall in Hq. specialize (Hq i Hin). lia. }
  f_equal. apply IH. eapply Forall_impl; [exact Hq|]. intros j Hj. cbn in *. lia.
Qed.

Lemma without_positions_delete (n : nat) : ∀ i q l,
  Forall (λ j, j < i + Z.of_nat n) q →
  without_positions i q (delete n l)
  = without_positions i ((i + Z.of_nat n) :: q) l.
Proof.
  induction n as [|n IH]; intros i q [|x l] Hq; try done.
  - cbn [delete list_delete without_positions includesZ existsb].
    rewrite Z.add_0_r, Z.eqb_refl. cbn [orb].
    rewrite Z.add_0_r in Hq.
    rewrite !without_positions_below; [done| |done].
    apply Forall_cons. split; [lia|].
    eapply Forall_impl; [exact Hq|]. intros j Hj. cbn in *. lia.
  - cbn [delete list_delete without_positions includesZ existsb].
    assert (Z.eqb i (i + Z.of_nat (S n)) = false) as -> by (apply Z.eqb_neq; lia).
    cbn [orb]. fold (includesZ q i).
    replace (i + Z.of_nat (S n)) with (i + 1 + Z.of_nat n) in * by lia.
    destruct (includesZ q i); [|f_equal]; apply (IH (i + 1) q l Hq).
Qed.

(** The entity loop of the flush, for a queue that runs strictly downwards
    through positions of the list. *)
Lemma run_entities_positions q : ∀ w,
  NoDup (entities w) →
  StronglySorted Z.gt q →
  Forall (λ i, 0 ≤ i < Z.of_nat (length (entities w))) q →
  ∃ w', run_queue cleanup_entity q w = Some w'
    ∧ entities w' = without_positions 0 q (entities w).
Proof.
  induction q as [|i q IH]; intros w Hnd Hsorted Hrange.
  - exists w. split; [done|]. symmetry. by apply without_positions_below.
  - apply StronglySorted_inv in Hsorted as [Hsorted Hbelow].
    apply Forall_cons in Hrange as [Hi Hrange]. cbn [run_queue].
    unfold cleanup_entity at 1. unfold at_index.
    destruct (Z.ltb_spec i 0) as [|_]; [lia|].
    destruct (lookup_lt_is_Some_2 (entities w) (Z.to_nat i)) as [e He]; [lia|].
    rewrite He. unfold _removeEntity.
    rewrite (indexOf_lookup _ _ _ Hnd He), Z2Nat.id by lia.
    destruct (Z.ltb_spec i 0) as [|_]; [lia|].
    set (w1 := mkWorld _ _ _ _ _ _ _ _ _).
    assert (entities w1 = delete (Z.to_nat i) (entities w)) as Hents1.
    { unfold w1. cbn [entities]. unfold removeItems.
      by rewrite delete_take_drop, Nat.add_1_r. }
    destruct (IH w1) as (w' & Hrun & Hents').
    + rewrite Hents1.
      apply (sublist_NoDup _ (entities w)); [done|apply sublist_delete].
    + done.
    + rewrite Hents1, length_delete by (by eexists).
      rewrite Forall_forall in Hbelow, Hrange. apply Forall_forall.
      intros j Hj. specialize (Hbelow j Hj). specialize (Hrange j Hj). lia.
    + exists w'. split; [done|]. rewrite Hents', Hents1.
      rewrite (without_positions_delete (Z.to_nat i) 0 q).
      * by rewrite Z.add_0_l, Z2Nat.id by lia.
      * rewrite Z.add_0_l, Z2Nat.id by lia.
        eapply Forall_impl; [exact Hbelow|]. intros j Hj. cbn in *. lia.
Qed.

End Flush.

(** X7: a [cleanup] that completes leaves every listener list, added and
    removed, empty under its key, and both removal queues empty; so an
    "added" query of a key that already had its list gets the empty list,
    without a new seeding. *)
Theorem cleanup_clears w w' names :
  cleanup w = Some w' →
  (∀ filterId, listeners_added w' !! filterId
               = (λ _, []) <$> listeners_added w !! filterId)
  ∧ (∀ filterId, listeners_removed w' !! filterId
                 = (λ _, []) <$> listeners_removed w !! filterId)
  ∧ removals_entities w' = [] ∧ removals_components w' = []
  ∧ (is_Some (listeners_added w !! join_comma names) →
     (getEntities w' names (Some added)).1 = []).
Proof.
  intros Hclean.
  destruct (cleanup_fields _ _ Hclean) as (Ha & Hr & Hqe & Hqc & _).
  split_and!; try done.
  - intros K. by rewrite Ha, lookup_fmap.
  - intros K. by rewrite Hr, lookup_fmap.
  - intros [l Hl]. rewrite getEntities_result, getEntities_listeners_added.
    assert (listeners_added w' !! join_comma names = Some []) as Hl'.
    { by rewrite Ha, lookup_fmap, Hl. }
    unfold lists_read. by rewrite Hl', Hl'.
Qed.

Lemma cleanup_clears_witness :
  cleanup run6 = Some sample_run
  ∧ listeners_added run6 !! "!y" = Some [0%nat]
  ∧ listeners_added sample_run !! "!y" = Some []
  ∧ removals_entities run6 = [0]
  ∧ removals_components run6 = ["1__@@ECS@@__y"]
  ∧ removals_entities sample_run = [] ∧ removals_components sample_run = []
  ∧ (getEntities sample_run ["!y"] (Some added)).1 = [].
Proof.
  assert (cleanup run6 = Some sample_run) as Hclean
    by (vm_compute; reflexivity).
  assert (listeners_added run6 !! "!y" = Some [0%nat]) as Hl
    by (vm_compute; reflexivity).
  destruct (cleanup_clears run6 sample_run ["!y"] Hclean)
    as (Ha & _ & Hqe & Hqc & Hquery).
  split; [exact Hclean|]. split; [exact Hl|]. split.
  { rewrite Ha. change (listeners_added run6 !! "!y") with (Some [0%nat]).
    reflexivity. }
  split; [vm_compute; reflexivity|]. split; [vm_compute; reflexivity|].
  split; [exact Hqe|]. split; [exact Hqc|].
  apply Hquery. exists [0%nat]. exact Hl.
Defined.

(** X8: with distinct entities, no component removal pending and an entity
    queue that runs strictly downwards through positions of
    [world.entities], [cleanup] completes and leaves exactly the entities
    at the positions that were not queued, in their order. *)
Theorem cleanup_removes_queued w :
  NoDup (entities w) →
  removals_components w = [] →
  StronglySorted Z.gt (removals_entities w) →
  Forall (λ i, 0 ≤ i < Z.of_nat (length (entities w))) (removals_entities w) →
  ∃ w', cleanup w = Some w'
    ∧ entities w' = without_positions 0 (removals_entities w) (entities w).
Proof.
  intros Hnd Hc Hsorted Hrange. unfold cleanup, emptyListeners.
  cbn [removals_components set_listeners_removed set_listeners_added].
  rewrite Hc.
  cbn [run_queue removals_entities set_removals_components
       set_listeners_removed set_listeners_added].
  destruct (run_entities_positions (removals_entities w)
              (set_removals_components []
                 (set_listeners_removed ((λ _, []) <$> listeners_removed w)
                    (set_listeners_added ((λ _, []) <$> listeners_added w) w)))
              Hnd Hsorted Hrange) as (w' & -> & Hents).
  eexists. split; [reflexivity|]. exact Hents.
Qed.

Lemma cleanup_removes_queued_witness :
  let w := set_removals_entities [4; 2; 0] five_entities in
  (NoDup (entities w) ∧ removals_components w = []
   ∧ StronglySorted Z.gt (removals_entities w)
   ∧ Forall (λ i, 0 ≤ i < Z.of_nat (length (entities w))) (removals_entities w))
  ∧ ∃ w', cleanup w = Some w'
      ∧ entities w' = without_positions 0 (removals_entities w) (entities w)
      ∧ without_positions 0 (removals_entities w) (entities w) = [1; 3]%nat.
Proof.
  intros w.
  assert (NoDup (entities w)) as Hnd.
  { apply (bool_decide_unpack _). vm_compute. exact I. }
  assert (StronglySorted Z.gt (removals_entities w)) as Hs.
  { repeat (constructor; [|repeat (apply Forall_cons; split; [done|]);
                           apply Forall_nil_2]). constructor. }
  assert (Forall (λ i, 0 ≤ i < Z.of_nat (length (entities w)))
            (removals_entities w)) as Hr.
  { repeat (apply Forall_cons; split; [vm_compute; by split|]).
    apply Forall_nil_2. }
  split; [split_and!; [exact Hnd|reflexivity|exact Hs|exact Hr]|].
  destruct (cleanup_removes_queued w Hnd eq_refl Hs Hr) as (w' & Hc & He).
  exists w'. split; [exact Hc|]. split; [exact He|]. vm_compute. reflexivity.
Defined.

(** X9: [stats.entityCount] counts the entities that are not queued for
    removal: [createEntity], a deferred [removeEntity] and a completed
    [cleanup] keep it so.  A non-deferred [removeEntity] takes the entity
    out of [world.entities] and leaves [entityCount] as it was. *)
Theorem entityCount_accounting :
  (∀ w, count_balanced w → count_balanced (createEntity w).2)
  ∧ (∀ w e w',
       removeEntity w e true = Some w' → count_balanced w → count_balanced w')
  ∧ (∀ w w', cleanup w = Some w' → count_balanced w → count_balanced w')
  ∧ (∀ w e w',
       e ∈ entities w → removeEntity w e false = Some w' →
       entityCount (stats w') = entityCount (stats w)
       ∧ (length (entities w') + 1 = length (entities w))%nat
       ∧ removals_entities w' = removals_entities w).
Proof.
  unfold count_balanced. split_and!.
  - intros w Hb. cbn. rewrite length_app. cbn [length]. lia.
  - intros w e w' Hrm Hb.
    destruct (indexOf_spec (entities w) e) as [[Hi _]|(l1 & l2 & _ & _ & Hi)].
    + unfold removeEntity in Hrm. rewrite Hi in Hrm. by injection Hrm as <-.
    + destruct (removeEntity_deferred w e) as
        (w1 & Hw1 & _ & _ & Hents & _ & _ & _ & _ & Hq & Hst); [lia|].
      rewrite Hw1 in Hrm. injection Hrm as <-. rewrite Hents, Hq, Hst.
      destruct (includesZ _ _); [done|]. cbn [entityCount set_entityCount].
      rewrite orderedInsert_length. lia.
  - intros w w' Hclean Hb.
    destruct (cleanup_fields _ _ Hclean) as (_ & _ & Hqe & _ & _ & Hcount).
    pose proof (cleanup_length _ _ Hclean). rewrite Hcount, Hqe, Hb.
    cbn [length]. lia.
  - intros w e w' Hin Hrm. pose proof (indexOf_elem _ _ Hin) as Hge0.
    unfold removeEntity in Hrm.
    destruct (Z.ltb_spec (indexOf (entities w) e) 0) as [|_]; [lia|].
    destruct (removeEntity_inner_spec _ _ _ Hrm)
      as (Hge & Hents & _ & _ & _ & Hq & _).
    cbn [entities set_listeners_removed removals_entities] in Hents, Hq, Hge.
    split_and!; [|rewrite Hents|done].
    + unfold _removeEntity in Hrm.
      destruct (Z.ltb _ 0); [done|]. by injection Hrm as <-.
    + pose proof (indexOf_lt_length (entities w) e).
      unfold removeItems. rewrite length_app, length_take, length_drop. lia.
Qed.

Lemma entityCount_accounting_witness :
  let w := five_entities in
  let w1 := default w (removeEntity w 2 true) in
  let w2 := default w1 (cleanup w1) in
  let w3 := default w (removeEntity w 2 false) in
  (count_balanced w ∧ removeEntity w 2 true = Some w1
   ∧ cleanup w1 = Some w2
   ∧ 2%nat ∈ entities w ∧ removeEntity w 2 false = Some w3)
  ∧ count_balanced (createEntity w).2
  ∧ count_balanced w1 ∧ count_balanced w2
  ∧ (entityCount (stats w3) = entityCount (stats w)
     ∧ (length (entities w3) + 1 = length (entities w))%nat
     ∧ removals_entities w3 = removals_entities w)
  ∧ entityCount (stats w2) = 4 ∧ entityCount (stats w3) = 5
  ∧ entities w3 = [0; 1; 3; 4]%nat.
Proof.
  intros w w1 w2 w3.
  assert (count_balanced w) as Hb by (vm_compute; reflexivity).
  assert (removeEntity w 2 true = Some w1) as H1 by (vm_compute; reflexivity).
  assert (cleanup w1 = Some w2) as H2 by (vm_compute; reflexivity).
  assert (2%nat ∈ entities w) as Hin.
  { apply (bool_decide_unpack _). vm_compute. exact I. }
  assert (removeEntity w 2 false = Some w3) as H3 by (vm_compute; reflexivity).
  destruct entityCount_accounting as (Hcreate & Hdefer & Hflush & Hnow).
  pose proof (Hdefer w 2%nat w1 H1 Hb) as Hb1.
  split; [split_and!; [exact Hb|exact H1|exact H2|exact Hin|exact H3]|].
  split; [exact (Hcreate w Hb)|]. split; [exact Hb1|].
  split; [exact (Hflush w1 w2 H2 Hb1)|].
  split; [exact (Hnow w 2%nat w3 Hin H3)|].
  split_and!; vm_compute; reflexivity.
Defined.

(** ** Deferred removal of a component *)

Section DeferredComponent.

#[local] Arguments Ascii.eqb : simpl never.
#[local] Arguments String.eqb : simpl never.
#[local] Arguments String.append !_ _ / : simpl nomatch.

Implicit Types (w : World) (e : nat) (a b name : string).

(** Up to its first underscore, a queued key is the index part. *)
Lemma split_go_index a b :
  includes a "_" = false →
  split_go removal_sep 0 (a +:+ removal_sep +:+ b)
  = a :: split_go removal_sep 0 b.
Proof.
  induction a as [|x a IH]; intros Ha.
  - reflexivity.
  - cbn [includes startsWith] in Ha. rewrite andb_true_r in Ha.
    apply orb_false_iff in Ha as [Hx Ha].
    change (String x a +:+ removal_sep +:+ b)
      with (String x (a +:+ removal_sep +:+ b)).
    cbn [split_go].
    assert (startsWith (String x (a +:+ removal_sep +:+ b)) removal_sep
            = false) as ->.
    { unfold removal_sep. cbn [startsWith]. by rewrite Hx. }
    by rewrite (IH Ha).
Qed.

(** A name that does not hold the separator is read back whole. *)
Lemma split_go_plain b :
  includes b removal_sep = false → split_go removal_sep 0 b = [b].
Proof.
  induction b as [|x b IH]; intros Hb; [done|].
  cbn [includes] in Hb. apply orb_false_iff in Hb as [Hx Hb].
  cbn [split_go]. by rewrite Hx, (IH Hb).
Qed.

(** Decimal spellings hold digits only. *)
Lemma pretty_N_go_plain (x : N) s :
  includes s "_" = false → includes (pretty_N_go x s) "_" = false.
Proof.
  revert s. induction (N.lt_wf_0 x) as [x _ IH]; intros s Hs.
  assert (x = 0 ∨ 0 < x)%N as [->|Hpos] by lia.
  - by rewrite pretty_N_go_0.
  - rewrite pretty_N_go_step by done. apply IH.
    { by apply N.div_lt. }
    cbn [includes startsWith]. rewrite Hs, andb_true_r, orb_false_r.
    unfold pretty_N_char. by repeat case_match.
Qed.

Lemma pretty_nat_plain (n : nat) : includes (pretty n) "_" = false.
Proof.
  unfold pretty, pretty_nat, pretty, pretty_N.
  destruct (decide (N.of_nat n = 0%N)); [done|]. by apply pretty_N_go_plain.
Qed.

Lemma pretty_Z_of_nat (n : nat) : pretty (Z.of_nat n) = pretty n.
Proof. by destruct n. Qed.

(** An array element is found under the spelling of its index. *)
Lemma at_key_from_nat {A} (arr : list A) (k i : nat) :
  at_key_from k arr (pretty (k + i)%nat) = arr !! i.
Proof.
  revert k i. induction arr as [|x arr IH]; intros k i; [done|].
  cbn [at_key_from].
  destruct (String.eqb_spec (pretty k) (pretty (k + i)%nat)) as [Heq|Hne].
  - apply (inj pretty) in Heq. by replace i with 0%nat by lia.
  - destruct i as [|i]; [by rewrite Nat.add_0_r in Hne|].
    replace (k + S i)%nat with (S k + i)%nat by lia. by rewrite IH.
Qed.

Lemma at_key_nat {A} (arr : list A) (i : nat) : at_key arr (pretty i) = arr !! i.
Proof. apply (at_key_from_nat arr 0 i). Qed.

(** The key queued for an entity of the world is read back by [cleanup] as
    that entity and that name. *)
Lemma cleanup_component_key w0 w e name :
  entities w0 = entities w → e ∈ entities w →
  includes name removal_sep = false →
  cleanup_component w0
    (pretty (indexOf (entities w) e) +:+ removal_sep +:+ name)
  = Some (_removeComponent w0 e name).
Proof.
  intros Hsame Hin Hname.
  destruct (indexOf_spec (entities w) e)
    as [[_ Hnin]|(l1 & l2 & Hents & Hnin & Hi)]; [done|].
  unfold cleanup_component.
  rewrite Hi, pretty_Z_of_nat, split_go_index by apply pretty_nat_plain.
  rewrite split_go_plain by done. cbn [lookup list_lookup default]. unfold id.
  rewrite at_key_nat, Hsame, Hents, list_lookup_middle by done. done.
Qed.

End DeferredComponent.

(** X10: a component removed with deferral from an entity of the world
    stays on the entity, and the filter lists stay as they are, until the
    flush; with nothing else queued, and a name that does not hold the
    separator of the queue keys, [cleanup] then completes and leaves the
    entity objects, the filter lists, the entities and the statistics that
    the immediate removal gives. *)
Theorem deferred_component_flush w e componentName :
  e ∈ entities w →
  truthy (prop (obj w e) componentName) = true →
  includes componentName removal_sep = false →
  removals_components w = [] → removals_entities w = [] →
  let deferred := removeComponentFromEntity w e componentName true in
  let immediate := removeComponentFromEntity w e componentName false in
  (heap deferred = heap w ∧ filters deferred = filters w
   ∧ stats deferred = stats w)
  ∧ ∃ w', cleanup deferred = Some w'
      ∧ heap w' = heap immediate ∧ filters w' = filters immediate
      ∧ entities w' = entities immediate ∧ stats w' = stats immediate
      ∧ obj w' e !! componentName = None.
Proof.
  intros Hin Ht Hname Hqc Hqe deferred immediate.
  rewrite <- (read_truthy_prop _ _ Ht) in Ht.
  assert (deferred
          = set_removals_components
              [pretty (indexOf (entities w) e) +:+ removal_sep +:+ componentName]
              (set_listeners_removed
                 (map_imap (λ filterId lst,
                    Some (remove_update_listener (obj w e) e componentName
                            filterId lst)) (listeners_removed w)) w)) as Hdef.
  { unfold deferred, removeComponentFromEntity. rewrite Ht. cbn [negb].
    cbn [removals_components set_listeners_removed entities]. by rewrite Hqc. }
  assert (immediate
          = _removeComponent
              (set_listeners_removed
                 (map_imap (λ filterId lst,
                    Some (remove_update_listener (obj w e) e componentName
                            filterId lst)) (listeners_removed w)) w)
              e componentName) as Himm.
  { unfold immediate, removeComponentFromEntity. by rewrite Ht. }
  split; [by rewrite Hdef|].
  rewrite Hdef, Himm. unfold cleanup, emptyListeners.
  cbn [removals_components set_removals_components set_listeners_removed
       set_listeners_added run_queue].
  rewrite (cleanup_component_key _ w e componentName);
    [|reflexivity|exact Hin|exact Hname].
  cbn [removals_entities _removeComponent set_removals_components
       set_listeners_removed set_listeners_added].
  rewrite Hqe. cbn [run_queue]. eexists. split; [reflexivity|].
  split_and!; try reflexivity.
  unfold obj at 1. unfold _removeComponent.
  cbn [heap set_removals_entities set_removals_components].
  rewrite lookup_insert_eq. apply lookup_delete_eq.
Qed.

Lemma deferred_component_flush_witness :
  let w := five_entities in
  let deferred := removeComponentFromEntity w 0 "a" true in
  let immediate := removeComponentFromEntity w 0 "a" false in
  (0%nat ∈ entities w ∧ truthy (prop (obj w 0) "a") = true
   ∧ includes "a" removal_sep = false
   ∧ removals_components w = [] ∧ removals_entities w = [])
  ∧ (filters deferred !! "a" = Some [0%nat]
     ∧ removals_components deferred = ["0__@@ECS@@__a"])
  ∧ ∃ w', cleanup deferred = Some w'
      ∧ heap w' = heap immediate ∧ filters w' = filters immediate
      ∧ entities w' = entities immediate ∧ stats w' = stats immediate
      ∧ obj w' 0 !! "a" = None.
Proof.
  intros w deferred immediate.
  assert (0%nat ∈ entities w) as Hin.
  { apply (bool_decide_unpack _). vm_compute. exact I. }
  assert (truthy (prop (obj w 0) "a") = true) as Ht by (vm_compute; reflexivity).
  split; [split_and!; [exact Hin|exact Ht|reflexivity..]|].
  split; [split; vm_compute; reflexivity|].
  exact (proj2 (deferred_component_flush w 0%nat "a" Hin Ht eq_refl
                  eq_refl eq_refl)).
Defined.

(** ** Components and counters *)

Section Counters.

Implicit Types (w : World) (e : nat) (name K : string) (entity : Entity).

(** The counter loop of [_removeEntity]: one less for each component with
    truthy data, the other counters as they were. *)
Lemma fold_counts (cc : gmap string Number) entity n :
  map_fold (λ componentName v (cc : gmap string Number),
     if truthy v
     then <[componentName := num_add (cc !! componentName) (-1)]> cc
     else cc) cc entity !! n
  = if truthy (prop entity n) then Some (num_add (cc !! n) (-1)) else cc !! n.
Proof.
  revert n.
  apply (map_fold_weak_ind
           (λ (r : gmap string Number) (m : Entity), ∀ n,
              r !! n = if truthy (prop m n)
                       then Some (num_add (cc !! n) (-1)) else cc !! n)).
  - intros n. unfold prop. by rewrite lookup_empty.
  - intros i x m r Hi IH n. unfold prop in *.
    destruct (decide (i = n)) as [->|Hne].
    + rewrite lookup_insert_eq. cbn [default]. unfold id.
      specialize (IH n). rewrite Hi in IH. cbn in IH.
      destruct (truthy x); [|done]. by rewrite lookup_insert_eq, IH.
    + rewrite (lookup_insert_ne m) by done.
      destruct (truthy x); [|by apply IH].
      rewrite lookup_insert_ne by done. by apply IH.
Qed.

(** The fields an effective immediate removal of a component leaves. *)
Lemma removeComponent_now_fields w e name :
  truthy (read (obj w e) name) = true →
  let w' := removeComponentFromEntity w e name false in
  heap w' = <[e := delete name (obj w e)]> (heap w)
  ∧ entities w' = entities w
  ∧ stats w'
    = set_componentCount
        (assign name (num_add (componentCount (stats w) !! name) (-1))
           (componentCount (stats w))) (stats w).
Proof.
  intros Ht. unfold removeComponentFromEntity. rewrite Ht. cbn [negb].
  unfold _removeComponent.
  change (obj (set_listeners_removed _ w) e) with (obj w e). by rewrite Ht.
Qed.

End Counters.

(** X11: an entity object without the component, to which the component is
    added with truthy data, under a name that is no member of
    [Object.prototype], and from which it is at once removed again, is as
    it was, and so is the store of objects; the counter of the component is
    back at the integer it stood at, or at 0 when it held no integer
    before, and no other counter moved. *)
Theorem add_remove_roundtrip w e (entity : Entity) componentName d :
  heap w !! e = Some entity → entity !! componentName = None →
  inherited componentName = false →
  truthy (default_data d) = true →
  let w' := removeComponentFromEntity
              (addComponentToEntity w e componentName d) e componentName false in
  heap w' = heap w ∧ entities w' = entities w
  ∧ entityCount (stats w') = entityCount (stats w)
  ∧ componentCount (stats w') !! componentName
    = Some (Int (count_base (componentCount (stats w) !! componentName)))
  ∧ ∀ n, n ≠ componentName →
      componentCount (stats w') !! n = componentCount (stats w) !! n.
Proof.
  intros Hheap Habsent Hinh Hd w'.
  assert (obj w e = entity) as Hobj by (unfold obj; by rewrite Hheap).
  assert (truthy (read (obj w e) componentName) = false) as Ht.
  { rewrite Hobj. unfold read. by rewrite Habsent, Hinh. }
  set (w1 := addComponentToEntity w e componentName d) in *.
  assert (obj w1 e = <[componentName := default_data d]> entity) as Hobj1.
  { unfold w1. by rewrite addComponent_obj, Hobj. }
  assert (heap w1 = <[e := <[componentName := default_data d]> entity]> (heap w))
    as Hheap1.
  { unfold w1, addComponentToEntity. rewrite Ht. cbn [negb heap]. by rewrite Hobj. }
  assert (entities w1 = entities w ∧ entityCount (stats w1) = entityCount (stats w))
    as [Hents1 Hec1].
  { unfold w1, addComponentToEntity. by rewrite Ht. }
  assert (componentCount (stats w1) !! componentName
          = Some (Int (count_base (componentCount (stats w) !! componentName) + 1)))
    as Hcc1 by by apply addComponent_count.
  assert (∀ n, n ≠ componentName →
            componentCount (stats w1) !! n = componentCount (stats w) !! n)
    as Hother1.
  { intros n Hn. unfold w1, addComponentToEntity. rewrite Ht.
    cbn [negb stats componentCount set_componentCount].
    rewrite lookup_insert_ne by done.
    destruct (isInteger _); cbn [negb]; [done|].
    by rewrite lookup_insert_ne. }
  assert (truthy (read (obj w1 e) componentName) = true) as Ht1.
  { by rewrite Hobj1, read_insert_eq. }
  destruct (removeComponent_now_fields w1 e componentName Ht1)
    as (Hheap' & Hents' & Hstats').
  fold w' in Hheap', Hents', Hstats'.
  rewrite Hheap', Hents', Hstats'. rewrite assign_ordinary by done.
  cbn [componentCount entityCount set_componentCount].
  split_and!; try done.
  - rewrite Hobj1, Hheap1, delete_insert_id, insert_insert_eq by done.
    by apply insert_id.
  - rewrite lookup_insert_eq, Hcc1. cbn. do 2 f_equal. lia.
  - intros n Hn. rewrite lookup_insert_ne by done. by apply Hother1.
Qed.

Lemma add_remove_roundtrip_witness :
  let w := five_entities in
  let w' := removeComponentFromEntity
              (addComponentToEntity w 3 "a" (VNum 7)) 3 "a" false in
  (heap w !! 3%nat = Some ∅ ∧ (∅ : Entity) !! "a" = None
   ∧ inherited "a" = false ∧ truthy (default_data (VNum 7)) = true)
  ∧ heap w' = heap w
  ∧ componentCount (stats w) !! "a" = Some (Int 1)
  ∧ componentCount (stats w') !! "a" = Some (Int 1).
Proof.
  intros w w'.
  assert (heap w !! 3%nat = Some ∅) as Hh by (vm_compute; reflexivity).
  destruct (add_remove_roundtrip w 3%nat ∅ "a" (VNum 7) Hh eq_refl eq_refl
              eq_refl)
    as (Hheap & _ & _ & Hcc & _).
  split; [split_and!; [exact Hh|reflexivity..]|].
  split; [exact Hheap|]. split; [vm_compute; reflexivity|].
  exact Hcc.
Defined.

(** X12: a non-deferred [removeEntity] of an entity of a world with distinct
    entities takes exactly that entity out of [world.entities] and out of
    every memoized filter list, lowers by one the counter of each component
    the entity holds with truthy data and no other, and leaves the entity
    object itself, with its components, as it is. *)
Theorem removeEntity_now_effect w e :
  NoDup (entities w) → e ∈ entities w →
  ∃ w', removeEntity w e false = Some w'
    ∧ (∀ y, y ∈ entities w' ↔ y ∈ entities w ∧ y ≠ e)
    ∧ (∀ filterId l, filters w !! filterId = Some l → NoDup l →
         ∃ l', filters w' !! filterId = Some l'
           ∧ ∀ y, y ∈ l' ↔ y ∈ l ∧ y ≠ e)
    ∧ heap w' = heap w
    ∧ ∀ n, componentCount (stats w') !! n
           = if truthy (prop (obj w e) n)
             then Some (num_add (componentCount (stats w) !! n) (-1))
             else componentCount (stats w) !! n.
Proof.
  intros Hnd Hin. pose proof (indexOf_elem _ _ Hin) as Hge.
  destruct (removeEntity_total w e false) as [w' Hw']. exists w'.
  split; [done|]. unfold removeEntity in Hw'.
  destruct (Z.ltb_spec (indexOf (entities w) e) 0) as [|_]; [lia|].
  destruct (removeEntity_inner_spec _ _ _ Hw') as (_ & Hents & Hfs & Hheap & _).
  cbn [entities filters heap set_listeners_removed] in Hents, Hfs, Hheap.
  destruct (remove_first_spec _ e Hnd Hge) as [_ Hmem].
  split_and!.
  - intros y. rewrite Hents. apply Hmem.
  - intros K l Hl Hndl. rewrite Hfs, lookup_fmap, Hl. cbn.
    eexists. split; [reflexivity|]. intros y.
    destruct (indexOf_spec l e) as [[Hi Hnin]|(l1 & l2 & Hl12 & Hnin & Hi)].
    + rewrite Hi. cbn [Z.leb Z.compare]. split; [|tauto].
      intros Hy. split; [done|]. intros ->. done.
    + assert (0 ≤ indexOf l e) as Hgel by lia.
      destruct (Z.leb_spec 0 (indexOf l e)) as [_|?]; [|lia].
      by destruct (remove_first_spec l e Hndl Hgel) as [_ Hmem'].
  - done.
  - intros n. unfold _removeEntity in Hw'.
    destruct (Z.ltb _ 0); [done|]. injection Hw' as <-.
    cbn [stats componentCount set_componentCount set_listeners_removed].
    apply fold_counts.
Qed.

Lemma removeEntity_now_effect_witness :
  let w := five_entities in
  (NoDup (entities w) ∧ 0%nat ∈ entities w)
  ∧ ∃ w', removeEntity w 0 false = Some w'
      ∧ entities w' = [1; 2; 3; 4]%nat
      ∧ filters w !! "a" = Some [0%nat] ∧ filters w' !! "a" = Some []
      ∧ componentCount (stats w) !! "a" = Some (Int 1)
      ∧ componentCount (stats w') !! "a" = Some (Int 0)
      ∧ obj w' 0 !! "a" = Some (VObj []).
Proof.
  intros w.
  assert (NoDup (entities w)) as Hnd.
  { apply (bool_decide_unpack _). vm_compute. exact I. }
  assert (0%nat ∈ entities w) as Hin.
  { apply (bool_decide_unpack _). vm_compute. exact I. }
  split; [done|].
  destruct (removeEntity_now_effect w 0%nat Hnd Hin) as (w' & Hw' & _).
  exists w'. split; [exact Hw'|].
  assert (Some w' = Some (default w (removeEntity w 0 false))) as Heq.
  { rewrite <- Hw'. vm_compute. reflexivity. }
  injection Heq as ->. split_and!; vm_compute; reflexivity.
Defined.

(** X13: when the flush comes to a queued removal of a component that the
    entity no longer has, nothing changes: [_removeComponent] gives the
    same world back, provided the entity object is allocated, the name is
    well formed (no leading ["!"], no comma, no member of
    [Object.prototype]) and every memoized list holds the entity exactly
    when it matches. *)
Theorem removeComponent_absent w e componentName :
  is_Some (heap w !! e) →
  obj w e !! componentName = None →
  name_ok componentName = true →
  (∀ filterId l, filters w !! filterId = Some l →
     (e ∈ l ↔ _matchesFilter filterId (obj w e) [] = true)) →
  _removeComponent w e componentName = w.
Proof.
  intros [entity Hheap] Habsent Hok Hc.
  apply andb_true_iff in Hok as [Hok Hinh].
  apply andb_true_iff in Hok as [Hbang Hcomma].
  apply negb_true_iff in Hbang. apply negb_true_iff in Hcomma.
  apply negb_true_iff in Hinh.
  assert (obj w e = entity) as Hobj by (unfold obj; by rewrite Hheap).
  unfold _removeComponent. unfold read. rewrite Habsent, Hinh.
  cbn [truthy].
  rewrite delete_id by done. rewrite Hobj, (insert_id _ _ _ Hheap).
  assert (map_imap (λ filterId filter,
            Some (remove_update_filter entity e componentName filterId filter))
            (filters w) = filters w) as ->.
  { apply map_eq. intros K. rewrite map_lookup_imap.
    destruct (filters w !! K) as [l|] eqn:Hl; [|done]. cbn. f_equal.
    pose proof (Hc K l Hl) as Hmem. rewrite Hobj in Hmem.
    unfold remove_update_filter.
    destruct (_matchesFilter K entity []) eqn:Hm.
    - assert (e ∈ l) as Hel by by apply Hmem.
      apply arr_includes_true in Hel. rewrite Hel. cbn [andb negb].
      destruct (_hasComponent K componentName) eqn:Hh; [|done].
      exfalso. apply token_of_hasComponent in Hh; [|done].
      pose proof (matchesFilter_token_truthy K entity componentName Hh Hbang Hm)
        as Ht.
      rewrite <- Hobj in Ht. unfold read in Ht. rewrite Habsent, Hinh in Ht.
      discriminate Ht.
    - cbn [andb].
      assert (e ∉ l) as Hnel.
      { intros Hel. apply Hmem in Hel. congruence. }
      rewrite (indexOf_not_elem _ _ Hnel). cbn [Z.leb Z.compare].
      by destruct (_hasComponent K componentName). }
  destruct w as [? ? ? ? ? ? ? ? []]. reflexivity.
Qed.

Lemma removeComponent_absent_witness :
  let w := (getEntities
              (addComponentToEntity (createEntity createWorld).2 0 "a" VUndefined)
              ["a"] None).2 in
  (is_Some (heap w !! 0%nat)
   ∧ obj w 0 !! "b" = None ∧ name_ok "b" = true
   ∧ ∀ filterId l, filters w !! filterId = Some l →
       (0%nat ∈ l ↔ _matchesFilter filterId (obj w 0) [] = true))
  ∧ _removeComponent w 0 "b" = w ∧ filters w !! "a" = Some [0%nat].
Proof.
  intros w.
  assert (is_Some (heap w !! 0%nat)) as Hh by (by eexists).
  assert (obj w 0 !! "b" = None) as Ha by reflexivity.
  assert (∀ filterId l, filters w !! filterId = Some l →
            (0%nat ∈ l ↔ _matchesFilter filterId (obj w 0) [] = true)) as Hc.
  { intros K l Hl.
    change (filters w) with ({["a" := [0%nat]]} : gmap string (list nat)) in Hl.
    apply lookup_singleton_Some in Hl as [<- <-].
    split; [reflexivity|]. intros _. apply list_elem_of_here. }
  split; [split_and!; [exact Hh|exact Ha|reflexivity|exact Hc]|].
  split; [|reflexivity].
  exact (removeComponent_absent w 0%nat "b" Hh Ha eq_refl Hc).
Defined.

(** X14: the removed-listener lists.  An effective
    [removeComponentFromEntity], deferred or not, of a component whose name
    does not start with ["!"] and is no member of [Object.prototype],
    appends the entity to the list of a filter exactly when the entity
    matches now, would not match without the component, and is not in the
    list yet;
    [removeEntity] of an entity of the world, deferred or not, appends it
    to the list of every filter it matches, unless it is there. *)
Theorem removed_listener_transition :
  (∀ w e componentName (deferredRemoval : bool) filterId lst,
     truthy (read (obj w e) componentName) = true →
     startsWith componentName "!" = false →
     inherited componentName = false →
     listeners_removed w !! filterId = Some lst →
     listeners_removed
       (removeComponentFromEntity w e componentName deferredRemoval)
       !! filterId
     = Some (if _matchesFilter filterId (obj w e) []
                && negb (_matchesFilter filterId
                           (delete componentName (obj w e)) [])
                && negb (arr_includes lst e)
             then lst ++ [e] else lst))
  ∧ (∀ w e (deferredRemoval : bool) w' filterId lst,
       e ∈ entities w →
       removeEntity w e deferredRemoval = Some w' →
       listeners_removed w !! filterId = Some lst →
       listeners_removed w' !! filterId
       = Some (if _matchesFilter filterId (obj w e) []
                  && negb (arr_includes lst e)
               then lst ++ [e] else lst)).
Proof.
  split.
  - intros w e name deferred K lst Ht Hbang Hinh Hl.
    assert (listeners_removed (removeComponentFromEntity w e name deferred)
            = map_imap (λ filterId lst,
                Some (remove_update_listener (obj w e) e name filterId lst))
                (listeners_removed w)) as ->.
    { unfold removeComponentFromEntity. rewrite Ht. cbn [negb].
      destruct deferred; [|done].
      cbn [removals_components set_listeners_removed].
      by destruct (negb _). }
    rewrite map_lookup_imap, Hl. cbn. f_equal. unfold remove_update_listener.
    destruct (_matchesFilter K (obj w e) []) eqn:Hm; [|done].
    rewrite (matchesFilter_ignore_delete K (obj w e) name Hbang Hinh Hm).
    cbn [andb]. destruct (negb (_matchesFilter _ _ _)); [|done].
    cbn [andb]. by destruct (arr_includes lst e).
  - intros w e deferred w' K lst Hin Hrm Hl.
    pose proof (indexOf_elem _ _ Hin) as Hge.
    assert (listeners_removed w'
            = map_imap (λ filterId lst,
                Some (remove_entity_listener (obj w e) e filterId lst))
                (listeners_removed w)) as ->.
    { unfold removeEntity in Hrm.
      destruct (Z.ltb_spec (indexOf (entities w) e) 0) as [|_]; [lia|].
      destruct deferred.
      - destruct (negb _); by injection Hrm as <-.
      - unfold _removeEntity in Hrm. destruct (Z.ltb _ 0); [done|].
        by injection Hrm as <-. }
    rewrite map_lookup_imap, Hl. done.
Qed.

Lemma removed_listener_transition_witness :
  let w := (getEntities five_entities ["a"] (Some removed)).2 in
  let w' := default w (removeEntity w 0 false) in
  (truthy (read (obj w 0) "a") = true ∧ startsWith "a" "!" = false
   ∧ inherited "a" = false ∧ listeners_removed w !! "a" = Some []
   ∧ 0%nat ∈ entities w ∧ removeEntity w 0 false = Some w')
  ∧ listeners_removed (removeComponentFromEntity w 0 "a" true) !! "a"
    = Some [0%nat]
  ∧ listeners_removed w' !! "a" = Some [0%nat]
  ∧ entities w' = [1; 2; 3; 4]%nat.
Proof.
  intros w w'.
  assert (truthy (read (obj w 0) "a") = true) as Ht by (vm_compute; reflexivity).
  assert (listeners_removed w !! "a" = Some []) as Hl
    by (vm_compute; reflexivity).
  assert (0%nat ∈ entities w) as Hin.
  { apply (bool_decide_unpack _). vm_compute. exact I. }
  assert (removeEntity w 0 false = Some w') as Hrm by (vm_compute; reflexivity).
  destruct removed_listener_transition as [Hcomp Hent].
  split; [split_and!;
            [exact Ht|reflexivity|reflexivity|exact Hl|exact Hin|exact Hrm]|].
  split; [|split].
  - rewrite (Hcomp w 0%nat "a" true "a" [] Ht eq_refl eq_refl Hl).
    vm_compute. reflexivity.
  - rewrite (Hent w 0%nat false w' "a" [] Hin Hrm Hl). vm_compute. reflexivity.
  - vm_compute. reflexivity.
Defined.

(** * Further properties: queries, statistics and systems *)

Section Queries.

Lemma getEntities_timing w names lt :
  timing (getEntities w names lt).2 = timing w
  ∧ currentSystem (stats (getEntities w names lt).2) = currentSystem (stats w).
Proof.
  unfold timing. rewrite getEntities_stats. unfold count_invocation.
  cbn [stat_systems set_stat_systems currentSystem set_filterInvocationCount].
  split; [|done].
  destruct (stat_systems (stats w) !! currentSystem (stats w)) as [sys|] eqn:Hs;
    [|done].
  rewrite list_fmap_insert. cbn [name timeElapsed].
  apply list_insert_id. by rewrite list_lookup_fmap, Hs.
Qed.

Lemma bump_other key d (m : gmap string Count) K :
  key ≠ K → bump key d m !! K = m !! K.
Proof.
  intros Hne. unfold bump, assign.
  destruct (String.eqb key "__proto__"); [by destruct (negb _)|].
  rewrite lookup_insert_ne by done.
  destruct (negb _); [|done]. by rewrite lookup_insert_ne.
Qed.

Lemma getEntities_invocations w names lt K z :
  inherited K = false →
  default (CInt 0) (filterInvocationCount (stats w) !! K) = CInt z →
  default (CInt 0)
    (filterInvocationCount (stats (getEntities w names lt).2) !! K)
  = CInt (z + (if String.eqb (join_comma names) K then 1 else 0)).
Proof.
  intros Hinh Hz. rewrite getEntities_stats. unfold count_invocation.
  cbn [filterInvocationCount set_stat_systems set_filterInvocationCount].
  destruct (String.eqb_spec (join_comma names) K) as [->|Hne].
  - rewrite (bump_ordinary _ _ z) by done. by rewrite lookup_insert_eq.
  - rewrite bump_other by done. rewrite Hz. f_equal. lia.
Qed.

Lemma queries_snoc qs q w :
  queries (qs ++ [q]) w = (getEntities (queries qs w) q.1 q.2).2.
Proof. unfold queries. by rewrite foldl_app. Qed.

Lemma queries_of_snoc K qs q :
  queries_of K (qs ++ [q])
  = queries_of K qs + (if String.eqb (join_comma q.1) K then 1 else 0).
Proof.
  unfold queries_of. rewrite List.filter_app, length_app. cbn [List.filter].
  destruct (String.eqb (join_comma q.1) K); cbn [length]; lia.
Qed.

End Queries.

(** X15: a query asked again.  The second of two equal queries in a row
    returns the list of the first, and leaves the entities, their objects,
    the filter lists, the listener lists and the removal queues as the
    first left them: only the statistics move. *)
Theorem getEntities_repeat w componentNames listenerType :
  let first := getEntities w componentNames listenerType in
  let second := getEntities first.2 componentNames listenerType in
  second.1 = first.1
  ∧ heap second.2 = heap first.2 ∧ entities second.2 = entities first.2
  ∧ filters second.2 = filters first.2
  ∧ listeners_added second.2 = listeners_added first.2
  ∧ listeners_removed second.2 = listeners_removed first.2
  ∧ removals_entities second.2 = removals_entities first.2
  ∧ removals_components second.2 = removals_components first.2.
Proof.
  intros first second.
  assert (filters second.2 = filters first.2) as Hf.
  { unfold second. rewrite getEntities_filters.
    destruct (filters first.2 !! join_comma componentNames) eqn:Hl; [done|].
    destruct (inherited (join_comma componentNames)) eqn:Hi; [done|].
    exfalso. revert Hl. unfold first. rewrite getEntities_filters, Hi.
    destruct (filters w !! join_comma componentNames) eqn:Hw.
    - by rewrite Hw.
    - by rewrite lookup_insert_eq. }
  assert (listeners_added second.2 = listeners_added first.2) as Ha.
  { unfold second. rewrite getEntities_listeners_added.
    destruct listenerType as [[]|]; [|done..].
    destruct (listeners_added first.2 !! join_comma componentNames) eqn:Hl;
      [done|].
    destruct (inherited (join_comma componentNames)) eqn:Hi; [done|].
    exfalso. revert Hl. unfold first. rewrite getEntities_listeners_added, Hi.
    destruct (listeners_added w !! join_comma componentNames) eqn:Hw.
    - by rewrite Hw.
    - by rewrite lookup_insert_eq. }
  assert (listeners_removed second.2 = listeners_removed first.2) as Hr.
  { unfold second. rewrite getEntities_listeners_removed.
    destruct listenerType as [[]|]; [done| |done].
    destruct (listeners_removed first.2 !! join_comma componentNames) eqn:Hl;
      [done|].
    destruct (inherited (join_comma componentNames)) eqn:Hi; [done|].
    exfalso. revert Hl. unfold first. rewrite getEntities_listeners_removed, Hi.
    destruct (listeners_removed w !! join_comma componentNames) eqn:Hw.
    - by rewrite Hw.
    - by rewrite lookup_insert_eq. }
  split.
  { unfold second. rewrite getEntities_result. fold second.
    rewrite Hf, Ha, Hr. unfold first at 4. rewrite getEntities_result.
    by destruct listenerType as [[]|]. }
  split; [apply getEntities_heap|]. split; [apply getEntities_entities|].
  split; [exact Hf|]. split; [exact Ha|]. split; [exact Hr|].
  split; apply getEntities_removals.
Qed.

(** X16: the invocation counter of a filter counts the queries.  For a
    filter key that names no member of [Object.prototype], a series of
    queries raises a counter that is missing (counting as zero) or holds a
    number by the number of queries for that key; straight after a reset
    of the statistics the counter is that number. *)
Theorem invocation_count_counts qs w filterId :
  inherited filterId = false →
  (∀ z, default (CInt 0) (filterInvocationCount (stats w) !! filterId)
        = CInt z →
        default (CInt 0)
          (filterInvocationCount (stats (queries qs w)) !! filterId)
        = CInt (z + queries_of filterId qs))
  ∧ default (CInt 0)
      (filterInvocationCount (stats (queries qs (_resetStats w))) !! filterId)
    = CInt (queries_of filterId qs).
Proof.
  intros Hinh.
  assert (∀ v z, default (CInt 0) (filterInvocationCount (stats v) !! filterId)
                 = CInt z →
                 default (CInt 0)
                   (filterInvocationCount (stats (queries qs v)) !! filterId)
                 = CInt (z + queries_of filterId qs)) as Hgen.
  { intros v z Hz. induction qs as [|q qs IH] using rev_ind.
    - unfold queries, queries_of. cbn [foldl List.filter length].
      rewrite Hz. f_equal. lia.
    - rewrite queries_snoc, queries_of_snoc.
      rewrite (getEntities_invocations _ _ _ _ _ Hinh IH). f_equal. lia. }
  split; [apply Hgen|].
  rewrite (Hgen _ 0); [done|].
  unfold _resetStats.
  cbn [stats set_stats filterInvocationCount set_currentSystem
       set_stat_systems set_filterInvocationCount].
  rewrite lookup_fmap.
  by destruct (filterInvocationCount (stats w) !! filterId).
Qed.

Lemma invocation_count_counts_witness :
  let w := (getEntities (createEntity createWorld).2 ["pos"] None).2 in
  let qs := [(["pos"], None); (["vel"], Some added); (["pos"], Some removed)] in
  inherited "pos" = false
  ∧ default (CInt 0) (filterInvocationCount (stats w) !! "pos") = CInt 1
  ∧ default (CInt 0) (filterInvocationCount (stats (queries qs w)) !! "pos")
    = CInt 3
  ∧ default (CInt 0)
      (filterInvocationCount (stats (queries qs (_resetStats w))) !! "pos")
    = CInt 2.
Proof.
  intros w qs. split; [reflexivity|]. split; [reflexivity|].
  destruct (invocation_count_counts qs w "pos" eq_refl) as [Hraise Hreset].
  split; [exact (Hraise 1 eq_refl)|exact Hreset].
Defined.

Section Systems.

Lemma callbacks_cases (P : (System → option (Z → World → World)) → Prop) :
  P onPreFixedUpdate → P onFixedUpdate → P onPostFixedUpdate →
  P onPreUpdate → P onUpdate → P onPostUpdate →
  ∀ callback, callback ∈ callbacks → P callback.
Proof.
  intros H1 H2 H3 H4 H5 H6 callback Hin. unfold callbacks in Hin.
  repeat (apply elem_of_cons in Hin as [->|Hin]; [assumption|]).
  by apply elem_of_nil in Hin.
Qed.


Lemma run_phase_timing callback elapsed dt rest : ∀ i w,
  callback ∈ callbacks → Forall system_ok rest →
  length (timing w) = (i + length rest)%nat →
  ∃ w', run_phase callback elapsed i rest dt w = Some w'
    ∧ ∀ j, timing w' !! j
           = if decide (i ≤ j)%nat
             then (λ p, (p.1, p.2 + elapsed j)) <$> timing w !! j
             else timing w !! j.
Proof.
  induction rest as [|system rest IH]; intros i w Hcb Hok Hlen.
  - exists w. split; [done|]. intros j. case_decide; [|done].
    cbn in Hlen. rewrite lookup_ge_None_2 by lia. done.
  - apply Forall_cons in Hok as [Hsys Hrest].
    destruct (Hsys callback Hcb) as (f & Hf & Hkeep).
    cbn [run_phase]. rewrite Hf.
    set (w1 := set_stats (set_currentSystem i (stats w)) w).
    assert (timing (f dt w1) = timing w) as Ht2 by by rewrite Hkeep.
    cbn [length] in Hlen.
    destruct (stat_systems (stats (f dt w1)) !! i) as [sys|] eqn:Hi.
    2:{ exfalso. apply lookup_ge_None in Hi.
        rewrite <- Ht2 in Hlen. unfold timing in Hlen.
        rewrite length_fmap in Hlen. lia. }
    assert (timing w !! i = Some (name sys, timeElapsed sys)) as Hwi.
    { rewrite <- Ht2. unfold timing. by rewrite list_lookup_fmap, Hi. }
    set (w3 := set_stats _ (f dt w1)).
    assert (timing w3
            = <[i := (name sys, timeElapsed sys + elapsed i)]> (timing w))
      as Ht3.
    { rewrite <- Ht2. unfold timing, w3.
      cbn [stats set_stats stat_systems set_stat_systems].
      by rewrite list_fmap_insert. }
    destruct (IH (S i) w3 Hcb Hrest) as (w' & Hrun & Ht').
    { rewrite Ht3, length_insert. lia. }
    exists w'. split; [exact Hrun|]. intros j. rewrite Ht', Ht3.
    destruct (decide (i = j)) as [<-|Hne].
    + rewrite decide_False by lia. rewrite decide_True by lia.
      rewrite list_lookup_insert_eq by lia. by rewrite Hwi.
    + rewrite list_lookup_insert_ne by done.
      destruct (decide (S i ≤ j)%nat), (decide (i ≤ j)%nat); (done || lia).
Qed.

Lemma run_phase_length callback elapsed dt rest : ∀ i w w',
  run_phase callback elapsed i rest dt w = Some w' →
  (∀ j, timing w' !! j
        = if decide (i ≤ j)%nat
          then (λ p, (p.1, p.2 + elapsed j)) <$> timing w !! j
          else timing w !! j) →
  length (timing w') = length (timing w).
Proof.
  intros i w w' _ Hj.
  destruct (Nat.lt_trichotomy (length (timing w')) (length (timing w)))
    as [Hlt|[Heq|Hgt]]; [|done|]; exfalso.
  - pose proof (Hj (length (timing w'))) as H.
    rewrite lookup_ge_None_2 in H by lia.
    destruct (lookup_lt_is_Some_2 (timing w) _ Hlt) as [p Hp].
    rewrite Hp in H. by case_decide.
  - pose proof (Hj (length (timing w))) as H.
    rewrite (lookup_ge_None_2 (timing w)) in H by lia.
    destruct (lookup_lt_is_Some_2 (timing w') _ Hgt) as [p Hp].
    rewrite Hp in H. by case_decide.
Qed.

Lemma move_x_timing dt l : ∀ w, timing (foldl (move_x dt) w l) = timing w.
Proof.
  induction l as [|e l IH]; intros w; [done|]. cbn [foldl]. rewrite IH.
  unfold move_x. destruct (obj w e !! "pos") as [[]|]; try done.
  repeat (case_match; try done).
Qed.

Lemma mover_timing dt w :
  let r := getEntities w ["pos"] None in
  timing match r.1 with
         | Entities l => foldl (move_x dt) r.2 l
         | Member _ => r.2
         end = timing w.
Proof.
  intros r. destruct r.1; [rewrite move_x_timing|]; apply getEntities_timing.
Qed.

Lemma scenario_ok : ecs_ok scenario.
Proof.
  split; [reflexivity|]. apply Forall_singleton.
  intros callback Hin. revert callback Hin.
  apply callbacks_cases; (eexists; split; [reflexivity|]); intros dt w;
    try reflexivity.
  exact (mover_timing dt w).
Qed.

Lemma query_stats_run_queue {A} (step : World → A → option World) queue :
  (∀ w x w', step w x = Some w' → query_stats w' = query_stats w) →
  ∀ w w', run_queue step queue w = Some w' → query_stats w' = query_stats w.
Proof.
  intros Hstep. induction queue as [|x queue IH]; intros w w' Hrun.
  - by injection Hrun as <-.
  - cbn [run_queue] in Hrun. destruct (step w x) as [w1|] eqn:Hx; [|done].
    rewrite (IH _ _ Hrun). by apply (Hstep w x).
Qed.

Lemma removeEntity_inner_query_stats w e w' :
  _removeEntity w e = Some w' → query_stats w' = query_stats w.
Proof.
  unfold _removeEntity. destruct (Z.ltb _ 0); [done|]. by intros [= <-].
Qed.

End Systems.



(** X18: a phase over paired systems whose callbacks leave the names and
    times alone runs to its end: it keeps the systems, and adds to the time
    of system [i], and of no other, the time measured around its
    callback. *)
Theorem phase_timing callback elapsed ecs dt :
  ecs_ok ecs → callback ∈ callbacks →
  ∃ ecs', phase callback elapsed ecs dt = Some ecs'
    ∧ systems ecs' = systems ecs ∧ ecs_ok ecs'
    ∧ timing (world ecs')
      = imap (λ i p, (p.1, p.2 + elapsed i)) (timing (world ecs)).
Proof.
  intros [Hlen Hsys] Hcb.
  destruct (run_phase_timing callback elapsed dt (systems ecs) 0 (world ecs)
              Hcb Hsys) as (w' & Hrun & Ht).
  { unfold timing. by rewrite length_fmap. }
  pose proof (run_phase_length _ _ _ _ _ _ _ Hrun Ht) as Hl.
  unfold phase. rewrite Hrun. eexists. split; [reflexivity|].
  cbn [systems world]. split; [done|]. split.
  - split; [|done]. cbn [systems world]. unfold timing in Hl.
    rewrite !length_fmap in Hl. by rewrite Hl.
  - apply list_eq. intros j. rewrite Ht, list_lookup_imap.
    by rewrite decide_True by lia.
Qed.

Lemma phase_timing_witness :
  (ecs_ok scenario ∧ onUpdate ∈ callbacks)
  ∧ ∃ ecs', update (λ _, 3) scenario 16 = Some ecs'
      ∧ systems ecs' = systems scenario ∧ ecs_ok ecs'
      ∧ timing (world ecs') = [("mover", 3)].
Proof.
  assert (onUpdate ∈ callbacks) as Hin.
  { unfold callbacks.
    repeat first [apply list_elem_of_here | apply list_elem_of_further]. }
  split; [split; [exact scenario_ok|exact Hin]|].
  destruct (phase_timing onUpdate (λ _, 3) scenario 16 scenario_ok Hin)
    as (ecs' & Hrun & Hs & Hok & Ht).
  exists ecs'. split; [exact Hrun|]. split; [exact Hs|]. split; [exact Hok|].
  exact Ht.
Defined.

(** X19: the statistics of queries are written by queries, phases and the
    reset only.  Creating an entity, adding or removing a component,
    removing an entity and the flush leave the invocation counters, the
    per-system entries and the running system as they are; a query leaves
    the names, the times and the running system; the reset keeps the names
    and sets every time to zero. *)
Theorem query_stats_frame w :
  query_stats (createEntity w).2 = query_stats w
  ∧ (∀ e componentName componentData,
       query_stats (addComponentToEntity w e componentName componentData)
       = query_stats w)
  ∧ (∀ e componentName deferredRemoval,
       query_stats (removeComponentFromEntity w e componentName deferredRemoval)
       = query_stats w)
  ∧ (∀ e deferredRemoval w',
       removeEntity w e deferredRemoval = Some w' →
       query_stats w' = query_stats w)
  ∧ (∀ w', cleanup w = Some w' → query_stats w' = query_stats w)
  ∧ (∀ componentNames listenerType,
       let w' := (getEntities w componentNames listenerType).2 in
       timing w' = timing w
       ∧ currentSystem (stats w') = currentSystem (stats w))
  ∧ timing (_resetStats w) = (λ p, (p.1, 0)) <$> timing w.
Proof.
  split; [done|]. split.
  { intros e name d. unfold addComponentToEntity. by destruct (truthy _). }
  split.
  { intros e name deferred. unfold removeComponentFromEntity.
    destruct (negb (truthy _)); [done|]. destruct deferred; [|done].
    by destruct (negb (includesStr _ _)). }
  split.
  { intros e deferred w'. unfold removeEntity.
    destruct (Z.ltb _ 0); [by intros [= <-]|]. destruct deferred.
    - destruct (negb _); by intros [= <-].
    - intros H. by rewrite (removeEntity_inner_query_stats _ _ _ H). }
  split.
  { intros w' Hclean. unfold cleanup in Hclean.
    destruct (run_queue cleanup_component _ _) as [w1|] eqn:Hq1; [|done].
    destruct (run_queue cleanup_entity _ _) as [w3|] eqn:Hq2; [|done].
    injection Hclean as <-.
    apply query_stats_run_queue in Hq1, Hq2.
    - change (query_stats w3 = query_stats w). by rewrite Hq2.
    - intros v idx v'. unfold cleanup_entity.
      destruct (at_index _ _); [|done]. apply removeEntity_inner_query_stats.
    - intros v key v'. unfold cleanup_component.
      destruct (at_key _ _); [|done]. by intros [= <-]. }
  split; [intros names lt; apply getEntities_timing|].
  unfold timing, _resetStats.
  cbn [stats set_stats stat_systems set_currentSystem set_stat_systems].
  rewrite <- !list_fmap_compose. done.
Qed.
